(** * Location tracker: acquisition hook, history buffer and geometry helpers

    A shallow embedding of the TypeScript sources

    - [src/lib/geolocation.ts]   ([GeolocationService], [LocationData]),
    - [src/lib/mapUtils.ts]      ([MapUtils]),
    - [src/hooks/useGeolocation.ts] (the [useGeolocation] hook),
    - [src/components/LocationTracker.tsx] (history buffer and persistence).

    A JavaScript [number] is an IEEE 754 binary64 value, which is what Rocq's
    primitive [float] is: comparisons, [+], [-], [*], [/] and [Math.abs] are
    the primitive operations, so the definitions below run on the same values
    as the program.  [Math.sin], [Math.cos] and [Math.atan2] are only
    "implementation-approximated" by the language standard: the one function
    using them ([calculateDistance]) takes the host's [Math] object as a
    parameter, and what a theorem needs of that object is among its
    hypotheses.  [Math.sqrt] is the IEEE 754 square root.

    What surrounds the program is modelled as far as the program depends on
    it:

    - the host ([navigator.geolocation]) keeps the list of watches it
      serves; [clearWatch] removes one;
    - React runs the history effect once after each render in which the
      hook's [location] is a new object, and each event is handled to
      completion before the next one (the parent's [onLocationUpdate]
      callback keeps its identity);
    - a string in [localStorage] is identified with the JSON document it
      is the text of, when it is one;
    - over the life of a component ([Lifecycle]) three more things can
      happen between those events: the permission check of the mount effect
      settles, the answer to a single request arrives some events after the
      call, and React re-runs the auto-start effect (the cleanup left by its
      previous run, then its body), which it does whenever the effect's
      dependency list has changed.  [LocationTracker] hands the hook a fresh
      [options] object at every render, so that happens after every
      render: a run of the component is a list of [Lifecycle] events with an
      [EffectRerun] after each event that changes the state. *)

From Stdlib Require Import Reals Lra.
From Stdlib Require Import ZArith String List Bool Lia Floats Permutation.
From Stdlib Require Import QArith Qabs.
Import ListNotations.

Close Scope Q_scope.
Close Scope R_scope.
Open Scope Z_scope.

(** * Part I: the program *)

(** ** JavaScript arrays *)

Module JsArray.

(** [Array.prototype.slice(start)] with [end] omitted: a negative [start]
    counts from the end and is clamped at index 0, a positive one is clamped
    at the length. *)
Definition slice {A : Type} (start : Z) (l : list A) : list A :=
  let len := Z.of_nat (length l) in
  let k := if start <? 0 then Z.max (len + start) 0 else Z.min start len in
  skipn (Z.to_nat k) l.

(** Spread into a literal, [[...prev, x]]. *)
Definition spread_push {A : Type} (prev : list A) (x : A) : list A :=
  prev ++ [x].

End JsArray.

(** ** Data model ([src/lib/geolocation.ts]) *)

(** A JavaScript [number]. *)
Definition number : Type := float.

(** [interface LocationData].  The record is parametric in the type of its
    numeric fields so that the arithmetic of [MapUtils] can be read both on
    doubles and in exact arithmetic; the program itself uses
    [LocationData number].  An optional field holding [undefined] is [None]. *)
Record LocationData (num : Type) : Type := mkLocationData {
  latitude : num;
  longitude : num;
  accuracy : num;
  timestamp : num;
  altitude : option num;
  heading : option num;
  speed : option num
}.

Arguments mkLocationData {num}.
Arguments latitude {num}.
Arguments longitude {num}.
Arguments accuracy {num}.
Arguments timestamp {num}.
Arguments altitude {num}.
Arguments heading {num}.
Arguments speed {num}.

(** ** Control flow: a call either returns or throws *)

Inductive thrown : Type :=
| SyntaxError
| TypeError.

Inductive completion (E A : Type) : Type :=
| Normal (a : A)
| Throw (e : E).

Arguments Normal {E A}.
Arguments Throw {E A}.

Definition bind {E A B : Type} (c : completion E A) (k : A -> completion E B)
  : completion E B :=
  match c with
  | Normal a => k a
  | Throw e => Throw e
  end.

Notation "x <- c ;; k" := (bind c (fun x => k))
  (at level 61, c at next level, right associativity).

(** ** The host: [navigator.geolocation] *)

Module Navigator.

(** [coords] of a [GeolocationPosition]; the three optional readings are
    [null] ([None]) when the device does not report them. *)
Record Coordinates : Type := mkCoordinates {
  c_latitude : number;
  c_longitude : number;
  c_accuracy : number;
  c_altitude : option number;
  c_heading : option number;
  c_speed : option number
}.

Record GeolocationPosition : Type := mkPosition {
  coords : Coordinates;
  p_timestamp : number
}.

(** What the host answers to a position request: a position for the
    success callback, or the [code] of a [GeolocationPositionError] for the
    error callback. *)
Inductive outcome : Type :=
| Success (position : GeolocationPosition)
| Failure (code : Z).

(** The host's side of the program: whether ['geolocation' in navigator],
    and the watch ids it currently serves. *)
Record t : Type := mk {
  has_geolocation : bool;
  watches : list Z;
  next_watch : Z
}.

(** [watchPosition] registers the callbacks under a fresh id. *)
Definition watchPosition (nav : t) : t * Z :=
  let id := next_watch nav in
  (mk (has_geolocation nav) (id :: watches nav) (id + 1), id).

(** [clearWatch(id)] removes the registration. *)
Definition clearWatch (nav : t) (id : Z) : t :=
  mk (has_geolocation nav)
     (filter (fun w => negb (w =? id)) (watches nav))
     (next_watch nav).

(** Whether the host still serves watch [id]. *)
Definition serves (nav : t) (id : Z) : bool :=
  existsb (fun w => w =? id) (watches nav).

End Navigator.

(** ** [class GeolocationService] ([src/lib/geolocation.ts]) *)

(** [interface GeolocationError].  [code] is [None] on the [Error] object
    that [getCurrentPosition] rejects with when geolocation is unsupported:
    the hook stores it under a cast, and an [Error] has no [code]. *)
Record GeolocationError : Type := mkError {
  code : option Z;
  message : string
}.

(** The DOM type [PermissionState]. *)
Inductive PermissionState : Type := granted | denied | prompt.

Module GeolocationService.

Import Navigator.

(** The instance fields [watchId] and [lastKnownPosition]. *)
Record t : Type := mk {
  watchId : option Z;
  lastKnownPosition : option (LocationData number)
}.

(** [new GeolocationService()]. *)
Definition create : t := mk None None.

Definition isGeolocationSupported (nav : Navigator.t) : bool :=
  has_geolocation nav.

Definition getErrorMessage (errorCode : Z) : string :=
  match errorCode with
  | 1 => "Location access denied by user. Please enable location permissions to use this feature."
  | 2 => "Location information unavailable. Please check your device settings and internet connection."
  | 3 => "Location request timed out. Please try again."
  | _ => "An unknown error occurred while retrieving location."
  end%string.

Definition unsupported_message : string :=
  "Geolocation is not supported by this browser"%string.

(** [x || undefined] on an optional reading: [null], [0], [-0] and [NaN]
    are falsy and become [undefined]. *)
Definition or_undefined (x : option number) : option number :=
  match x with
  | Some v => if (v =? 0)%float || is_nan v then None else Some v
  | None => None
  end.

(** The object literal built in both success callbacks. *)
Definition locationData (position : GeolocationPosition) : LocationData number :=
  let c := coords position in
  {| latitude := c_latitude c;
     longitude := c_longitude c;
     accuracy := c_accuracy c;
     timestamp := p_timestamp position;
     altitude := or_undefined (c_altitude c);
     heading := or_undefined (c_heading c);
     speed := or_undefined (c_speed c) |}.

(** [static getCurrentPosition]: the promise, settled by the host's
    answer; [Normal] is [resolve], [Throw] is [reject]. *)
Definition getCurrentPosition (nav : Navigator.t) (answer : outcome)
  : completion GeolocationError (LocationData number) :=
  if negb (isGeolocationSupported nav) then
    Throw (mkError None unsupported_message)
  else
    match answer with
    | Success position => Normal (locationData position)
    | Failure c => Throw (mkError (Some c) (getErrorMessage c))
    end.

(** [startWatching]: when unsupported, [onError] is called at once (the
    returned error) and nothing is registered; otherwise the callbacks are
    registered and the id kept in [watchId]. *)
Definition startWatching (s : t) (nav : Navigator.t)
  : t * Navigator.t * option GeolocationError :=
  if negb (isGeolocationSupported nav) then
    (s, nav, Some (mkError (Some 0) unsupported_message))
  else
    let (nav', id) := watchPosition nav in
    (mk (Some id) (lastKnownPosition s), nav', None).

(** The success callback handed to [watchPosition]: it records the
    position and calls [onLocationUpdate] with it (the returned value).
    Nothing in it looks at [watchId]. *)
Definition onPosition (s : t) (position : GeolocationPosition)
  : t * LocationData number :=
  let l := locationData position in
  (mk (watchId s) (Some l), l).

(** The error callback handed to [watchPosition]: the argument of
    [onError]. *)
Definition onPositionError (c : Z) : GeolocationError :=
  mkError (Some c) (getErrorMessage c).

Definition stopWatching (s : t) (nav : Navigator.t) : t * Navigator.t :=
  match watchId s with
  | Some id => (mk None (lastKnownPosition s), clearWatch nav id)
  | None => (s, nav)
  end.

Definition getLastKnownPosition (s : t) : option (LocationData number) :=
  lastKnownPosition s.

(** [static checkPermission].  The argument is [navigator.permissions]:
    [None] when the host has no such property, otherwise how the promise
    returned by [query({ name: 'geolocation' })] settles, [Normal] with the
    [state] of the result or [Throw] when it rejects. *)
Definition checkPermission (permissions : option (completion thrown PermissionState))
  : completion thrown PermissionState :=
  match permissions with
  | None => Normal prompt
  | Some query =>
      (* try { ... } catch (error) { return 'prompt' } *)
      match query with
      | Normal state => Normal state
      | Throw _ => Normal prompt
      end
  end.

(** [static getAccuracyLevel]; the result is one of four string
    literals. *)
Definition getAccuracyLevel (accuracy : number) : string :=
  if (accuracy <=? 10)%float then "excellent"
  else if (accuracy <=? 50)%float then "good"
  else if (accuracy <=? 100)%float then "fair"
  else "poor".

(** [static getAccuracyColor]: a [switch] on the level without a
    [default]; falling out of it returns [undefined] ([None]). *)
Definition getAccuracyColor (accuracy : number) : option string :=
  let level := getAccuracyLevel accuracy in
  if (level =? "excellent")%string then Some "text-green-600"%string
  else if (level =? "good")%string then Some "text-blue-600"%string
  else if (level =? "fair")%string then Some "text-yellow-600"%string
  else if (level =? "poor")%string then Some "text-red-600"%string
  else None.

End GeolocationService.

(** ** The [useGeolocation] hook ([src/hooks/useGeolocation.ts]) *)

Module UseGeolocation.

Import Navigator.

(** [interface UseGeolocationState]. *)
Record UseGeolocationState : Type := mkState {
  location : option (LocationData number);
  error : option GeolocationError;
  loading : bool;
  permission : option PermissionState;
  isSupported : bool
}.

(** [Partial<UseGeolocationState>]: a field is [None] when the update does
    not mention it. *)
Record Partial : Type := mkPartial {
  u_location : option (option (LocationData number));
  u_error : option (option GeolocationError);
  u_loading : option bool;
  u_permission : option (option PermissionState);
  u_isSupported : option bool
}.

Definition merge {A : Type} (prev : A) (u : option A) : A :=
  match u with
  | Some v => v
  | None => prev
  end.

(** [setState(prev => ({ ...prev, ...updates }))]. *)
Definition updateState (prev : UseGeolocationState) (updates : Partial)
  : UseGeolocationState :=
  {| location := merge (location prev) (u_location updates);
     error := merge (error prev) (u_error updates);
     loading := merge (loading prev) (u_loading updates);
     permission := merge (permission prev) (u_permission updates);
     isSupported := merge (isSupported prev) (u_isSupported updates) |}.

(** One hook instance: the React state and the two refs. *)
Record t : Type := mk {
  state : UseGeolocationState;
  geolocationService : GeolocationService.t;
  isWatching : bool
}.

(** The first render. *)
Definition init (nav : Navigator.t) : t :=
  mk (mkState None None false None
        (GeolocationService.isGeolocationSupported nav))
     GeolocationService.create
     false.

(** [getCurrentPosition], with the host's answer to the request.  The
    result is the hook after the call and the value the promise resolves
    with ([None] is [null]). *)
Definition getCurrentPosition (h : t) (nav : Navigator.t) (answer : outcome)
  : completion GeolocationError (t * option (LocationData number)) :=
  if negb (isSupported (state h)) then
    let st := updateState (state h)
      {| u_location := None;
         u_error := Some (Some (mkError (Some 0)
                                  GeolocationService.unsupported_message));
         u_loading := None; u_permission := None; u_isSupported := None |} in
    Normal (mk st (geolocationService h) (isWatching h), None)
  else
    let st := updateState (state h)
      {| u_location := None; u_error := Some None; u_loading := Some true;
         u_permission := None; u_isSupported := None |} in
    (* try { ... await ... } catch (error) { ... } *)
    match GeolocationService.getCurrentPosition nav answer with
    | Normal l =>
        let st' := updateState st
          {| u_location := Some (Some l); u_error := None;
             u_loading := Some false;
             u_permission := None; u_isSupported := None |} in
        Normal (mk st' (geolocationService h) (isWatching h), Some l)
    | Throw e =>
        let st' := updateState st
          {| u_location := None; u_error := Some (Some e);
             u_loading := Some false;
             u_permission := None; u_isSupported := None |} in
        Normal (mk st' (geolocationService h) (isWatching h), None)
    end.

(** The [onLocationUpdate] argument of [startWatching]. *)
Definition onLocation (st : UseGeolocationState) (l : LocationData number)
  : UseGeolocationState :=
  updateState st
    {| u_location := Some (Some l); u_error := None; u_loading := Some false;
       u_permission := None; u_isSupported := None |}.

(** The [onError] argument of [startWatching]. *)
Definition onError (st : UseGeolocationState) (e : GeolocationError)
  : UseGeolocationState :=
  updateState st
    {| u_location := None; u_error := Some (Some e); u_loading := Some false;
       u_permission := None; u_isSupported := None |}.

Definition startWatching (h : t) (nav : Navigator.t) : t * Navigator.t :=
  if negb (isSupported (state h)) || isWatching h then (h, nav)
  else
    let st := updateState (state h)
      {| u_location := None; u_error := Some None; u_loading := Some true;
         u_permission := None; u_isSupported := None |} in
    let '(svc, nav', failed) :=
      GeolocationService.startWatching (geolocationService h) nav in
    let st' := match failed with
               | Some e => onError st e
               | None => st
               end in
    (mk st' svc true, nav').

(** The success callback of the subscription, as the service and the hook
    compose it: record the position, then [updateState]. *)
Definition watchSuccess (h : t) (position : GeolocationPosition) : t :=
  let (svc, l) := GeolocationService.onPosition (geolocationService h) position in
  mk (onLocation (state h) l) svc (isWatching h).

(** The error callback of the subscription. *)
Definition watchError (h : t) (c : Z) : t :=
  mk (onError (state h) (GeolocationService.onPositionError c))
     (geolocationService h) (isWatching h).

Definition stopWatching (h : t) (nav : Navigator.t) : t * Navigator.t :=
  if isWatching h then
    let (svc, nav') :=
      GeolocationService.stopWatching (geolocationService h) nav in
    let st := updateState (state h)
      {| u_location := None; u_error := None; u_loading := Some false;
         u_permission := None; u_isSupported := None |} in
    (mk st svc false, nav')
  else (h, nav).

Definition clearError (h : t) : t :=
  mk (updateState (state h)
        {| u_location := None; u_error := Some None; u_loading := None;
           u_permission := None; u_isSupported := None |})
     (geolocationService h) (isWatching h).

(** [checkPermission], given [navigator.permissions] as for the service:
    the hook after the call and the value the promise resolves with. *)
Definition checkPermission (h : t)
           (permissions : option (completion thrown PermissionState))
  : t * PermissionState :=
  match GeolocationService.checkPermission permissions with
  | Normal permission =>
      (mk (updateState (state h)
             {| u_location := None; u_error := None; u_loading := None;
                u_permission := Some (Some permission);
                u_isSupported := None |})
          (geolocationService h) (isWatching h),
       permission)
  | Throw _ =>
      (mk (updateState (state h)
             {| u_location := None;
                u_error := Some (Some (mkError (Some 1)
                                         "Failed to check location permission"));
                u_loading := None;
                u_permission := Some (Some denied);
                u_isSupported := None |})
          (geolocationService h) (isWatching h),
       denied)
  end.

(** [getCurrentPosition] on either side of its [await]: what runs at the
    call (the flag tells whether a request went to the service), and what
    runs once the promise has settled. *)
Definition requestSent (h : t) : t * bool :=
  if negb (isSupported (state h)) then
    (mk (updateState (state h)
           {| u_location := None;
              u_error := Some (Some (mkError (Some 0)
                                       GeolocationService.unsupported_message));
              u_loading := None; u_permission := None; u_isSupported := None |})
        (geolocationService h) (isWatching h),
     false)
  else
    (mk (updateState (state h)
           {| u_location := None; u_error := Some None; u_loading := Some true;
              u_permission := None; u_isSupported := None |})
        (geolocationService h) (isWatching h),
     true).

Definition requestSettled (h : t) (nav : Navigator.t) (answer : outcome)
  : t * option (LocationData number) :=
  match GeolocationService.getCurrentPosition nav answer with
  | Normal l =>
      (mk (updateState (state h)
             {| u_location := Some (Some l); u_error := None;
                u_loading := Some false;
                u_permission := None; u_isSupported := None |})
          (geolocationService h) (isWatching h),
       Some l)
  | Throw e =>
      (mk (updateState (state h)
             {| u_location := None; u_error := Some (Some e);
                u_loading := Some false;
                u_permission := None; u_isSupported := None |})
          (geolocationService h) (isWatching h),
       None)
  end.

(** [requestPermission]: [await getCurrentPosition()], the result
    dropped. *)
Definition requestPermission (h : t) (nav : Navigator.t) (answer : outcome)
  : completion GeolocationError t :=
  r <- getCurrentPosition h nav answer ;; Normal (fst r).

(** The auto-start effect (lines 117-127), body and cleanup.
    [watchPosition] is [options.watchPosition].  The dependency list names
    [startWatching], which [useCallback] rebuilds whenever [options] is
    another object; React then runs the cleanup of the previous render
    followed by the body. *)
Definition autoStartEffect (watchPosition : bool) (h : t) (nav : Navigator.t)
  : t * Navigator.t :=
  if watchPosition
     && match permission (state h) with
        | Some granted => true
        | _ => false
        end
  then startWatching h nav
  else (h, nav).

Definition autoStartCleanup (h : t) (nav : Navigator.t) : t * Navigator.t :=
  if isWatching h then stopWatching h nav else (h, nav).

(** The cleanup of the last effect (lines 130-136), run on unmount: the
    service is stopped, the [isWatching] ref is left alone. *)
Definition unmountCleanup (h : t) (nav : Navigator.t) : t * Navigator.t :=
  if isWatching h then
    let (svc, nav') :=
      GeolocationService.stopWatching (geolocationService h) nav in
    (mk (state h) svc (isWatching h), nav')
  else (h, nav).

(** Two members of the returned object. *)
Definition hasLocation (h : t) : bool :=
  match location (state h) with
  | Some _ => true
  | None => false
  end.

Definition getLastKnownPosition (h : t) : option (LocationData number) :=
  GeolocationService.getLastKnownPosition (geolocationService h).

End UseGeolocation.

(** ** JavaScript values and [JSON] *)

Module Js.

(** The values that can reach [localStorage] from this program. *)
#[local] Unset Elimination Schemes.
Inductive value : Type :=
| Undefined
| Null
| Bool (b : bool)
| Num (x : number)
| Str (s : string)
| Arr (items : list value)
| Obj (props : list (string * value)).
#[local] Set Elimination Schemes.

(** A string, as far as [JSON.parse] and truthiness can tell strings
    apart: either the text of a JSON document, identified with the value
    that [JSON.parse] builds from it, or some other string, on which
    [JSON.parse] throws. *)
Inductive text : Type :=
| JsonText (v : value)
| OtherText (s : string).

(** Truthiness of a string: only [''] is falsy. *)
Definition truthy (t : text) : bool :=
  match t with
  | OtherText EmptyString => false
  | _ => true
  end.

(** How [JSON.stringify] writes a number: [NaN] and the infinities as
    [null], a zero of either sign as [0], any other number by digits that
    read back as the same number. *)
Definition serialize_number (x : number) : value :=
  if is_nan x || is_infinity x then Null
  else if is_zero x then Num 0%float
  else Num x.

(** What the text produced by [JSON.stringify] denotes ([None]: the
    result is [undefined]).  [undefined] is written [null] inside an array
    and the property is left out inside an object. *)
Fixpoint serialize (v : value) : option value :=
  match v with
  | Undefined => None
  | Null => Some Null
  | Bool b => Some (Bool b)
  | Num x => Some (serialize_number x)
  | Str s => Some (Str s)
  | Arr items =>
      Some (Arr (map (fun item => match serialize item with
                                  | Some j => j
                                  | None => Null
                                  end) items))
  | Obj props =>
      Some (Obj (fold_right
                   (fun kv acc => match serialize (snd kv) with
                                  | Some j => (fst kv, j) :: acc
                                  | None => acc
                                  end) [] props))
  end.

Definition JSON_stringify (v : value) : option text :=
  option_map JsonText (serialize v).

Definition JSON_parse (t : text) : completion thrown value :=
  match t with
  | JsonText v => Normal v
  | OtherText _ => Throw SyntaxError
  end.

(** Spreading a value into an array literal, [[...v]]: arrays give their
    elements, strings their characters, anything else that [JSON.parse] can
    return is not iterable. *)
Definition spread (v : value) : completion thrown (list value) :=
  match v with
  | Arr items => Normal items
  | Str s => Normal (map (fun c => Str (String c EmptyString))
                         (list_ascii_of_string s))
  | _ => Throw TypeError
  end.

(** Reading a property: a missing one reads as [undefined]. *)
Fixpoint get (props : list (string * value)) (key : string) : value :=
  match props with
  | [] => Undefined
  | (k, v) :: rest => if String.eqb k key then v else get rest key
  end.

(** The object a [LocationData] is at run time; the three optional
    properties are always present, possibly holding [undefined]. *)
Definition optional (x : option number) : value :=
  match x with
  | Some v => Num v
  | None => Undefined
  end.

Definition ofLocationData (l : LocationData number) : value :=
  Obj [ ("latitude", Num (latitude l));
        ("longitude", Num (longitude l));
        ("accuracy", Num (accuracy l));
        ("timestamp", Num (timestamp l));
        ("altitude", optional (altitude l));
        ("heading", optional (heading l));
        ("speed", optional (speed l)) ]%string.

Definition ofHistory (h : list (LocationData number)) : value :=
  Arr (map ofLocationData h).

(** The typed view of a value: [Some] when the value has the shape that
    the type [LocationData] promises. *)
Definition asNumber (v : value) : option number :=
  match v with
  | Num x => Some x
  | _ => None
  end.

Definition asOptional (v : value) : option (option number) :=
  match v with
  | Num x => Some (Some x)
  | Undefined => Some None
  | _ => None
  end.

Definition asLocationData (v : value) : option (LocationData number) :=
  match v with
  | Obj props =>
      match asNumber (get props "latitude"), asNumber (get props "longitude"),
            asNumber (get props "accuracy"), asNumber (get props "timestamp"),
            asOptional (get props "altitude"), asOptional (get props "heading"),
            asOptional (get props "speed") with
      | Some la, Some lo, Some ac, Some ts, Some al, Some he, Some sp =>
          Some (mkLocationData la lo ac ts al he sp)
      | _, _, _, _, _, _, _ => None
      end
  | _ => None
  end%string.

Fixpoint asLocations (items : list value) : option (list (LocationData number)) :=
  match items with
  | [] => Some []
  | v :: rest =>
      match asLocationData v, asLocations rest with
      | Some l, Some ls => Some (l :: ls)
      | _, _ => None
      end
  end.

Definition asHistory (v : value) : option (list (LocationData number)) :=
  match v with
  | Arr items => asLocations items
  | _ => None
  end.

End Js.

(** ** The history buffer ([LocationTracker.tsx], lines 39-45) *)

Module History.

(** The literal in [newHistory.slice(-100)]. *)
Definition capacity : Z := 100.

(** The updater passed to [setLocationHistory]:
    [prev => [...prev, location].slice(-100)]. *)
Definition append {A : Type} (prev : list A) (location : A) : list A :=
  let newHistory := JsArray.spread_push prev location in
  JsArray.slice (- capacity) newHistory.

End History.

(** ** The [LocationTracker] component ([src/components/LocationTracker.tsx]) *)

Module LocationTracker.

Import Navigator.

(** The component, its hook, and the ['locationHistory'] slot of
    [localStorage] ([None] when [getItem] returns [null]). *)
Record t : Type := mk {
  hook : UseGeolocation.t;
  locationHistory : list (LocationData number);
  localStorage : option Js.text
}.

(** [localStorage.setItem] stores the string form of its argument. *)
Definition setItem (s : option Js.text) : option Js.text :=
  match s with
  | Some t => Some t
  | None => Some (Js.OtherText "undefined")
  end.

(** [localStorage.getItem('locationHistory') || '[]']. *)
Definition saved_or_empty (slot : option Js.text) : Js.text :=
  match slot with
  | Some t => if Js.truthy t then t else Js.JsonText (Js.Arr [])
  | None => Js.JsonText (Js.Arr [])
  end.

(** Lines 47-50: the slot after the write. *)
Definition persist (slot : option Js.text) (location : LocationData number)
  : completion thrown (option Js.text) :=
  savedLocations <- Js.JSON_parse (saved_or_empty slot) ;;
  items <- Js.spread savedLocations ;;
  let updatedLocations :=
    JsArray.slice (-100) (items ++ [Js.ofLocationData location]) in
  Normal (setItem (Js.JSON_stringify (Js.Arr updatedLocations))).

(** The effect of lines 39-55, run after a render in which [location] is a
    new object.  The parent's [onLocationUpdate] callback is outside the
    component. *)
Definition locationEffect (c : t) (location : LocationData number)
  : completion thrown t :=
  let history := History.append (locationHistory c) location in
  slot <- persist (localStorage c) location ;;
  Normal (mk (hook c) history slot).

(** Lines 57-68: the argument of [setLocationHistory] in the mount effect,
    [None] when it is not called. *)
Definition hydrate (slot : option Js.text) : option Js.value :=
  match slot with
  | Some saved =>
      if Js.truthy saved then
        match Js.JSON_parse saved with
        | Normal parsedLocations => Some parsedLocations
        | Throw _ => None
        end
      else None
  | None => None
  end.

(** The component after mounting: [None] when the stored document does
    not have the shape of a [LocationData[]] (the state then holds a value
    outside its type). *)
Definition mount (nav : Navigator.t) (slot : option Js.text) : option t :=
  match hydrate slot with
  | Some v =>
      match Js.asHistory v with
      | Some h => Some (mk (UseGeolocation.init nav) h slot)
      | None => None
      end
  | None => Some (mk (UseGeolocation.init nav) [] slot)
  end.

(** What can happen to a mounted component. *)
Inductive event : Type :=
| GetCurrentPosition (answer : outcome)
| StartWatching
| StopWatching
| ClearError
| HostPosition (id : Z) (position : GeolocationPosition)
| HostError (id : Z) (code : Z)
| LatePosition (position : GeolocationPosition).

Definition with_hook (c : t) (h : UseGeolocation.t) : t :=
  mk h (locationHistory c) (localStorage c).

(** A new [location] object in the hook state triggers the effect. *)
Definition deliver (c : t) (h : UseGeolocation.t) : completion thrown t :=
  match UseGeolocation.location (UseGeolocation.state h) with
  | Some l => locationEffect (with_hook c h) l
  | None => Normal (with_hook c h)
  end.

(** One event, handled to completion.  [HostPosition] and [HostError] are
    deliveries by a host that has checked that it still serves the watch;
    [LatePosition] is the success callback of the subscription being
    invoked without that check (a delivery that was already under way). *)
Definition step (w : Navigator.t * t) (e : event)
  : completion thrown (Navigator.t * t) :=
  let (nav, c) := w in
  match e with
  | GetCurrentPosition answer =>
      match UseGeolocation.getCurrentPosition (hook c) nav answer with
      | Normal (h, Some _) => c' <- deliver c h ;; Normal (nav, c')
      | Normal (h, None) => Normal (nav, with_hook c h)
      | Throw _ => Normal (nav, c) (* not taken: the hook catches every rejection *)
      end
  | StartWatching =>
      let (h, nav') := UseGeolocation.startWatching (hook c) nav in
      Normal (nav', with_hook c h)
  | StopWatching =>
      let (h, nav') := UseGeolocation.stopWatching (hook c) nav in
      Normal (nav', with_hook c h)
  | ClearError => Normal (nav, with_hook c (UseGeolocation.clearError (hook c)))
  | HostPosition id position =>
      if serves nav id then
        c' <- deliver c (UseGeolocation.watchSuccess (hook c) position) ;;
        Normal (nav, c')
      else Normal w
  | HostError id code =>
      if serves nav id then
        Normal (nav, with_hook c (UseGeolocation.watchError (hook c) code))
      else Normal w
  | LatePosition position =>
      c' <- deliver c (UseGeolocation.watchSuccess (hook c) position) ;;
      Normal (nav, c')
  end.

Fixpoint run (w : Navigator.t * t) (es : list event)
  : completion thrown (Navigator.t * t) :=
  match es with
  | [] => Normal w
  | e :: rest => w' <- step w e ;; run w' rest
  end.

(** The button handlers (lines 70-86), with the host's answer to the
    request where one is made. *)
Definition handleGetLocation (w : Navigator.t * t) (answer : outcome)
  : completion thrown (Navigator.t * t) :=
  run w [ClearError; GetCurrentPosition answer].

Definition handleStartTracking (w : Navigator.t * t)
  : completion thrown (Navigator.t * t) :=
  run w [ClearError; StartWatching].

Definition handleStopTracking (w : Navigator.t * t)
  : completion thrown (Navigator.t * t) :=
  step w StopWatching.

(** [getAccuracyBadgeColor] (lines 96-105): the same [switch], with a
    [default]. *)
Definition getAccuracyBadgeColor (accuracy : number) : string :=
  let level := GeolocationService.getAccuracyLevel accuracy in
  if (level =? "excellent")%string then "bg-green-100 text-green-800"
  else if (level =? "good")%string then "bg-blue-100 text-blue-800"
  else if (level =? "fair")%string then "bg-yellow-100 text-yellow-800"
  else if (level =? "poor")%string then "bg-red-100 text-red-800"
  else "bg-gray-100 text-gray-800".

End LocationTracker.

(** ** The component over its life: permission check, effect re-runs, unmount *)

Module Lifecycle.

Import Navigator.

(** Besides the events of the component: the promise of the mount effect's
    [checkPermission()] settles; React re-runs the auto-start effect; and a
    single request seen in its two halves, the call and, any number of
    events later, the answer. *)
Inductive event : Type :=
| Handle (e : LocationTracker.event)
| PermissionChecked (permissions : option (completion thrown PermissionState))
| EffectRerun
| RequestSent
| RequestSettled (answer : outcome).

(** A step of the hook, inside the component. *)
Definition on_hook
           (f : UseGeolocation.t -> Navigator.t -> UseGeolocation.t * Navigator.t)
           (w : Navigator.t * LocationTracker.t)
  : Navigator.t * LocationTracker.t :=
  let (nav, c) := w in
  let (h, nav') := f (LocationTracker.hook c) nav in
  (nav', LocationTracker.with_hook c h).

(** A re-run of the auto-start effect: the cleanup left by the previous
    run, then the body. *)
Definition rerun (autoStart : bool) (w : Navigator.t * LocationTracker.t)
  : Navigator.t * LocationTracker.t :=
  on_hook (UseGeolocation.autoStartEffect autoStart)
          (on_hook UseGeolocation.autoStartCleanup w).

Definition step (autoStart : bool) (w : Navigator.t * LocationTracker.t)
           (e : event)
  : completion thrown (Navigator.t * LocationTracker.t) :=
  match e with
  | Handle e' => LocationTracker.step w e'
  | PermissionChecked permissions =>
      Normal (on_hook (fun h nav =>
                         (fst (UseGeolocation.checkPermission h permissions), nav))
                      w)
  | EffectRerun => Normal (rerun autoStart w)
  | RequestSent =>
      Normal (on_hook (fun h nav => (fst (UseGeolocation.requestSent h), nav)) w)
  | RequestSettled answer =>
      let (nav, c) := w in
      (* only a hook that supports geolocation has requests under way *)
      if UseGeolocation.isSupported
           (UseGeolocation.state (LocationTracker.hook c)) then
        match UseGeolocation.requestSettled (LocationTracker.hook c) nav answer with
        | (h, Some _) => c' <- LocationTracker.deliver c h ;; Normal (nav, c')
        | (h, None) => Normal (nav, LocationTracker.with_hook c h)
        end
      else Normal w
  end.

Fixpoint run (autoStart : bool) (w : Navigator.t * LocationTracker.t)
         (es : list event)
  : completion thrown (Navigator.t * LocationTracker.t) :=
  match es with
  | [] => Normal w
  | e :: rest => w' <- step autoStart w e ;; run autoStart w' rest
  end.

(** Unmounting runs the cleanups of the hook's effects in the order the
    effects were declared. *)
Definition unmount (w : Navigator.t * LocationTracker.t)
  : Navigator.t * LocationTracker.t :=
  on_hook UseGeolocation.unmountCleanup
          (on_hook UseGeolocation.autoStartCleanup w).

End Lifecycle.

(** ** [class MapUtils] ([src/lib/mapUtils.ts]) *)

Module MapUtils.

(** The global [isNaN] on a number. *)
Definition isNaN (x : number) : bool := is_nan x.

(** [a >= b] on numbers. *)
Definition geb (a b : number) : bool := (b <=? a)%float.

Definition isValidCoordinate (latitude longitude : number) : bool :=
  negb (isNaN latitude) &&
  negb (isNaN longitude) &&
  geb latitude (-90)%float &&
  (latitude <=? 90)%float &&
  geb longitude (-180)%float &&
  (longitude <=? 180)%float.

(** [Math.min] and [Math.max] of two numbers: [NaN] if either is, and
    [-0] counts as smaller than [+0]. *)
Definition Math_min (a b : number) : number :=
  if is_nan a || is_nan b then nan
  else if (a <? b)%float then a
  else if (b <? a)%float then b
  else if get_sign a then a else b.

Definition Math_max (a b : number) : number :=
  if is_nan a || is_nan b then nan
  else if (a <? b)%float then b
  else if (b <? a)%float then a
  else if get_sign a then b else a.

(** The result of [calculateBounds]; a pair is [[latitude, longitude]]. *)
Record Bounds : Type := mkBounds {
  northEast : number * number;
  southWest : number * number;
  center : number * number
}.

(** The body of the [forEach] callback, on the four running extremes. *)
Definition widen (acc : number * number * number * number)
           (location : LocationData number)
  : number * number * number * number :=
  let '(minLat, maxLat, minLng, maxLng) := acc in
  (Math_min minLat (latitude location),
   Math_max maxLat (latitude location),
   Math_min minLng (longitude location),
   Math_max maxLng (longitude location)).

Definition calculateBounds (locations : list (LocationData number)) : Bounds :=
  match locations with
  | [] => mkBounds (0, 0)%float (0, 0)%float (0, 0)%float
  | first :: _ =>
      let '(minLat, maxLat, minLng, maxLng) :=
        fold_left widen locations
          (latitude first, latitude first, longitude first, longitude first) in
      mkBounds (maxLat, maxLng) (minLat, minLng)
               ((minLat + maxLat) / 2, (minLng + maxLng) / 2)%float
  end.

Definition getOptimalZoom (accuracy : number) : number :=
  if (accuracy <=? 10)%float then 18%float
  else if (accuracy <=? 50)%float then 16%float
  else if (accuracy <=? 100)%float then 15%float
  else if (accuracy <=? 500)%float then 14%float
  else 13%float.

End MapUtils.

(** ** Arithmetic, as the program text uses it

    [calculateAreaFromLocations] only adds, subtracts, multiplies, divides
    by two and takes an absolute value.  It is written once against this
    interface: at [number] it is the program, on doubles; at [R] it is the
    same text read in exact arithmetic. *)

Class Arithmetic (T : Type) : Type := {
  lit0 : T;
  lit2 : T;
  plus : T -> T -> T;
  minus : T -> T -> T;
  times : T -> T -> T;
  over : T -> T -> T;
  absolute : T -> T
}.

#[export] Instance double_arithmetic : Arithmetic number := {|
  lit0 := 0%float;
  lit2 := 2%float;
  plus := PrimFloat.add;
  minus := PrimFloat.sub;
  times := PrimFloat.mul;
  over := PrimFloat.div;
  absolute := PrimFloat.abs
|}.

#[export] Instance exact_arithmetic : Arithmetic R := {|
  lit0 := 0%R;
  lit2 := 2%R;
  plus := Rplus;
  minus := Rminus;
  times := Rmult;
  over := Rdiv;
  absolute := Rabs
|}.

Module Area.

Section Generic.

Context {T : Type} {A : Arithmetic T}.

(** A sample at the origin; [locations[i]] is only ever read with
    [i < locations.length], so it is never returned. *)
Definition origin : LocationData T :=
  mkLocationData lit0 lit0 lit0 lit0 None None None.

Definition at_index (locations : list (LocationData T)) (i : nat)
  : LocationData T :=
  nth i locations origin.

(** One turn of the [for] loop: [area += ...; area -= ...]. *)
Definition loop_body (locations : list (LocationData T)) (n : nat)
           (area : T) (i : nat) : T :=
  let j := ((i + 1) mod n)%nat in
  let area :=
    plus area (times (latitude (at_index locations i))
                     (longitude (at_index locations j))) in
  minus area (times (latitude (at_index locations j))
                    (longitude (at_index locations i))).

(** [MapUtils.calculateAreaFromLocations]. *)
Definition calculateAreaFromLocations (locations : list (LocationData T)) : T :=
  if (length locations <? 3)%nat then lit0
  else
    let n := length locations in
    let area := fold_left (loop_body locations n) (seq 0 n) lit0 in
    over (absolute area) lit2.

End Generic.

End Area.

(** ** The host's [Math] object

    [Math.sin], [Math.cos] and [Math.atan2] are whatever the host provides;
    the standard prescribes their values at a few arguments only.  [Math.PI]
    is the double nearest to pi, and [Math.sqrt] is the correctly rounded
    square root of IEEE 754. *)

Module Math.

Record t : Type := mk {
  sin : number -> number;
  cos : number -> number;
  atan2 : number -> number -> number
}.

Definition PI : number := 0x1.921fb54442d18p+1%float.

Definition sqrt (x : number) : number := PrimFloat.sqrt x.

End Math.

(** The same functions on real numbers.  [atan2 y x] is the angle of the
    point [(x, y)], in [(-PI, PI]]. *)

Module RealMath.

Local Open Scope R_scope.

Definition atan2 (y x : R) : R :=
  match total_order_T x 0 with
  | inleft (left _) => if Rle_dec 0 y then atan (y / x) + PI
                       else atan (y / x) - PI
  | inleft (right _) =>
      match total_order_T y 0 with
      | inleft (left _) => - (PI / 2)
      | inleft (right _) => 0
      | inright _ => PI / 2
      end
  | inright _ => atan (y / x)
  end.

End RealMath.

(** ** [GeolocationService.calculateDistance]

    The function is written once, against the operations and the numeric
    literals it uses: on doubles, with the host's [Math] object, it is the
    program; on real numbers it is the same text in exact arithmetic. *)

Class Trigonometry (T : Type) : Type := {
  literal : Z -> T;
  Math_PI : T;
  Math_sin : T -> T;
  Math_cos : T -> T;
  Math_sqrt : T -> T;
  Math_atan2 : T -> T -> T
}.

Definition double_trigonometry (M : Math.t) : Trigonometry number := {|
  literal := fun z => of_uint63 (Uint63.of_Z z);
  Math_PI := Math.PI;
  Math_sin := Math.sin M;
  Math_cos := Math.cos M;
  Math_sqrt := Math.sqrt;
  Math_atan2 := Math.atan2 M
|}.

#[export] Instance exact_trigonometry : Trigonometry R := {|
  literal := IZR;
  Math_PI := PI;
  Math_sin := sin;
  Math_cos := cos;
  Math_sqrt := R_sqrt.sqrt;
  Math_atan2 := RealMath.atan2
|}.

Module Distance.

Section Generic.

Context {T : Type} {A : Arithmetic T} {G : Trigonometry T}.

Definition toRadians (degrees : T) : T :=
  times degrees (over Math_PI (literal 180)).

Definition calculateDistance (lat1 lon1 lat2 lon2 : T) : T :=
  let R := literal 6371 in
  let dLat := toRadians (minus lat2 lat1) in
  let dLon := toRadians (minus lon2 lon1) in
  let a :=
    plus (times (Math_sin (over dLat (literal 2)))
                (Math_sin (over dLat (literal 2))))
         (times (times (times (Math_cos (toRadians lat1))
                              (Math_cos (toRadians lat2)))
                       (Math_sin (over dLon (literal 2))))
                (Math_sin (over dLon (literal 2)))) in
  let c := times (literal 2)
                 (Math_atan2 (Math_sqrt a) (Math_sqrt (minus (literal 1) a))) in
  times R c.

End Generic.

End Distance.

(** The program: [calculateDistance] on doubles, on a host whose [Math]
    object is [M]. *)
Definition calculateDistance (M : Math.t) (lat1 lon1 lat2 lon2 : number)
  : number :=
  Distance.calculateDistance (G := double_trigonometry M) lat1 lon1 lat2 lon2.

(** * Part II: the vocabulary of the claims *)

(** ** Runs of appends, and the last entries of a list *)

Module Window.

(** One run of the history effect per delivered sample, in arrival order. *)
Definition append_all {A : Type} (init : list A) (samples : list A) : list A :=
  fold_left History.append samples init.

(** The last [n] elements of a list. *)
Definition last_n {A : Type} (n : nat) (l : list A) : list A :=
  rev (firstn n (rev l)).

End Window.

(** ** Doubles as exact quantities

    The primitive operations are specified by the standard library through
    [Prim2SF], the reading of a double as sign, mantissa and exponent. *)

Module Double.

(** *** An order-preserving reading of doubles as integers

    A finite double is a whole number of units of [2^-1074]; [rank] is
    that number, with the infinities placed beyond every finite value.
    [NaN] has no rank. *)
Definition rank (x : spec_float) : option Z :=
  match x with
  | S754_zero _ => Some 0
  | S754_finite s m e => Some (cond_Zopp s (Z.pos m * 2 ^ (e + 1074)))
  | S754_infinity s => Some (cond_Zopp s (2 ^ 2100))
  | S754_nan => None
  end.

Definition rankf (x : float) : option Z := rank (Prim2SF x).

(** The denominator of the unit [2^-1074]. *)
Definition unit_den : positive := (2 ^ 1074)%positive.

(** The exact value of a finite double, as a rational. *)
Definition exact (x : float) : option Q :=
  match Prim2SF x with
  | S754_zero _ => Some (Qmake 0 unit_den)
  | S754_finite s m e =>
      Some (Qmake (cond_Zopp s (Z.pos m * 2 ^ (e + 1074))) unit_den)
  | _ => None
  end.

(** The mantissa of the double [2]. *)
Definition two_m : positive := 4503599627370496.

(** A double that is not negative: its sign bit is clear, or it is [NaN]. *)
Definition sign_clear (x : spec_float) : Prop :=
  match x with
  | S754_zero s | S754_infinity s | S754_finite s _ _ => s = false
  | S754_nan => True
  end.

(** A zero or a finite double of sign [s]. *)
Definition finite_with (s : bool) (x : spec_float) : Prop :=
  match x with
  | S754_zero s' | S754_finite s' _ _ => s' = s
  | _ => False
  end.

(** A double whose exponent, if it has one, is at most [k]. *)
Definition exponent_le (k : Z) (x : spec_float) : Prop :=
  match x with
  | S754_finite _ _ e => e <= k
  | _ => True
  end.

(** [NaN] or an infinity. *)
Definition not_finite (x : spec_float) : Prop :=
  match x with
  | S754_nan | S754_infinity _ => True
  | _ => False
  end.

(** A double of sign [s] that is neither a zero nor [NaN]. *)
Definition nonzero_with (s : bool) (x : spec_float) : Prop :=
  match x with
  | S754_infinity s' | S754_finite s' _ _ => s' = s
  | _ => False
  end.

End Double.

(** ** Least and greatest of a list of numbers *)

Module MinMax.

Import MapUtils.

(** [x <= y] as the program tests it. *)
Definition le (x y : number) : Prop := (x <=? y)%float = true.

(** The least and the greatest of a list of numbers by [Math.min] and
    [Math.max]; [0] on the empty list. *)
Definition least (xs : list number) : number :=
  match xs with
  | [] => 0%float
  | x :: rest => fold_left Math_min rest x
  end.

Definition greatest (xs : list number) : number :=
  match xs with
  | [] => 0%float
  | x :: rest => fold_left Math_max rest x
  end.

End MinMax.

(** ** The shoelace sum and rotations *)

Module Shoelace.

Section Generic.

Context {T : Type} {A : Arithmetic T}.

(** *** The shoelace sum, from its description

    The edges of the closed polygon through the points, last edge back to
    the first point; each edge [(p, q)] contributes
    [+ p.latitude * q.longitude] and [- q.latitude * p.longitude], latitude
    and longitude taken as they are for planar [x] and [y]. *)
Definition edges (points : list (LocationData T))
  : list (LocationData T * LocationData T) :=
  match points with
  | [] => []
  | first :: rest => combine points (rest ++ [first])
  end.

Definition add_edge (sum : T) (e : LocationData T * LocationData T) : T :=
  minus (plus sum (times (latitude (fst e)) (longitude (snd e))))
        (times (latitude (snd e)) (longitude (fst e))).

Definition shoelace (points : list (LocationData T)) : T :=
  fold_left add_edge (edges points) lit0.

(** Cyclic rotation: the first point moves to the end, [k] times. *)
Definition rotate1 (points : list (LocationData T)) : list (LocationData T) :=
  match points with
  | [] => []
  | first :: rest => rest ++ [first]
  end.

Definition rotate (k : nat) (points : list (LocationData T))
  : list (LocationData T) :=
  Nat.iter k rotate1 points.

End Generic.

End Shoelace.

(** In exact arithmetic: the term of one edge,
    [x_i * y_(i+1) - x_(i+1) * y_i], and the sum of a list of terms. *)
Definition cross (e : LocationData R * LocationData R) : R :=
  (latitude (fst e) * longitude (snd e) - latitude (snd e) * longitude (fst e))%R.

Fixpoint total (xs : list R) : R :=
  match xs with
  | [] => 0%R
  | x :: rest => (x + total rest)%R
  end.

(** A sample that only carries coordinates. *)
Definition point {T : Type} {A : Arithmetic T} (lat lng : T) : LocationData T :=
  mkLocationData lat lng lit0 lit0 None None None.

(** ** The haversine formula *)

Module Sphere.

Local Open Scope R_scope.

(** *** The haversine formula, from its textbook statement

    [hav theta = sin^2 (theta / 2)]; for two points at latitudes [phi1],
    [phi2] and longitudes [lambda1], [lambda2] (in radians) on a sphere of
    radius [r], the great-circle distance is
    [2 r asin (sqrt (hav (phi2 - phi1)
                     + cos phi1 * cos phi2 * hav (lambda2 - lambda1)))].
    An angle of [d] degrees is [d * PI / 180] radians. *)
Definition radians (degrees : R) : R := degrees * PI / 180.

Definition hav (theta : R) : R := (sin (theta / 2))².

Definition haversine (r phi1 lambda1 phi2 lambda2 : R) : R :=
  2 * r * asin (R_sqrt.sqrt (hav (phi2 - phi1)
                              + cos phi1 * cos phi2 * hav (lambda2 - lambda1))).

(** The quantity under the square root. *)
Definition hav_sum (phi1 lambda1 phi2 lambda2 : R) : R :=
  hav (phi2 - phi1) + cos phi1 * cos phi2 * hav (lambda2 - lambda1).

End Sphere.

(** ** The distance on doubles *)

(** [Math.sin(toRadians(d) / 2)], the sine that [calculateDistance] takes of
    each of the two differences. *)
Definition half_angle_sine (M : Math.t) (d : number) : number :=
  Math.sin M (d * (Math.PI / 180) / 2)%float.

(** The value of the constant [a] of [calculateDistance]. *)
Definition haversine_sum (M : Math.t) (lat1 lon1 lat2 lon2 : number) : number :=
  (half_angle_sine M (lat2 - lat1) * half_angle_sine M (lat2 - lat1)
   + Math.cos M (lat1 * (Math.PI / 180)) * Math.cos M (lat2 * (Math.PI / 180))
     * half_angle_sine M (lon2 - lon1) * half_angle_sine M (lon2 - lon1))%float.

(** What the language standard prescribes of [Math.sin]: [+0] at [+0],
    [NaN] at [NaN] and at the infinities. *)
Definition standard_sin (M : Math.t) : Prop :=
  Math.sin M 0%float = 0%float
  /\ Math.sin M nan = nan
  /\ Math.sin M infinity = nan
  /\ Math.sin M neg_infinity = nan.

(** What it prescribes of [Math.atan2], as far as it is used here: [NaN]
    when an argument is [NaN], and [+0] for [y = +0] and [x > 0]. *)
Definition standard_atan2 (M : Math.t) : Prop :=
  (forall y x, is_nan y || is_nan x = true -> Math.atan2 M y x = nan)
  /\ (forall x, (0 <? x)%float = true -> Math.atan2 M 0%float x = 0%float).

(** Two properties the standard does not prescribe and the engines have:
    [Math.sin] is odd, and [Math.cos] of a finite number lies between [-1]
    and [1]. *)
Definition odd_sine (M : Math.t) : Prop :=
  forall x, Math.sin M (- x)%float = (- Math.sin M x)%float.

Definition bounded_cosine (M : Math.t) : Prop :=
  forall x, is_finite x = true -> (abs (Math.cos M x) <=? 1)%float = true.

(** ** Storage *)

(** Whether the write to [localStorage] in the history effect can read what
    is stored there ([JSON.parse] succeeds and the result can be spread). *)
Definition readable (slot : option Js.text) : bool :=
  match (v <- Js.JSON_parse (LocationTracker.saved_or_empty slot) ;; Js.spread v) with
  | Normal _ => true
  | Throw _ => false
  end.

(** The slot after [localStorage.setItem('locationHistory',
    JSON.stringify(S))]. *)
Definition persisted (S : list (LocationData number)) : option Js.text :=
  LocationTracker.setItem (Js.JSON_stringify (Js.ofHistory S)).

(** A number that JSON can write down: finite, and not the negative zero. *)
Definition representable (x : number) : bool :=
  is_finite x && negb (Leibniz.eqb x neg_zero).

Definition representable_opt (x : option number) : bool :=
  match x with
  | Some v => representable v
  | None => true
  end.

Definition representable_sample (l : LocationData number) : bool :=
  representable (latitude l) && representable (longitude l) &&
  representable (accuracy l) && representable (timestamp l) &&
  representable_opt (altitude l) && representable_opt (heading l) &&
  representable_opt (speed l).

(** A sample whose numbers are all finite. *)
Definition finite_opt (x : option number) : bool :=
  match x with
  | Some v => is_finite v
  | None => true
  end.

Definition finite_sample (l : LocationData number) : bool :=
  is_finite (latitude l) && is_finite (longitude l) &&
  is_finite (accuracy l) && is_finite (timestamp l) &&
  finite_opt (altitude l) && finite_opt (heading l) && finite_opt (speed l).

(** A number with the sign of a zero dropped, and a sample with the sign of
    every zero dropped. *)
Definition unsigned_zero (x : number) : number :=
  if is_zero x then 0%float else x.

Definition unsigned_zeros (l : LocationData number) : LocationData number :=
  mkLocationData (unsigned_zero (latitude l)) (unsigned_zero (longitude l))
                 (unsigned_zero (accuracy l)) (unsigned_zero (timestamp l))
                 (option_map unsigned_zero (altitude l))
                 (option_map unsigned_zero (heading l))
                 (option_map unsigned_zero (speed l)).

(** How [JSON.stringify] writes an array element. *)
Definition element (v : Js.value) : Js.value :=
  match Js.serialize v with
  | Some j => j
  | None => Js.Null
  end.

(** How it writes the properties of an object. *)
Definition properties (props : list (string * Js.value))
  : list (string * Js.value) :=
  fold_right (fun kv acc => match Js.serialize (snd kv) with
                            | Some j => (fst kv, j) :: acc
                            | None => acc
                            end) [] props.

(** The properties of a [LocationData] hold numbers or [undefined]. *)
Definition scalar (v : Js.value) : Prop :=
  match v with
  | Js.Undefined | Js.Null | Js.Num _ => True
  | _ => False
  end.

(** The slot and the buffer agree: the slot holds what [JSON.stringify]
    writes for the buffer, or both are still empty. *)
Definition in_step (c : LocationTracker.t) : Prop :=
  LocationTracker.localStorage c = persisted (LocationTracker.locationHistory c)
  \/ (LocationTracker.localStorage c = None
      /\ LocationTracker.locationHistory c = []).

(** ** Scenario data *)

Module Scenario.

Import Navigator.

Definition position (lat lng acc ts : number) : GeolocationPosition :=
  mkPosition (mkCoordinates lat lng acc None None None) ts.

Definition p1 := position 37.5%float (-122.5)%float 5%float 1000%float.
Definition p2 := position 37.625%float (-122.5)%float 5%float 2000%float.
Definition p3 := position 37.75%float (-122.5)%float 5%float 3000%float.
Definition p4 := position 37.875%float (-122.5)%float 5%float 4000%float.

(** A reading with [latitude = 95]. *)
Definition p95 := position 95%float 10%float 5%float 5000%float.

(** A browser with geolocation, no watch yet, and an empty
    [localStorage]. *)
Definition browser : Navigator.t := Navigator.mk true [] 0.

Definition mounted : LocationTracker.t :=
  LocationTracker.mk (UseGeolocation.init browser) [] None.

(** The first events in the life of the component, with [autoStart] off:
    the permission check of the mount effect settles, and the render this
    causes re-runs the auto-start effect. *)
Definition settled : list Lifecycle.event :=
  [Lifecycle.PermissionChecked (Some (Normal granted)); Lifecycle.EffectRerun].

Definition after (es : list Lifecycle.event) : Navigator.t * LocationTracker.t :=
  match Lifecycle.run false (browser, mounted) es with
  | Normal w => w
  | Throw _ => (browser, mounted)
  end.

(** After a click on "Get Current Location": the handler has sent the
    request and the render that follows has run its effects; the answer is
    awaited. *)
Definition requesting : Navigator.t * LocationTracker.t :=
  after (settled ++ [Lifecycle.Handle LocationTracker.ClearError;
                     Lifecycle.RequestSent;
                     Lifecycle.EffectRerun]).

(** Right after a click on "Start Tracking": the handler has returned, the
    effects of the render it causes have not run yet.  This is the state in
    which the cleanup of the auto-start effect finds the hook. *)
Definition tracking_started : Navigator.t * LocationTracker.t :=
  after (settled ++ [Lifecycle.Handle LocationTracker.ClearError;
                     Lifecycle.Handle LocationTracker.StartWatching]).

(** A [Math] object to run [calculateDistance] with.  It has the values
    that the standard prescribes, its sine is odd and its cosine bounded;
    everywhere else it is crude. *)
Definition crude_math : Math.t :=
  Math.mk (fun x => if (abs x <=? 1)%float then x else (x / abs x)%float)
          (fun x => if is_finite x then 1%float else nan)
          (fun y x => if is_nan y || is_nan x then nan else y).

End Scenario.

(** What accepting a delivered position means: it is the current location,
    it has been appended to the history, and the error field is as it
    was. *)
Definition stored_as_delivered (c c' : LocationTracker.t)
           (position : Navigator.GeolocationPosition) : Prop :=
  LocationTracker.locationHistory c'
  = History.append (LocationTracker.locationHistory c)
      (GeolocationService.locationData position)
  /\ UseGeolocation.location (UseGeolocation.state (LocationTracker.hook c'))
     = Some (GeolocationService.locationData position)
  /\ UseGeolocation.error (UseGeolocation.state (LocationTracker.hook c'))
     = UseGeolocation.error (UseGeolocation.state (LocationTracker.hook c)).

(** A sample without the optional readings. *)
Definition sample (lat lng acc ts : number) : LocationData number :=
  mkLocationData lat lng acc ts None None None.

(** ** Accuracy levels *)

(** The four levels of [getAccuracyLevel], best first; any other string
    counts as the worst. *)
Definition severity (level : string) : nat :=
  if (level =? "excellent")%string then 0
  else if (level =? "good")%string then 1
  else if (level =? "fair")%string then 2
  else 3.

(** ** The order of [Math.min] and [Math.max]

    [Math.min] and [Math.max] compare by value and put [-0] below [+0].
    [key] embeds that order in the integers: twice the rank, plus one when
    the sign bit is clear.  [NaN] has no key. *)

Definition sign_bit (x : spec_float) : bool :=
  match x with
  | S754_zero s | S754_infinity s | S754_finite s _ _ => s
  | S754_nan => false
  end.

Definition key (x : number) : option Z :=
  option_map (fun r => 2 * r + (if sign_bit (Prim2SF x) then 0 else 1))
             (Double.rankf x).

(** ** The component over its life *)

(** A host that has handed out every watch id it serves: they are all
    below the next one. *)
Definition fresh_ids (nav : Navigator.t) : bool :=
  forallb (fun w => w <? Navigator.next_watch nav) (Navigator.watches nav).

(** The hook and the host agree about the watch, on a host that started
    as [nav0]: geolocation support is what it was, and the host serves, on
    top of what it served at the start, exactly the watch whose id the
    service holds. *)
Definition watch_agrees (nav0 nav : Navigator.t) (h : UseGeolocation.t) : Prop :=
  Navigator.has_geolocation nav = Navigator.has_geolocation nav0
  /\ UseGeolocation.isSupported (UseGeolocation.state h)
     = Navigator.has_geolocation nav0
  /\ Navigator.next_watch nav0 <= Navigator.next_watch nav
  /\ match GeolocationService.watchId (UseGeolocation.geolocationService h) with
     | Some id =>
         UseGeolocation.isWatching h = true
         /\ Navigator.watches nav = id :: Navigator.watches nav0
         /\ Navigator.next_watch nav0 <= id < Navigator.next_watch nav
     | None =>
         UseGeolocation.isWatching h = false
         /\ Navigator.watches nav = Navigator.watches nav0
     end.

(** An error as the service words it: a code, with the service's message
    for that code or, under code [0], the "not supported" message. *)
Definition worded_by_service (e : GeolocationError) : Prop :=
  exists k, code e = Some k
            /\ (message e = GeolocationService.getErrorMessage k
                \/ (k = 0 /\ message e = GeolocationService.unsupported_message)).

(** The current location is the newest entry of the buffer; while there is
    none, the buffer is what the mount effect loaded ([loaded]) and the
    service has recorded no position. *)
Definition location_is_newest (loaded : list (LocationData number))
           (c : LocationTracker.t) : Prop :=
  match UseGeolocation.location (UseGeolocation.state (LocationTracker.hook c)) with
  | Some l => exists older, LocationTracker.locationHistory c = older ++ [l]
  | None =>
      LocationTracker.locationHistory c = loaded
      /\ UseGeolocation.getLastKnownPosition (LocationTracker.hook c) = None
  end.

(** What every event preserves, for a component mounted on host [nav0]
    with [loaded] in its buffer. *)
Definition well_kept (nav0 : Navigator.t) (loaded : list (LocationData number))
           (w : Navigator.t * LocationTracker.t) : Prop :=
  watch_agrees nav0 (fst w) (LocationTracker.hook (snd w))
  /\ (forall e,
        UseGeolocation.error (UseGeolocation.state (LocationTracker.hook (snd w)))
        = Some e ->
        worded_by_service e)
  /\ location_is_newest loaded (snd w).

(** * Part III: lemmas about the program's building blocks *)

(** ** [slice] *)

Module JsArrayFacts.

Import JsArray.

Lemma slice_neg_length {A : Type} (n : Z) (l : list A) :
  0 < n -> (length (slice (- n) l) <= Z.to_nat n)%nat.
Proof.
  intros Hn. unfold slice.
  destruct (Z.ltb_spec (- n) 0) as [_|]; [|lia].
  rewrite length_skipn. lia.
Qed.

(** What [slice(-n)] keeps, without the index arithmetic. *)
Lemma slice_neg_skipn {A : Type} (n : Z) (l : list A) :
  0 < n -> slice (- n) l = skipn (length l - Z.to_nat n) l.
Proof.
  intros Hn. unfold slice.
  destruct (Z.ltb_spec (- n) 0) as [_|]; [|lia].
  f_equal. lia.
Qed.

Lemma skipn_app_le {A : Type} (d : nat) (l r : list A) :
  (d <= length l)%nat -> skipn d (l ++ r) = skipn d l ++ r.
Proof.
  intros Hd. rewrite skipn_app.
  replace (d - length l)%nat with 0%nat by lia. reflexivity.
Qed.

End JsArrayFacts.

(** ** The history buffer as a window *)

Module WindowFacts.

Import History Window.

Section Buffer.

Context {A : Type}.

Lemma append_skipn (prev : list A) (x : A) :
  append prev x = skipn (length prev + 1 - 100) (prev ++ [x]).
Proof.
  unfold append, JsArray.spread_push.
  rewrite JsArrayFacts.slice_neg_skipn by reflexivity.
  rewrite length_app. reflexivity.
Qed.

Lemma last_n_skipn (n : nat) (l : list A) :
  last_n n l = skipn (length l - n) l.
Proof.
  unfold last_n. now rewrite firstn_rev, rev_involutive.
Qed.

(** The buffer after any run of appends is a suffix of everything that was
    ever in it, in order: nothing is reordered or merged. *)
Lemma append_all_skipn (samples init : list A) :
  exists k, append_all init samples = skipn k (init ++ samples).
Proof.
  revert init. induction samples as [|s samples IH]; intros init.
  - exists 0%nat. simpl. now rewrite app_nil_r.
  - simpl. destruct (IH (append init s)) as [k Hk].
    rewrite Hk, append_skipn.
    exists (k + (length init + 1 - 100))%nat.
    replace (init ++ s :: samples) with ((init ++ [s]) ++ samples)
      by now rewrite <- app_assoc.
    rewrite <- skipn_skipn. f_equal.
    symmetry. apply JsArrayFacts.skipn_app_le.
    rewrite length_app. simpl. lia.
Qed.

Lemma append_length_eq (prev : list A) (x : A) :
  length (append prev x) = Nat.min 100 (length prev + 1).
Proof.
  rewrite append_skipn, length_skipn, length_app. cbn [length]. lia.
Qed.

Lemma append_all_length (samples init : list A) :
  samples <> [] ->
  length (append_all init samples)
  = Nat.min 100 (length init + length samples).
Proof.
  revert init. induction samples as [|s samples IH]; intros init Hne;
    [congruence|].
  change (append_all init (s :: samples))
    with (append_all (append init s) samples).
  destruct samples as [|s' samples].
  - unfold append_all. simpl fold_left. rewrite append_length_eq.
    cbn [length]. lia.
  - rewrite IH by discriminate. rewrite append_length_eq.
    cbn [length]. lia.
Qed.

End Buffer.

End WindowFacts.

(** ** Doubles *)

Module DoubleFacts.

Import Double.

Lemma SF_zero_inv (x : float) (s : bool) :
  Prim2SF x = S754_zero s -> x = (if s then neg_zero else zero).
Proof.
  intros H. rewrite <- (SF2Prim_Prim2SF x), H. destruct s; reflexivity.
Qed.

Lemma SF_nan_inv (x : float) : Prim2SF x = S754_nan -> x = nan.
Proof.
  intros H. rewrite <- (SF2Prim_Prim2SF x), H. reflexivity.
Qed.

Lemma is_nan_spec (x : float) :
  is_nan x = match Prim2SF x with S754_nan => true | _ => false end.
Proof.
  unfold is_nan. rewrite FloatAxioms.eqb_spec. unfold SFeqb, SFcompare.
  destruct (Prim2SF x) as [s|s| |s m e]; try reflexivity.
  - destruct s; reflexivity.
  - destruct s; rewrite Z.compare_refl, Pos.compare_cont_refl; reflexivity.
Qed.

Lemma is_zero_spec (x : float) :
  is_zero x = match Prim2SF x with S754_zero _ => true | _ => false end.
Proof.
  unfold is_zero. rewrite FloatAxioms.eqb_spec.
  change (Prim2SF zero) with (S754_zero false).
  unfold SFeqb, SFcompare.
  destruct (Prim2SF x) as [s|s| |s m e]; try reflexivity; destruct s; reflexivity.
Qed.

(** A zero that is not [-0] is [+0]. *)
Lemma zero_not_neg (x : float) :
  is_zero x = true -> Leibniz.eqb x neg_zero = false -> x = zero.
Proof.
  rewrite is_zero_spec. intros Hz Hn.
  destruct (Prim2SF x) as [s|s| |s m e] eqn:E; try discriminate.
  apply SF_zero_inv in E. destruct s; [|exact E].
  subst x. discriminate Hn.
Qed.

(** *** Mantissa sizes *)

Lemma digits2_pos_bounds (m : positive) :
  2 ^ (Z.pos (digits2_pos m) - 1) <= Z.pos m < 2 ^ Z.pos (digits2_pos m).
Proof.
  induction m as [m IH|m IH|]; cbn [digits2_pos].
  - rewrite Pos2Z.inj_succ.
    replace (Z.succ (Z.pos (digits2_pos m)) - 1)
      with (Z.succ (Z.pos (digits2_pos m) - 1)) by lia.
    rewrite !Z.pow_succ_r by lia. lia.
  - rewrite Pos2Z.inj_succ.
    replace (Z.succ (Z.pos (digits2_pos m)) - 1)
      with (Z.succ (Z.pos (digits2_pos m) - 1)) by lia.
    rewrite !Z.pow_succ_r by lia. lia.
  - simpl. lia.
Qed.

(** What [valid_binary] says about a finite double: the exponent is
    between [-1074] and [971], the mantissa has at most 53 bits, and
    exactly 53 unless the exponent is the least one. *)
Lemma bounded_inv (m : positive) (e : Z) :
  bounded prec emax m e = true ->
  -1074 <= e <= 971
  /\ Z.pos m < 2 ^ 53
  /\ (-1074 < e -> 2 ^ 52 <= Z.pos m).
Proof.
  unfold bounded, canonical_mantissa, fexp, SpecFloat.emin, prec, emax.
  intros H. apply andb_prop in H. destruct H as [Hc He].
  apply Z.eqb_eq in Hc. apply Z.leb_le in He.
  pose proof (digits2_pos_bounds m) as [Hlo Hhi].
  set (d := Z.pos (digits2_pos m)) in *.
  assert (Hd : d <= 53) by lia.
  split; [lia|]. split.
  - apply Z.lt_le_trans with (2 ^ d); [exact Hhi|].
    apply Z.pow_le_mono_r; lia.
  - intros He'. assert (d = 53) by lia.
    replace 52 with (d - 1) by lia. exact Hlo.
Qed.

Lemma rank_finite_bounds (m : positive) (e : Z) :
  bounded prec emax m e = true ->
  0 < Z.pos m * 2 ^ (e + 1074) < 2 ^ 2100.
Proof.
  intros H. destruct (bounded_inv m e H) as [He [Hm _]].
  assert (0 < 2 ^ (e + 1074)) by (apply Z.pow_pos_nonneg; lia).
  split; [lia|].
  apply Z.lt_le_trans with (2 ^ 53 * 2 ^ (e + 1074)).
  - apply Z.mul_lt_mono_pos_r; lia.
  - rewrite <- Z.pow_add_r by lia. apply Z.pow_le_mono_r; lia.
Qed.

Lemma rank_finite_lt (m1 m2 : positive) (e1 e2 : Z) :
  bounded prec emax m1 e1 = true ->
  bounded prec emax m2 e2 = true ->
  e1 < e2 ->
  Z.pos m1 * 2 ^ (e1 + 1074) < Z.pos m2 * 2 ^ (e2 + 1074).
Proof.
  intros H1 H2 He.
  destruct (bounded_inv m1 e1 H1) as [He1 [Hm1 _]].
  destruct (bounded_inv m2 e2 H2) as [He2 [_ Hm2]].
  specialize (Hm2 ltac:(lia)).
  assert (0 < 2 ^ (e1 + 1074)) by (apply Z.pow_pos_nonneg; lia).
  assert (0 < 2 ^ (e2 + 1074)) by (apply Z.pow_pos_nonneg; lia).
  apply Z.lt_le_trans with (2 ^ 53 * 2 ^ (e1 + 1074)).
  - apply Z.mul_lt_mono_pos_r; lia.
  - apply Z.le_trans with (2 ^ 52 * 2 ^ (e2 + 1074)).
    + change (2 ^ 53) with (2 ^ 52 * 2 ^ 1).
      rewrite <- Z.mul_assoc, <- Z.pow_add_r by lia.
      apply Z.mul_le_mono_nonneg_l; [lia|].
      apply Z.pow_le_mono_r; lia.
    + apply Z.mul_le_mono_nonneg_r; lia.
Qed.

Lemma compare_cont_Eq (m1 m2 : positive) :
  Pos.compare_cont Eq m1 m2 = (Z.pos m1 ?= Z.pos m2).
Proof. reflexivity. Qed.

Lemma rank_finite_compare (m1 m2 : positive) (e1 e2 : Z) :
  bounded prec emax m1 e1 = true ->
  bounded prec emax m2 e2 = true ->
  match e1 ?= e2 with
  | Lt => Lt
  | Gt => Gt
  | Eq => Pos.compare_cont Eq m1 m2
  end = (Z.pos m1 * 2 ^ (e1 + 1074) ?= Z.pos m2 * 2 ^ (e2 + 1074)).
Proof.
  intros H1 H2. symmetry.
  destruct (Z.compare_spec e1 e2) as [E|L|G].
  - subst e2. rewrite compare_cont_Eq.
    destruct (bounded_inv m1 e1 H1) as [He1 _].
    assert (0 < 2 ^ (e1 + 1074)) by (apply Z.pow_pos_nonneg; lia).
    destruct (Z.compare_spec (Z.pos m1) (Z.pos m2)) as [E|L|G].
    + rewrite E. apply Z.compare_refl.
    + apply Z.compare_lt_iff. apply Z.mul_lt_mono_pos_r; lia.
    + apply Z.compare_gt_iff. apply Z.mul_lt_mono_pos_r; lia.
  - apply Z.compare_lt_iff. now apply rank_finite_lt.
  - apply Z.compare_gt_iff. now apply rank_finite_lt.
Qed.

(** [SFcompare] on valid doubles is the comparison of ranks. *)
Lemma SFcompare_rank (x y : spec_float) :
  valid_binary x = true -> valid_binary y = true ->
  SFcompare x y = match rank x, rank y with
                  | Some a, Some b => Some (a ?= b)
                  | _, _ => None
                  end.
Proof.
  intros Vx Vy.
  assert (Hinf : 0 < 2 ^ 2100) by reflexivity.
  assert (cmp : forall u v c, (u ?= v) = c -> Some c = Some (u ?= v))
    by (intros; subst; reflexivity).
  destruct x as [sx|sx| |sx mx ex], y as [sy|sy| |sy my ey];
    unfold rank; try reflexivity;
    unfold valid_binary in Vx, Vy;
    try pose proof (rank_finite_bounds mx ex Vx);
    try pose proof (rank_finite_bounds my ey Vy);
    generalize dependent (2 ^ 2100); intros inf; intros.
  - destruct sy; unfold SFcompare, cond_Zopp; apply cmp;
      [apply Z.compare_gt_iff|apply Z.compare_lt_iff]; lia.
  - destruct sy; unfold SFcompare, cond_Zopp; apply cmp;
      [apply Z.compare_gt_iff|apply Z.compare_lt_iff]; lia.
  - destruct sx; unfold SFcompare, cond_Zopp; apply cmp;
      [apply Z.compare_lt_iff|apply Z.compare_gt_iff]; lia.
  - destruct sx, sy; unfold SFcompare, cond_Zopp; apply cmp;
      first [apply Z.compare_eq_iff; reflexivity
            |apply Z.compare_lt_iff; lia|apply Z.compare_gt_iff; lia].
  - destruct sx, sy; unfold SFcompare, cond_Zopp; apply cmp;
      first [apply Z.compare_lt_iff; lia|apply Z.compare_gt_iff; lia].
  - destruct sx; unfold SFcompare, cond_Zopp; apply cmp;
      [apply Z.compare_lt_iff|apply Z.compare_gt_iff]; lia.
  - destruct sx, sy; unfold SFcompare, cond_Zopp; apply cmp;
      first [apply Z.compare_lt_iff; lia|apply Z.compare_gt_iff; lia].
  - destruct sx, sy; unfold SFcompare, cond_Zopp; apply cmp.
    + rewrite Z.compare_opp, Z.compare_antisym.
      rewrite <- (rank_finite_compare mx my ex ey Vx Vy).
      destruct (ex ?= ey); reflexivity.
    + apply Z.compare_lt_iff. lia.
    + apply Z.compare_gt_iff. lia.
    + symmetry. apply rank_finite_compare; assumption.
Qed.

(** *** Doubling and halving

    [x + x] shifts a double one binade up, or doubles the mantissa of a
    subnormal; dividing by two undoes either.  Nothing is rounded. *)

Lemma canonical_cases (m : positive) (e : Z) :
  bounded prec emax m e = true ->
  (Z.pos (digits2_pos m) = 53 /\ -1074 <= e <= 971)
  \/ (Z.pos (digits2_pos m) < 53 /\ e = -1074).
Proof.
  unfold bounded, canonical_mantissa, fexp, SpecFloat.emin, prec, emax.
  intros H. apply andb_prop in H. destruct H as [Hc He].
  apply Z.eqb_eq in Hc. apply Z.leb_le in He. lia.
Qed.

Lemma fexp64 (z : Z) : fexp prec emax z = Z.max (z - 53) (-1074).
Proof. reflexivity. Qed.

Lemma shr_fexp_stay (M : positive) (E : Z) :
  fexp prec emax (Z.pos (digits2_pos M) + E) = E ->
  shr_fexp prec emax (Z.pos M) E loc_Exact
  = (Build_shr_record (Z.pos M) false false, E).
Proof.
  intros H. unfold shr_fexp, Zdigits2. rewrite H, Z.sub_diag. reflexivity.
Qed.

Lemma shr_fexp_halve (m : positive) (E : Z) :
  fexp prec emax (Z.pos (digits2_pos m~0) + E) = E + 1 ->
  shr_fexp prec emax (Z.pos m~0) E loc_Exact
  = (Build_shr_record (Z.pos m) false false, E + 1).
Proof.
  intros H. unfold shr_fexp, Zdigits2. rewrite H.
  replace (E + 1 - E) with 1 by lia. reflexivity.
Qed.

Lemma round_stay (s : bool) (M : positive) (E : Z) :
  fexp prec emax (Z.pos (digits2_pos M) + E) = E -> E <= 971 ->
  binary_round_aux prec emax s (Z.pos M) E loc_Exact = S754_finite s M E.
Proof.
  intros H HE. unfold binary_round_aux.
  rewrite shr_fexp_stay by exact H.
  cbn [shr_m loc_of_shr_record round_nearest_even].
  rewrite shr_fexp_stay by exact H.
  cbn [shr_m].
  replace (E <=? emax - prec) with true; [reflexivity|].
  symmetry. apply Z.leb_le. exact HE.
Qed.

Lemma round_halve (s : bool) (m : positive) (E : Z) :
  fexp prec emax (Z.pos (digits2_pos m~0) + E) = E + 1 ->
  fexp prec emax (Z.pos (digits2_pos m) + (E + 1)) = E + 1 ->
  E + 1 <= 971 ->
  binary_round_aux prec emax s (Z.pos m~0) E loc_Exact
  = S754_finite s m (E + 1).
Proof.
  intros H1 H2 HE. unfold binary_round_aux.
  rewrite shr_fexp_halve by exact H1.
  cbn [shr_m loc_of_shr_record round_nearest_even].
  rewrite shr_fexp_stay by exact H2.
  cbn [shr_m].
  replace (E + 1 <=? emax - prec) with true; [reflexivity|].
  symmetry. apply Z.leb_le. exact HE.
Qed.

Lemma div_eucl_exact (q b : Z) : 0 < b -> Z.div_eucl (q * b) b = (q, 0).
Proof.
  intros Hb.
  assert (E : Z.div_eucl (q * b) b = ((q * b) / b, (q * b) mod b)).
  { unfold Z.div, Z.modulo. now destruct (Z.div_eucl (q * b) b). }
  rewrite E, Z.div_mul, Z.mod_mul by lia. reflexivity.
Qed.

Lemma SFadd_diag (s : bool) (m : positive) (e : Z) :
  bounded prec emax m e = true -> e < 971 ->
  SFadd prec emax (S754_finite s m e) (S754_finite s m e)
  = if Z.pos (digits2_pos m) =? 53 then S754_finite s m (e + 1)
    else S754_finite s m~0 e.
Proof.
  intros Hb He. unfold SFadd. rewrite Z.min_id.
  unfold shl_align at 1 2. rewrite Z.sub_diag. cbn [fst].
  assert (Hsum : cond_Zopp s (Z.pos m) + cond_Zopp s (Z.pos m)
                 = cond_Zopp s (Z.pos m~0)).
  { destruct s; unfold cond_Zopp; lia. }
  rewrite Hsum.
  assert (Hnorm : binary_normalize prec emax (cond_Zopp s (Z.pos m~0)) e false
                  = binary_round prec emax s m~0 e)
    by (destruct s; reflexivity).
  rewrite Hnorm. unfold binary_round.
  destruct (canonical_cases m e Hb) as [[Hd Hr]|[Hd Hr]].
  - rewrite Hd. cbn [Z.eqb Pos.eqb].
    assert (Hf : fexp prec emax (Z.pos (digits2_pos m~0) + e) = e + 1).
    { cbn [digits2_pos]. rewrite Pos2Z.inj_succ, Hd, fexp64. lia. }
    rewrite Hf. unfold shl_align. replace (e + 1 - e) with 1 by lia.
    cbv beta iota.
    apply round_halve; [exact Hf| |lia].
    rewrite Hd, fexp64. lia.
  - replace (Z.pos (digits2_pos m) =? 53) with false
      by (symmetry; apply Z.eqb_neq; lia).
    assert (Hf : fexp prec emax (Z.pos (digits2_pos m~0) + e) = e).
    { cbn [digits2_pos]. rewrite Pos2Z.inj_succ, fexp64. lia. }
    rewrite Hf. unfold shl_align. rewrite Z.sub_diag. cbv beta iota.
    apply round_stay; [exact Hf|lia].
Qed.

Lemma SFdiv_two_normal (s : bool) (m : positive) (e : Z) :
  Z.pos (digits2_pos m) = 53 -> -1074 <= e < 971 ->
  SFdiv prec emax (S754_finite s m (e + 1)) (S754_finite false two_m (-51))
  = S754_finite s m e.
Proof.
  intros Hd He. unfold SFdiv, SFdiv_core_binary, Zdigits2.
  change (Z.pos (digits2_pos two_m)) with 53. rewrite Hd, xorb_false_r.
  destruct (Z.eq_dec e (-1074)) as [E|N].
  - subst e.
    change (Z.min (fexp prec emax (53 + (-1074 + 1) - (53 + -51)))
              (-1074 + 1 - -51)) with (-1074).
    change (-1074 + 1 - -51 - -1074) with 52.
    cbv beta iota. rewrite Z.shiftl_mul_pow2 by lia.
    change (2 ^ 52) with (Z.pos two_m).
    rewrite div_eucl_exact by reflexivity.
    change (new_location (Z.pos two_m) 0) with loc_Exact.
    apply round_stay; [rewrite Hd; reflexivity|lia].
  - assert (He' : Z.min (fexp prec emax (53 + (e + 1) - (53 + -51)))
                    (e + 1 - -51) = e - 1) by (rewrite fexp64; lia).
    rewrite He'. replace (e + 1 - -51 - (e - 1)) with 53 by lia.
    cbv beta iota. rewrite Z.shiftl_mul_pow2 by lia.
    replace (Z.pos m * 2 ^ 53) with (Z.pos m~0 * Z.pos two_m)
      by (change (2 ^ 53) with (2 * Z.pos two_m); lia).
    rewrite div_eucl_exact by reflexivity.
    change (new_location (Z.pos two_m) 0) with loc_Exact.
    replace e with (e - 1 + 1) at 2 by lia.
    apply round_halve.
    + cbn [digits2_pos]. rewrite Pos2Z.inj_succ, Hd, fexp64. lia.
    + rewrite Hd, fexp64. lia.
    + lia.
Qed.

Lemma SFdiv_two_subnormal (s : bool) (m : positive) :
  Z.pos (digits2_pos m) < 53 ->
  SFdiv prec emax (S754_finite s m~0 (-1074)) (S754_finite false two_m (-51))
  = S754_finite s m (-1074).
Proof.
  intros Hd. unfold SFdiv, SFdiv_core_binary, Zdigits2.
  change (Z.pos (digits2_pos two_m)) with 53. rewrite xorb_false_r.
  pose proof (Pos2Z.is_pos (digits2_pos m)) as Hp.
  assert (He' : Z.min (fexp prec emax (Z.pos (digits2_pos m~0) + -1074
                                       - (53 + -51)))
                  (-1074 - -51) = -1074).
  { cbn [digits2_pos]. rewrite Pos2Z.inj_succ, fexp64. lia. }
  rewrite He'. change (-1074 - -51 - -1074) with 51.
  cbv beta iota. rewrite Z.shiftl_mul_pow2 by lia.
  replace (Z.pos m~0 * 2 ^ 51) with (Z.pos m * Z.pos two_m)
    by (change (Z.pos two_m) with (2 * 2 ^ 51); lia).
  rewrite div_eucl_exact by reflexivity.
  change (new_location (Z.pos two_m) 0) with loc_Exact.
  apply round_stay; [rewrite fexp64; lia|lia].
Qed.

(** On valid doubles below the top binade, [(x + x) / 2] is [x]. *)
Lemma SF_double_half (x : spec_float) :
  valid_binary x = true ->
  (forall s m e, x = S754_finite s m e -> e < 971) ->
  SF64div (SF64add x x) (S754_finite false two_m (-51)) = x.
Proof.
  intros V He. unfold SF64div, SF64add.
  destruct x as [s|s| |s m e].
  - destruct s; reflexivity.
  - destruct s; reflexivity.
  - reflexivity.
  - specialize (He s m e eq_refl). unfold valid_binary in V.
    rewrite (SFadd_diag s m e V He).
    destruct (canonical_cases m e V) as [[Hd Hr]|[Hd Hr]].
    + rewrite Hd. cbn [Z.eqb Pos.eqb].
      apply SFdiv_two_normal; [exact Hd|lia].
    + replace (Z.pos (digits2_pos m) =? 53) with false
        by (symmetry; apply Z.eqb_neq; lia).
      subst e. apply SFdiv_two_subnormal. exact Hd.
Qed.

Lemma Some_inj {A : Type} (a b : A) : Some a = Some b -> a = b.
Proof. congruence. Qed.

(** *** The same facts on primitive doubles *)

Lemma is_nan_rank (x : float) :
  is_nan x = match rankf x with None => true | Some _ => false end.
Proof.
  rewrite is_nan_spec. unfold rankf.
  destruct (Prim2SF x); reflexivity.
Qed.

Lemma leb_rank (x y : float) :
  (x <=? y)%float = match rankf x, rankf y with
                    | Some a, Some b => a <=? b
                    | _, _ => false
                    end.
Proof.
  rewrite leb_spec. unfold SFleb, rankf.
  rewrite SFcompare_rank by apply Prim2SF_valid.
  destruct (rank (Prim2SF x)), (rank (Prim2SF y)); reflexivity.
Qed.

Lemma ltb_rank (x y : float) :
  (x <? y)%float = match rankf x, rankf y with
                   | Some a, Some b => a <? b
                   | _, _ => false
                   end.
Proof.
  rewrite ltb_spec. unfold SFltb, rankf.
  rewrite SFcompare_rank by apply Prim2SF_valid.
  destruct (rank (Prim2SF x)), (rank (Prim2SF y)); reflexivity.
Qed.

(** A double whose rank is strictly inside the infinities is finite, and
    its exact value is the rank in units of [2^-1074]. *)
Lemma exact_of_rank (x : float) (a : Z) :
  rankf x = Some a -> - 2 ^ 2100 < a < 2 ^ 2100 ->
  exact x = Some (Qmake a unit_den).
Proof.
  unfold rankf, rank, exact.
  destruct (Prim2SF x) as [s|s| |s m e]; try discriminate;
    intros E; apply Some_inj in E; subst; try reflexivity.
  destruct s; unfold cond_Zopp; lia.
Qed.

Lemma rank_of_exact (x : float) (q : Q) :
  exact x = Some q ->
  exists a, rankf x = Some a /\ q = Qmake a unit_den
            /\ - 2 ^ 2100 < a < 2 ^ 2100.
Proof.
  unfold rankf, rank, exact. pose proof (Prim2SF_valid x) as V.
  assert (Hinf : 0 < 2 ^ 2100) by reflexivity.
  destruct (Prim2SF x) as [s|s| |s m e]; try discriminate;
    intros E; apply Some_inj in E; subst.
  - exists 0. repeat split; lia.
  - eexists. split; [reflexivity|]. split; [reflexivity|].
    pose proof (rank_finite_bounds m e V).
    destruct s; unfold cond_Zopp; lia.
Qed.

(** Comparing an exact value with a whole number of degrees. *)
Lemma Qle_unit_l (n a : Z) :
  (inject_Z n <= Qmake a unit_den)%Q <-> n * 2 ^ 1074 <= a.
Proof.
  unfold Qle, inject_Z. cbn [Qnum Qden].
  change (Z.pos unit_den) with (2 ^ 1074). lia.
Qed.

Lemma Qle_unit_r (n a : Z) :
  (Qmake a unit_den <= inject_Z n)%Q <-> a <= n * 2 ^ 1074.
Proof.
  unfold Qle, inject_Z. cbn [Qnum Qden].
  change (Z.pos unit_den) with (2 ^ 1074). lia.
Qed.

(** *** Signs

    The sign of a product, of a quotient and of a difference is computed
    apart from its magnitude: negating an operand negates the result. *)

Lemma is_infinity_spec (x : float) :
  is_infinity x = match Prim2SF x with S754_infinity _ => true | _ => false end.
Proof.
  unfold is_infinity. rewrite FloatAxioms.eqb_spec, abs_spec.
  change (Prim2SF infinity) with (S754_infinity false).
  unfold SFeqb, SFcompare.
  destruct (Prim2SF x) as [s|s| |s m e]; reflexivity.
Qed.

Lemma is_finite_spec (x : float) :
  is_finite x = match Prim2SF x with
                | S754_zero _ | S754_finite _ _ _ => true
                | _ => false
                end.
Proof.
  unfold is_finite. rewrite is_nan_spec, is_infinity_spec.
  destruct (Prim2SF x); reflexivity.
Qed.

Lemma round_aux_opp (s : bool) (m e : Z) (l : location) :
  binary_round_aux prec emax (negb s) m e l
  = SFopp (binary_round_aux prec emax s m e l).
Proof.
  unfold binary_round_aux.
  destruct (shr_fexp prec emax m e l) as [mrs e'].
  destruct (shr_fexp prec emax _ e' loc_Exact) as [mrs' e''].
  destruct (shr_m mrs') as [|p|p]; cbn [SFopp]; try reflexivity.
  destruct (e'' <=? emax - prec); reflexivity.
Qed.

Lemma round_opp (s : bool) (m : positive) (e : Z) :
  binary_round prec emax (negb s) m e = SFopp (binary_round prec emax s m e).
Proof.
  unfold binary_round.
  destruct (shl_align m e _) as [mz ez]. apply round_aux_opp.
Qed.

Lemma normalize_opp (z e : Z) :
  z <> 0 ->
  binary_normalize prec emax (- z) e false
  = SFopp (binary_normalize prec emax z e false).
Proof.
  intros Hz. destruct z as [|p|p]; [congruence| |]; cbn [Z.opp binary_normalize].
  - apply (round_opp false).
  - apply (round_opp true).
Qed.

Lemma SFopp_involutive (x : spec_float) : SFopp (SFopp x) = x.
Proof. destruct x as [s|s| |s m e]; cbn; rewrite ?negb_involutive; reflexivity. Qed.

Lemma SFmul_opp_l (x y : spec_float) :
  SFmul prec emax (SFopp x) y = SFopp (SFmul prec emax x y).
Proof.
  destruct x as [sx|sx| |sx mx ex], y as [sy|sy| |sy my ey];
    cbn [SFmul SFopp]; try reflexivity;
    try (destruct sx, sy; reflexivity).
  rewrite <- round_aux_opp. destruct sx, sy; reflexivity.
Qed.

Lemma SFmul_comm (x y : spec_float) :
  SFmul prec emax x y = SFmul prec emax y x.
Proof.
  destruct x as [sx|sx| |sx mx ex], y as [sy|sy| |sy my ey];
    cbn [SFmul]; try reflexivity; try (destruct sx, sy; reflexivity).
  rewrite Pos.mul_comm, Z.add_comm, xorb_comm. reflexivity.
Qed.

Lemma SFdiv_opp_l (x y : spec_float) :
  SFdiv prec emax (SFopp x) y = SFopp (SFdiv prec emax x y).
Proof.
  destruct x as [sx|sx| |sx mx ex], y as [sy|sy| |sy my ey];
    cbn [SFdiv SFopp]; try reflexivity;
    try (destruct sx, sy; reflexivity).
  destruct (SFdiv_core_binary prec emax (Z.pos mx) ex (Z.pos my) ey)
    as [[mz ez] lz].
  rewrite <- round_aux_opp. destruct sx, sy; reflexivity.
Qed.

Lemma SFsub_flip (x y : spec_float) :
  SFsub prec emax y x = SFopp (SFsub prec emax x y)
  \/ (SFsub prec emax x y = S754_zero false
      /\ SFsub prec emax y x = S754_zero false).
Proof.
  destruct x as [sx|sx| |sx mx ex], y as [sy|sy| |sy my ey];
    cbn [SFsub SFopp];
    try (left; reflexivity);
    try (destruct sx, sy; cbn; auto; fail).
  rewrite (Z.min_comm ey ex).
  set (a := cond_Zopp sx (Z.pos (fst (shl_align mx ex (Z.min ex ey))))).
  set (b := cond_Zopp sy (Z.pos (fst (shl_align my ey (Z.min ex ey))))).
  destruct (Z.eq_dec (a - b) 0) as [E|N].
  - right. rewrite E. replace (b - a) with 0 by lia. split; reflexivity.
  - left. replace (b - a) with (- (a - b)) by lia.
    apply normalize_opp. exact N.
Qed.

Lemma SFsub_diag (x : spec_float) :
  match x with S754_zero _ | S754_finite _ _ _ => True | _ => False end ->
  SFsub prec emax x x = S754_zero false.
Proof.
  destruct x as [s|s| |s m e]; try contradiction; intros _; cbn [SFsub].
  - destruct s; reflexivity.
  - rewrite Z.sub_diag. reflexivity.
Qed.

(** On primitive doubles: *)

Lemma opp_involutive (x : float) : (- - x)%float = x.
Proof. apply Prim2SF_inj. rewrite !opp_spec. apply SFopp_involutive. Qed.

Lemma mul_opp_l (x y : float) : (- x * y)%float = (- (x * y))%float.
Proof.
  apply Prim2SF_inj. rewrite mul_spec, !opp_spec, mul_spec. apply SFmul_opp_l.
Qed.

Lemma mul_comm (x y : float) : (x * y)%float = (y * x)%float.
Proof. apply Prim2SF_inj. rewrite !mul_spec. apply SFmul_comm. Qed.

Lemma mul_opp_r (x y : float) : (x * - y)%float = (- (x * y))%float.
Proof. rewrite (mul_comm x), mul_opp_l, (mul_comm y). reflexivity. Qed.

Lemma div_opp_l (x y : float) : (- x / y)%float = (- (x / y))%float.
Proof.
  apply Prim2SF_inj. rewrite div_spec, !opp_spec, div_spec. apply SFdiv_opp_l.
Qed.

Lemma sub_flip (x y : float) :
  (y - x)%float = (- (x - y))%float
  \/ ((x - y)%float = 0%float /\ (y - x)%float = 0%float).
Proof.
  destruct (SFsub_flip (Prim2SF x) (Prim2SF y)) as [H|[H1 H2]].
  - left. apply Prim2SF_inj. rewrite opp_spec, !sub_spec. exact H.
  - right. split; apply Prim2SF_inj; rewrite sub_spec; assumption.
Qed.

Lemma sub_diag (x : float) : is_finite x = true -> (x - x)%float = 0%float.
Proof.
  rewrite is_finite_spec. intros H.
  apply Prim2SF_inj. rewrite sub_spec. apply SFsub_diag.
  destruct (Prim2SF x); try discriminate; exact I.
Qed.

(** *** Products that cannot overflow *)

Lemma digits2_le (m : positive) (k : Z) :
  Z.pos m < 2 ^ k -> Z.pos (digits2_pos m) <= k.
Proof.
  intros H. pose proof (digits2_pos_bounds m) as [Hlo _].
  destruct (Z.le_gt_cases (Z.pos (digits2_pos m)) k) as [L|G]; [exact L|].
  exfalso.
  assert (0 <= k).
  { destruct (Z.le_gt_cases 0 k); [assumption|].
    rewrite Z.pow_neg_r in H by lia. lia. }
  assert (2 ^ k <= 2 ^ (Z.pos (digits2_pos m) - 1))
    by (apply Z.pow_le_mono_r; lia).
  lia.
Qed.

Lemma shr_1_m (mrs : shr_record) :
  0 <= shr_m mrs -> shr_m (shr_1 mrs) = shr_m mrs / 2.
Proof.
  destruct mrs as [m r s]. cbn [shr_m]. intros H.
  destruct m as [|[p|p|]|p]; cbn [shr_1 shr_m]; try lia.
  - reflexivity.
  - rewrite Pos2Z.inj_xI. apply Z.div_unique with 1; lia.
  - rewrite Pos2Z.inj_xO. apply Z.div_unique with 0; lia.
  - reflexivity.
Qed.

Lemma iter_shr_m (p : positive) (mrs : shr_record) :
  0 <= shr_m mrs ->
  shr_m (SpecFloat.iter_pos shr_1 p mrs) = shr_m mrs / 2 ^ Z.pos p.
Proof.
  revert mrs. induction p as [p IH|p IH|]; intros mrs H; cbn [SpecFloat.iter_pos].
  - assert (H1 : 0 <= shr_m (shr_1 mrs))
      by (rewrite shr_1_m by exact H; apply Z.div_pos; lia).
    assert (H2 : 0 <= shr_m (SpecFloat.iter_pos shr_1 p (shr_1 mrs)))
      by (rewrite IH by exact H1; apply Z.div_pos; lia).
    rewrite IH, IH, shr_1_m by assumption.
    rewrite !Z.div_div by lia.
    f_equal. change 2 with (2 ^ 1) at 1.
    rewrite <- !Z.pow_add_r by lia. f_equal. lia.
  - assert (H2 : 0 <= shr_m (SpecFloat.iter_pos shr_1 p mrs))
      by (rewrite IH by exact H; apply Z.div_pos; lia).
    rewrite IH, IH by assumption.
    rewrite !Z.div_div by lia.
    f_equal. rewrite <- Z.pow_add_r by lia. f_equal. lia.
  - rewrite shr_1_m by exact H. reflexivity.
Qed.

(** A shift to the canonical exponent leaves at most 53 bits. *)

Lemma shr_fexp_bounds (m e : Z) (l : location) (b : Z) :
  0 <= m < 2 ^ b -> 53 <= b ->
  0 <= shr_m (fst (shr_fexp prec emax m e l)) < 2 ^ 53
  /\ snd (shr_fexp prec emax m e l) <= Z.max e (Z.max (b + e - 53) (-1074)).
Proof.
  intros [H0 Hb] Hb53. unfold shr_fexp, shr.
  assert (Hm : shr_m (shr_record_of_loc m l) = m)
    by (destruct l as [|[| |]]; reflexivity).
  assert (Hd : 0 <= Zdigits2 m <= b /\ m < 2 ^ Zdigits2 m).
  { destruct m as [|p|p]; cbn [Zdigits2]; [split; [lia|reflexivity]| |lia].
    pose proof (digits2_pos_bounds p). pose proof (digits2_le p b Hb).
    split; lia. }
  destruct Hd as [[Hd0 Hdb] Hdm].
  rewrite fexp64.
  destruct (Z.max (Zdigits2 m + e - 53) (-1074) - e) as [|p|p] eqn:En;
    cbn [fst snd].
  - rewrite Hm. split; [|lia]. split; [lia|].
    apply Z.lt_le_trans with (2 ^ Zdigits2 m); [exact Hdm|].
    apply Z.pow_le_mono_r; lia.
  - rewrite iter_shr_m by (rewrite Hm; lia). rewrite Hm. split; [|lia].
    split; [apply Z.div_pos; lia|].
    apply Z.div_lt_upper_bound; [lia|].
    apply Z.lt_le_trans with (2 ^ Zdigits2 m); [exact Hdm|].
    rewrite <- Z.pow_add_r by lia. apply Z.pow_le_mono_r; lia.
  - rewrite Hm. split; [|lia]. split; [lia|].
    apply Z.lt_le_trans with (2 ^ Zdigits2 m); [exact Hdm|].
    apply Z.pow_le_mono_r; lia.
Qed.

Lemma round_nearest_even_bounds (m : Z) (l : location) :
  m <= round_nearest_even m l <= m + 1.
Proof.
  unfold round_nearest_even.
  destruct l as [|[| |]]; try lia. destruct (Z.even m); lia.
Qed.

(** Rounding a mantissa of at most [b] bits at an exponent of at most
    [1023 - b]: the result is a zero or a finite double of the same sign. *)

Lemma round_aux_finite (s : bool) (m e b : Z) (l : location) :
  0 <= m < 2 ^ b -> 53 <= b -> b + e <= 1023 ->
  match binary_round_aux prec emax s m e l with
  | S754_zero s' | S754_finite s' _ _ => s' = s
  | _ => False
  end.
Proof.
  intros Hm Hb He. unfold binary_round_aux.
  pose proof (shr_fexp_bounds m e l b Hm Hb) as [H1 E1].
  destruct (shr_fexp prec emax m e l) as [mrs e']. cbn [fst snd] in H1, E1.
  pose proof (round_nearest_even_bounds (shr_m mrs) (loc_of_shr_record mrs)) as Hr.
  set (m2 := round_nearest_even (shr_m mrs) (loc_of_shr_record mrs)) in *.
  assert (Hm2 : 0 <= m2 < 2 ^ 54).
  { change (2 ^ 54) with (2 ^ 53 + 2 ^ 53). lia. }
  pose proof (shr_fexp_bounds m2 e' loc_Exact 54 Hm2 ltac:(lia)) as [H2 E2].
  destruct (shr_fexp prec emax m2 e' loc_Exact) as [mrs' e''].
  cbn [fst snd] in H2, E2.
  destruct (shr_m mrs') as [|p|p]; [reflexivity| |lia].
  replace (e'' <=? emax - prec) with true; [reflexivity|].
  symmetry. apply Z.leb_le. change (emax - prec) with 971. lia.
Qed.

Lemma SFmul_finite (x y : spec_float) (sx sy : bool) (kx ky : Z) :
  valid_binary x = true -> valid_binary y = true ->
  finite_with sx x -> finite_with sy y ->
  exponent_le kx x -> exponent_le ky y -> kx + ky <= 917 ->
  finite_with (xorb sx sy) (SFmul prec emax x y).
Proof.
  intros Vx Vy Fx Fy Ex Ey Hk.
  destruct x as [s1|s1| |s1 m1 e1], y as [s2|s2| |s2 m2 e2];
    cbn [finite_with] in Fx, Fy; try contradiction; subst;
    cbn [SFmul finite_with]; try reflexivity.
  cbn [valid_binary] in Vx, Vy. cbn [exponent_le] in Ex, Ey.
  destruct (bounded_inv m1 e1 Vx) as [_ [H1 _]].
  destruct (bounded_inv m2 e2 Vy) as [_ [H2 _]].
  apply (round_aux_finite (xorb sx sy) (Z.pos (m1 * m2)) (e1 + e2) 106);
    [|lia|lia].
  split; [lia|]. rewrite Pos2Z.inj_mul.
  change (2 ^ 106) with (2 ^ 53 * 2 ^ 53).
  apply Z.mul_lt_mono_nonneg; lia.
Qed.

Lemma is_finite_with (x : float) :
  is_finite x = true <-> exists s, finite_with s (Prim2SF x).
Proof.
  rewrite is_finite_spec.
  destruct (Prim2SF x) as [s|s| |s m e]; cbn [finite_with]; split;
    try discriminate; try (intros [s' []]); eauto.
Qed.

(** Multiplying a finite double by a constant whose exponent is at most
    [-54] (a constant below [1/2]) gives a finite double. *)

Lemma mul_small_finite (x k : float) (s : bool) (m : positive) (e : Z) :
  Prim2SF k = S754_finite s m e -> e <= -54 ->
  is_finite x = true -> is_finite (x * k)%float = true.
Proof.
  intros Hk He Hx. apply is_finite_with in Hx. destruct Hx as [sx Fx].
  apply is_finite_with. exists (xorb sx s). rewrite mul_spec.
  apply (SFmul_finite _ _ sx s 971 e).
  - apply Prim2SF_valid.
  - apply Prim2SF_valid.
  - exact Fx.
  - rewrite Hk. reflexivity.
  - pose proof (Prim2SF_valid x) as V.
    destruct (Prim2SF x) as [s1|s1| |s1 m1 e1]; cbn [exponent_le]; auto.
    cbn [valid_binary] in V. destruct (bounded_inv m1 e1 V) as [? _]. lia.
  - rewrite Hk. cbn [exponent_le]. lia.
  - lia.
Qed.

(** The square of a double between [-1] and [1], times zero, is [+0]. *)

Lemma square_times_zero (c : float) :
  (abs c <=? 1)%float = true -> (c * c * 0)%float = 0%float.
Proof.
  intros H. rewrite leb_spec, abs_spec in H.
  change (Prim2SF 1) with (S754_finite false 4503599627370496 (-52)) in H.
  assert (F : exists s, finite_with s (Prim2SF c) /\ exponent_le (-52) (Prim2SF c)).
  { unfold SFleb, SFcompare in H.
    destruct (Prim2SF c) as [s|s| |s m e]; cbn [SFabs] in H;
      try discriminate.
    - exists s. split; [reflexivity|exact I].
    - exists s. split; [reflexivity|]. cbn [exponent_le].
      destruct (Z.compare_spec e (-52)); first [lia|discriminate H]. }
  destruct F as [s [Fc Ec]].
  pose proof (SFmul_finite _ _ s s (-52) (-52) (Prim2SF_valid c) (Prim2SF_valid c)
                Fc Fc Ec Ec ltac:(lia)) as Fsq.
  rewrite xorb_nilpotent in Fsq.
  apply Prim2SF_inj. rewrite !mul_spec.
  change (Prim2SF 0) with (S754_zero false). unfold SF64mul.
  destruct (SFmul prec emax (Prim2SF c) (Prim2SF c)) as [s'|s'| |s' m' e'];
    cbn [finite_with] in Fsq; try contradiction; subst s'; reflexivity.
Qed.

(** *** Operands that are not finite *)

Lemma is_finite_false (x : float) :
  is_finite x = false <-> not_finite (Prim2SF x).
Proof.
  rewrite is_finite_spec.
  destruct (Prim2SF x); cbn [not_finite]; split; intros H;
    try discriminate; try contradiction; auto.
Qed.

Lemma sub_not_finite (x y : float) :
  is_finite x && is_finite y = false -> is_finite (y - x)%float = false.
Proof.
  intros H. apply is_finite_false. rewrite sub_spec.
  assert (N : not_finite (Prim2SF x) \/ not_finite (Prim2SF y)).
  { apply andb_false_iff in H. destruct H as [H|H];
      apply is_finite_false in H; auto. }
  unfold SF64sub.
  destruct (Prim2SF x) as [sx|sx| |sx mx ex], (Prim2SF y) as [sy|sy| |sy my ey];
    cbn [not_finite] in N; cbn [SFsub not_finite];
    try tauto; destruct sx, sy; exact I.
Qed.

Lemma mul_not_finite (x k : float) (s : bool) (m : positive) (e : Z) :
  Prim2SF k = S754_finite s m e ->
  is_finite x = false -> is_finite (x * k)%float = false.
Proof.
  intros Hk H. apply is_finite_false in H. apply is_finite_false.
  rewrite mul_spec, Hk. unfold SF64mul.
  destruct (Prim2SF x); cbn [not_finite] in H; try contradiction; exact I.
Qed.

Lemma div_not_finite (x k : float) (s : bool) (m : positive) (e : Z) :
  Prim2SF k = S754_finite s m e ->
  is_finite x = false -> is_finite (x / k)%float = false.
Proof.
  intros Hk H. apply is_finite_false in H. apply is_finite_false.
  rewrite div_spec, Hk. unfold SF64div.
  destruct (Prim2SF x); cbn [not_finite] in H; try contradiction; exact I.
Qed.

Lemma not_finite_cases (x : float) :
  is_finite x = false -> x = nan \/ x = infinity \/ x = neg_infinity.
Proof.
  intros H. apply is_finite_false in H.
  rewrite <- (SF2Prim_Prim2SF x).
  destruct (Prim2SF x) as [s|s| |s m e]; cbn [not_finite] in H;
    try contradiction; [destruct s|]; auto.
Qed.

Lemma mul_nan_r (x : float) : (x * nan)%float = nan.
Proof.
  apply Prim2SF_inj. rewrite mul_spec.
  change (Prim2SF nan) with S754_nan. unfold SF64mul.
  destruct (Prim2SF x); reflexivity.
Qed.

Lemma add_nan_l (x : float) : (nan + x)%float = nan.
Proof. apply Prim2SF_inj. rewrite add_spec. reflexivity. Qed.

Lemma add_nan_r (x : float) : (x + nan)%float = nan.
Proof.
  apply Prim2SF_inj. rewrite add_spec.
  change (Prim2SF nan) with S754_nan. unfold SF64add.
  destruct (Prim2SF x); reflexivity.
Qed.

(** *** Differences that cannot vanish *)

Lemma shr_fexp_positive (m e : Z) (l : location) :
  0 < m -> -1074 <= e ->
  0 < shr_m (fst (shr_fexp prec emax m e l))
  /\ -1074 <= snd (shr_fexp prec emax m e l).
Proof.
  intros Hm He. unfold shr_fexp, shr.
  assert (Hr : shr_m (shr_record_of_loc m l) = m)
    by (destruct l as [|[| |]]; reflexivity).
  destruct m as [|p|p]; try lia. cbn [Zdigits2].
  pose proof (digits2_pos_bounds p) as [Hlo Hhi].
  rewrite fexp64.
  destruct (Z.max (Z.pos (digits2_pos p) + e - 53) (-1074) - e) as [|q|q] eqn:En;
    cbn [fst snd]; rewrite ?Hr; try lia.
  rewrite iter_shr_m by (rewrite Hr; lia). rewrite Hr. split; [|lia].
  assert (Eq : Z.pos q = Z.pos (digits2_pos p) - 53) by lia.
  apply Z.lt_le_trans with (2 ^ 52); [reflexivity|].
  apply Z.div_le_lower_bound; [lia|].
  rewrite <- Z.pow_add_r by lia.
  replace (Z.pos q + 52) with (Z.pos (digits2_pos p) - 1) by lia.
  exact Hlo.
Qed.

Lemma round_aux_nonzero (s : bool) (m e : Z) (l : location) :
  0 < m -> -1074 <= e ->
  nonzero_with s (binary_round_aux prec emax s m e l).
Proof.
  intros Hm He. unfold binary_round_aux.
  pose proof (shr_fexp_positive m e l Hm He) as [H1 E1].
  destruct (shr_fexp prec emax m e l) as [mrs e']. cbn [fst snd] in H1, E1.
  pose proof (round_nearest_even_bounds (shr_m mrs) (loc_of_shr_record mrs)) as Hr.
  set (m2 := round_nearest_even (shr_m mrs) (loc_of_shr_record mrs)) in *.
  pose proof (shr_fexp_positive m2 e' loc_Exact ltac:(lia) E1) as [H2 _].
  destruct (shr_fexp prec emax m2 e' loc_Exact) as [mrs' e''].
  cbn [fst snd] in H2.
  destruct (shr_m mrs') as [|p|p]; try lia.
  destruct (e'' <=? emax - prec); reflexivity.
Qed.

Lemma round_nonzero (s : bool) (m : positive) (e : Z) :
  -1074 <= e -> nonzero_with s (binary_round prec emax s m e).
Proof.
  intros He. unfold binary_round.
  destruct (shl_align m e (fexp prec emax (Z.pos (digits2_pos m) + e)))
    as [mz ez] eqn:E.
  apply round_aux_nonzero; [lia|].
  unfold shl_align in E. rewrite fexp64 in E.
  destruct (Z.max (Z.pos (digits2_pos m) + e - 53) (-1074) - e) as [|d|d] eqn:Ed;
    inversion E; subst; lia.
Qed.

(** A difference of aligned mantissas that is negative gives a negative
    double, never a zero. *)

Lemma normalize_negative (z e : Z) :
  z < 0 -> -1074 <= e ->
  nonzero_with true (binary_normalize prec emax z e false).
Proof.
  intros Hz He. destruct z as [|p|p]; try lia. cbn [binary_normalize].
  apply round_nonzero. exact He.
Qed.

Lemma iter_xO_ge (d m : positive) : 2 * Z.pos m <= Z.pos (Pos.iter xO m d).
Proof.
  induction d as [|d IH] using Pos.peano_ind.
  - cbn [Pos.iter]. lia.
  - rewrite Pos.iter_succ. lia.
Qed.

Lemma sqrt_negative (x : float) :
  nonzero_with true (Prim2SF x) -> sqrt x = nan.
Proof.
  intros H. apply Prim2SF_inj. rewrite sqrt_spec. unfold SF64sqrt.
  destruct (Prim2SF x) as [s|s| |s m e]; cbn [nonzero_with] in H;
    try contradiction; subst s; reflexivity.
Qed.

Lemma below_zero (a : float) :
  (a <? 0)%float = true -> nonzero_with true (Prim2SF a).
Proof.
  rewrite ltb_spec. change (Prim2SF 0) with (S754_zero false).
  unfold SFltb, SFcompare.
  destruct (Prim2SF a) as [s|s| |s m e]; try discriminate;
    destruct s; try discriminate; reflexivity.
Qed.

Lemma one_minus_above (a : float) :
  (1 <? a)%float = true -> nonzero_with true (Prim2SF (1 - a)%float).
Proof.
  rewrite ltb_spec, sub_spec. pose proof (Prim2SF_valid a) as V.
  change (Prim2SF 1) with (S754_finite false 4503599627370496 (-52)).
  unfold SFltb, SFcompare, SF64sub.
  destruct (Prim2SF a) as [s|s| |s m e]; try discriminate.
  - destruct s; try discriminate. reflexivity.
  - destruct s; try discriminate. intros H. cbn [SFsub valid_binary] in *.
    destruct (bounded_inv m e V) as [He [_ Hm]].
    destruct (Z.compare_spec (-52) e) as [E|L|G]; try discriminate.
    + subst e. rewrite Z.min_id.
      unfold shl_align. rewrite Z.sub_diag. cbn [fst cond_Zopp].
      apply normalize_negative; [|lia].
      rewrite Pos.compare_cont_spec in H. cbn [Pos.switch_Eq] in H.
      destruct (Pos.compare_spec 4503599627370496 m) as [E|L|G];
        try discriminate H.
      lia.
    + rewrite Z.min_l by lia.
      unfold shl_align at 1. rewrite Z.sub_diag. cbn [fst cond_Zopp].
      unfold shl_align.
      destruct (-52 - e) as [|d|d] eqn:Ed; try lia. cbn [fst].
      apply normalize_negative; [|lia].
      pose proof (iter_xO_ge d m). specialize (Hm ltac:(lia)).
      change (Z.pos 4503599627370496) with (2 ^ 52). lia.
Qed.

End DoubleFacts.

(** ** Order facts about [Math.min] and [Math.max] *)

Module MinMaxFacts.

Import MapUtils MinMax.

Lemma not_nan_rank (x : number) :
  is_nan x = false -> exists a, Double.rankf x = Some a.
Proof.
  rewrite DoubleFacts.is_nan_rank. destruct (Double.rankf x) as [a|];
    [eauto|discriminate].
Qed.

Lemma nan_eq (x : number) : is_nan x = true -> x = nan.
Proof.
  rewrite DoubleFacts.is_nan_spec. intros H. apply DoubleFacts.SF_nan_inv.
  destruct (Prim2SF x); try discriminate. reflexivity.
Qed.

Lemma le_refl (x : number) : is_nan x = false -> le x x.
Proof.
  intros H. destruct (not_nan_rank x H) as [a Ha].
  unfold le. rewrite DoubleFacts.leb_rank, Ha. apply Z.leb_refl.
Qed.

Lemma le_trans (x y z : number) : le x y -> le y z -> le x z.
Proof.
  unfold le. rewrite !DoubleFacts.leb_rank.
  destruct (Double.rankf x), (Double.rankf y), (Double.rankf z);
    try discriminate.
  rewrite !Z.leb_le. lia.
Qed.

Lemma Math_min_idem (x : number) : Math_min x x = x.
Proof.
  unfold Math_min. destruct (is_nan x) eqn:N.
  - simpl. symmetry. now apply nan_eq.
  - simpl. destruct (not_nan_rank x N) as [a Ha].
    rewrite DoubleFacts.ltb_rank, Ha, Z.ltb_irrefl.
    destruct (get_sign x); reflexivity.
Qed.

Lemma Math_max_idem (x : number) : Math_max x x = x.
Proof.
  unfold Math_max. destruct (is_nan x) eqn:N.
  - simpl. symmetry. now apply nan_eq.
  - simpl. destruct (not_nan_rank x N) as [a Ha].
    rewrite DoubleFacts.ltb_rank, Ha, Z.ltb_irrefl.
    destruct (get_sign x); reflexivity.
Qed.

(** Without [NaN], [Math.min] returns one of its arguments, below both. *)
Lemma Math_min_spec (a b : number) :
  is_nan a = false -> is_nan b = false ->
  (Math_min a b = a \/ Math_min a b = b)
  /\ le (Math_min a b) a /\ le (Math_min a b) b.
Proof.
  intros Na Nb. unfold Math_min, le. rewrite Na, Nb. simpl.
  destruct (not_nan_rank a Na) as [ra Ha], (not_nan_rank b Nb) as [rb Hb].
  rewrite !DoubleFacts.ltb_rank, Ha, Hb.
  destruct (Z.ltb_spec ra rb); [|destruct (Z.ltb_spec rb ra);
                                  [|destruct (get_sign a)]];
    (split; [auto|]); rewrite !DoubleFacts.leb_rank, ?Ha, ?Hb, !Z.leb_le; lia.
Qed.

Lemma Math_max_spec (a b : number) :
  is_nan a = false -> is_nan b = false ->
  (Math_max a b = a \/ Math_max a b = b)
  /\ le a (Math_max a b) /\ le b (Math_max a b).
Proof.
  intros Na Nb. unfold Math_max, le. rewrite Na, Nb. simpl.
  destruct (not_nan_rank a Na) as [ra Ha], (not_nan_rank b Nb) as [rb Hb].
  rewrite !DoubleFacts.ltb_rank, Ha, Hb.
  destruct (Z.ltb_spec ra rb); [|destruct (Z.ltb_spec rb ra);
                                  [|destruct (get_sign a)]];
    (split; [auto|]); rewrite !DoubleFacts.leb_rank, ?Ha, ?Hb, !Z.leb_le; lia.
Qed.

Lemma fold_min_spec (xs : list number) (x0 : number) :
  (forall x, In x (x0 :: xs) -> is_nan x = false) ->
  is_nan (fold_left Math_min xs x0) = false
  /\ In (fold_left Math_min xs x0) (x0 :: xs)
  /\ forall y, In y (x0 :: xs) -> le (fold_left Math_min xs x0) y.
Proof.
  revert x0. induction xs as [|x xs IH]; intros x0 H.
  - simpl. split; [apply H; simpl; auto|]. split; [auto|].
    intros y [<-|[]]. apply le_refl. apply H. simpl; auto.
  - assert (N0 : is_nan x0 = false) by (apply H; simpl; auto).
    assert (Nx : is_nan x = false) by (apply H; simpl; auto).
    destruct (Math_min_spec x0 x N0 Nx) as [Hc [H1 H2]].
    assert (Nm : is_nan (Math_min x0 x) = false)
      by (destruct Hc as [-> | ->]; assumption).
    cbn [fold_left].
    destruct (IH (Math_min x0 x)) as [Hn [Hin Hle]].
    { intros z [<-|Hz]; [exact Nm|]. apply H. simpl; auto. }
    split; [exact Hn|]. split.
    + destruct Hin as [E|Hin].
      * rewrite <- E. destruct Hc as [-> | ->]; simpl; auto.
      * simpl; auto.
    + intros y [<-|[<-|Hy]].
      * eapply le_trans; [apply Hle; simpl; auto|exact H1].
      * eapply le_trans; [apply Hle; simpl; auto|exact H2].
      * apply Hle. simpl; auto.
Qed.

Lemma fold_max_spec (xs : list number) (x0 : number) :
  (forall x, In x (x0 :: xs) -> is_nan x = false) ->
  is_nan (fold_left Math_max xs x0) = false
  /\ In (fold_left Math_max xs x0) (x0 :: xs)
  /\ forall y, In y (x0 :: xs) -> le y (fold_left Math_max xs x0).
Proof.
  revert x0. induction xs as [|x xs IH]; intros x0 H.
  - simpl. split; [apply H; simpl; auto|]. split; [auto|].
    intros y [<-|[]]. apply le_refl. apply H. simpl; auto.
  - assert (N0 : is_nan x0 = false) by (apply H; simpl; auto).
    assert (Nx : is_nan x = false) by (apply H; simpl; auto).
    destruct (Math_max_spec x0 x N0 Nx) as [Hc [H1 H2]].
    assert (Nm : is_nan (Math_max x0 x) = false)
      by (destruct Hc as [-> | ->]; assumption).
    cbn [fold_left].
    destruct (IH (Math_max x0 x)) as [Hn [Hin Hle]].
    { intros z [<-|Hz]; [exact Nm|]. apply H. simpl; auto. }
    split; [exact Hn|]. split.
    + destruct Hin as [E|Hin].
      * rewrite <- E. destruct Hc as [-> | ->]; simpl; auto.
      * simpl; auto.
    + intros y [<-|[<-|Hy]].
      * eapply le_trans; [exact H1|apply Hle; simpl; auto].
      * eapply le_trans; [exact H2|apply Hle; simpl; auto].
      * apply Hle. simpl; auto.
Qed.

(** The four running extremes evolve independently of one another. *)
Lemma fold_widen (l : list (LocationData number)) (a b c d : number) :
  fold_left widen l (a, b, c, d)
  = (fold_left Math_min (map latitude l) a,
     fold_left Math_max (map latitude l) b,
     fold_left Math_min (map longitude l) c,
     fold_left Math_max (map longitude l) d).
Proof.
  revert a b c d. induction l as [|p l IH]; intros; [reflexivity|].
  cbn [fold_left map widen]. apply IH.
Qed.

(** [(x + x) / 2] is [x] below the top binade. *)
Lemma double_half (x : number) :
  (abs x <? 0x1p+1023)%float = true -> ((x + x) / 2)%float = x.
Proof.
  intros H. apply Prim2SF_inj. rewrite div_spec, add_spec.
  change (Prim2SF 2) with (S754_finite false Double.two_m (-51)).
  apply DoubleFacts.SF_double_half; [apply Prim2SF_valid|].
  intros s m e E.
  rewrite DoubleFacts.ltb_rank in H. unfold Double.rankf in H.
  rewrite abs_spec, E in H.
  change (Double.rank (Prim2SF 0x1p+1023)) with (Some (2 ^ 2097)) in H.
  cbn [SFabs Double.rank cond_Zopp] in H. apply Z.ltb_lt in H.
  pose proof (Prim2SF_valid x) as V. rewrite E in V. cbn [valid_binary] in V.
  destruct (DoubleFacts.bounded_inv m e V) as [He [_ Hm]].
  destruct (Z.eq_dec e 971) as [->|]; [|lia].
  specialize (Hm ltac:(lia)).
  change (2 ^ (971 + 1074)) with (2 ^ 2045) in H.
  change (2 ^ 2097) with (2 ^ 52 * 2 ^ 2045) in H.
  assert (0 < 2 ^ 2045) by reflexivity.
  generalize dependent (2 ^ 2045). intros. nia.
Qed.

End MinMaxFacts.

(** ** The model at work

    A few runs of the definitions on concrete values, as the program would
    produce them. *)

Example slice_keeps_tail : JsArray.slice (-2) [1; 2; 3] = [2; 3].
Proof. reflexivity. Qed.

Example slice_clamps : JsArray.slice (-5) [1; 2; 3] = [1; 2; 3].
Proof. reflexivity. Qed.

Example or_undefined_drops_zero :
  GeolocationService.or_undefined (Some 0%float) = None
  /\ GeolocationService.or_undefined (Some nan) = None
  /\ GeolocationService.or_undefined (Some 12.5%float) = Some 12.5%float.
Proof. repeat split; reflexivity. Qed.

Example single_fix_is_recorded :
  exists nav c,
    LocationTracker.step (Scenario.browser, Scenario.mounted)
      (LocationTracker.GetCurrentPosition (Navigator.Success Scenario.p1))
    = Normal (nav, c)
    /\ length (LocationTracker.locationHistory c) = 1%nat
    /\ UseGeolocation.loading (UseGeolocation.state (LocationTracker.hook c))
       = false.
Proof. do 2 eexists. repeat split; reflexivity. Qed.

Example bounds_of_two_points :
  MapUtils.center
    (MapUtils.calculateBounds
       [sample 0%float 0%float 5%float 1000%float;
        sample 10%float 10%float 5%float 2000%float])
  = (5%float, 5%float).
Proof. reflexivity. Qed.

Example min_prefers_negative_zero :
  MapUtils.Math_min 0%float neg_zero = neg_zero
  /\ MapUtils.Math_max neg_zero 0%float = 0%float
  /\ MapUtils.Math_min 1%float nan = nan.
Proof. repeat split; reflexivity. Qed.

Example unit_square_area :
  Area.calculateAreaFromLocations
    [point 0 0; point 1 0; point 1 1; point 0 1]%float = 1%float.
Proof. reflexivity. Qed.

Example stored_text_of_one_sample :
  persisted [sample 1%float 2%float 3%float 4%float]
  = Some (Js.JsonText
            (Js.Arr [Js.Obj [("latitude", Js.Num 1%float);
                             ("longitude", Js.Num 2%float);
                             ("accuracy", Js.Num 3%float);
                             ("timestamp", Js.Num 4%float)]%string])).
Proof. reflexivity. Qed.

(** * Part IV: the claims *)

(** ** C1: no sample is rejected for its coordinates *)

Lemma persist_readable (slot : option Js.text) (l : LocationData number) :
  readable slot = true ->
  exists slot', LocationTracker.persist slot l = Normal slot'
                /\ readable slot' = true.
Proof.
  unfold readable, LocationTracker.persist.
  destruct (Js.JSON_parse (LocationTracker.saved_or_empty slot)) as [v|]; simpl;
    [|discriminate].
  destruct (Js.spread v) as [items|]; simpl; [|discriminate].
  intros _. eexists. split; [reflexivity|]. reflexivity.
Qed.

(** Calling the success callback of the subscription: what the component
    holds afterwards. *)
Lemma late_position_appends (nav : Navigator.t) (c : LocationTracker.t)
      (position : Navigator.GeolocationPosition) :
  readable (LocationTracker.localStorage c) = true ->
  exists c',
    LocationTracker.step (nav, c) (LocationTracker.LatePosition position)
    = Normal (nav, c')
    /\ LocationTracker.locationHistory c'
       = History.append (LocationTracker.locationHistory c)
           (GeolocationService.locationData position)
    /\ UseGeolocation.location (UseGeolocation.state (LocationTracker.hook c'))
       = Some (GeolocationService.locationData position)
    /\ UseGeolocation.error (UseGeolocation.state (LocationTracker.hook c'))
       = UseGeolocation.error (UseGeolocation.state (LocationTracker.hook c))
    /\ readable (LocationTracker.localStorage c') = true.
Proof.
  intros Hr.
  destruct (persist_readable _ (GeolocationService.locationData position) Hr)
    as [slot' [Hp Hr']].
  unfold LocationTracker.step, LocationTracker.deliver. simpl.
  unfold LocationTracker.locationEffect. simpl. rewrite Hp. simpl.
  eexists. split; [reflexivity|]. simpl. auto.
Qed.

(** The answer to a single request arrives: what the component holds
    afterwards. *)
Lemma settled_request_appends (autoStart : bool) (nav : Navigator.t)
      (c : LocationTracker.t) (position : Navigator.GeolocationPosition) :
  readable (LocationTracker.localStorage c) = true ->
  UseGeolocation.isSupported (UseGeolocation.state (LocationTracker.hook c)) = true ->
  Navigator.has_geolocation nav = true ->
  exists c',
    Lifecycle.step autoStart (nav, c)
      (Lifecycle.RequestSettled (Navigator.Success position))
    = Normal (nav, c')
    /\ stored_as_delivered c c' position.
Proof.
  intros Hr Hs Hg.
  destruct (persist_readable _ (GeolocationService.locationData position) Hr)
    as [slot' [Hp _]].
  unfold Lifecycle.step, UseGeolocation.requestSettled,
    GeolocationService.getCurrentPosition,
    GeolocationService.isGeolocationSupported.
  rewrite Hs, Hg. cbn [negb].
  unfold LocationTracker.deliver. cbn [UseGeolocation.state
    UseGeolocation.updateState UseGeolocation.location UseGeolocation.merge
    UseGeolocation.u_location].
  unfold LocationTracker.locationEffect.
  cbn [LocationTracker.with_hook LocationTracker.localStorage
       LocationTracker.locationHistory LocationTracker.hook].
  rewrite Hp. cbn [bind].
  eexists. split; [reflexivity|]. repeat split.
Qed.

(** C1, as the program has it.  With a slot of [localStorage] that can be
    read, every position that reaches the hook is accepted, whatever its
    coordinates: the answer to a single request, a position the host delivers
    to the watch the service holds, and a position handed to the success
    callback of the subscription at any other time.  It becomes the current
    location and is appended to the history buffer, and the error field is
    left as it was.  No coordinate check stands between the host and the
    buffer. *)
Theorem delivered_sample_is_stored
        (autoStart : bool) (nav : Navigator.t) (c : LocationTracker.t)
        (position : Navigator.GeolocationPosition) :
  readable (LocationTracker.localStorage c) = true ->
  (UseGeolocation.isSupported (UseGeolocation.state (LocationTracker.hook c))
     = true ->
   Navigator.has_geolocation nav = true ->
   exists c',
     Lifecycle.step autoStart (nav, c)
       (Lifecycle.RequestSettled (Navigator.Success position))
     = Normal (nav, c')
     /\ stored_as_delivered c c' position)
  /\ (forall id,
        GeolocationService.watchId
          (UseGeolocation.geolocationService (LocationTracker.hook c)) = Some id ->
        Navigator.serves nav id = true ->
        exists c',
          Lifecycle.step autoStart (nav, c)
            (Lifecycle.Handle (LocationTracker.HostPosition id position))
          = Normal (nav, c')
          /\ stored_as_delivered c c' position)
  /\ (exists c',
        Lifecycle.step autoStart (nav, c)
          (Lifecycle.Handle (LocationTracker.LatePosition position))
        = Normal (nav, c')
        /\ stored_as_delivered c c' position).
Proof.
  intros Hr.
  destruct (late_position_appends nav c position Hr)
    as [c' [Hstep [H1 [H2 [H3 _]]]]].
  split; [|split].
  - intros Hs Hg. now apply settled_request_appends.
  - intros id _ Hs. exists c'. split; [|repeat split; assumption].
    cbn [Lifecycle.step]. unfold LocationTracker.step in *.
    rewrite Hs. exact Hstep.
  - exists c'. split; [exact Hstep|repeat split; assumption].
Qed.

(** The reading with [latitude = 95] as the answer to a click on "Get
    Current Location". *)
Lemma delivered_sample_is_stored_witness :
  let w := Scenario.requesting in
  readable (LocationTracker.localStorage (snd w)) = true
  /\ UseGeolocation.isSupported
       (UseGeolocation.state (LocationTracker.hook (snd w))) = true
  /\ Navigator.has_geolocation (fst w) = true
  /\ exists c',
       Lifecycle.step false (fst w, snd w)
         (Lifecycle.RequestSettled (Navigator.Success Scenario.p95))
       = Normal (fst w, c')
       /\ LocationTracker.locationHistory c'
          = [GeolocationService.locationData Scenario.p95].
Proof.
  intros w.
  assert (Hr : readable (LocationTracker.localStorage (snd w)) = true)
    by reflexivity.
  split; [exact Hr|]. split; [reflexivity|]. split; [reflexivity|].
  destruct (proj1 (delivered_sample_is_stored false (fst w) (snd w)
                     Scenario.p95 Hr) eq_refl eq_refl)
    as [c' [Hstep [Hh _]]].
  exists c'. split; [exact Hstep|exact Hh].
Defined.

(** The sample with [latitude = 95] fails [isValidCoordinate].  A component
    is mounted on an empty [localStorage], its permission check settles, the
    user clicks "Get Current Location" and the host answers with that
    sample, the auto-start effect re-running after each render: the history
    goes from empty to that one sample, which is the current location, and
    no error is recorded. *)
Lemma invalid_sample_not_rejected :
  MapUtils.isValidCoordinate 95%float 10%float = false
  /\ LocationTracker.locationHistory Scenario.mounted = []
  /\ exists nav c,
      Lifecycle.run false (Scenario.browser, Scenario.mounted)
        [Lifecycle.PermissionChecked (Some (Normal granted));
         Lifecycle.EffectRerun;
         Lifecycle.Handle LocationTracker.ClearError;
         Lifecycle.RequestSent;
         Lifecycle.EffectRerun;
         Lifecycle.RequestSettled (Navigator.Success Scenario.p95);
         Lifecycle.EffectRerun] = Normal (nav, c)
      /\ LocationTracker.locationHistory c
         = [GeolocationService.locationData Scenario.p95]
      /\ UseGeolocation.location (UseGeolocation.state (LocationTracker.hook c))
         = Some (GeolocationService.locationData Scenario.p95)
      /\ UseGeolocation.error (UseGeolocation.state (LocationTracker.hook c))
         = None.
Proof.
  split; [reflexivity|]. split; [reflexivity|].
  do 2 eexists. split; [reflexivity|]. repeat split.
Qed.

(** ** C2: the history buffer is a strict sliding window of 100 samples *)

(** The component appends what it is given, one sample per delivery, in
    the order of the deliveries. *)
Lemma component_appends_in_order (nav : Navigator.t) (c : LocationTracker.t)
      (positions : list Navigator.GeolocationPosition) :
  readable (LocationTracker.localStorage c) = true ->
  exists c',
    LocationTracker.run (nav, c) (map LocationTracker.LatePosition positions)
    = Normal (nav, c')
    /\ LocationTracker.locationHistory c'
       = Window.append_all (LocationTracker.locationHistory c)
           (map GeolocationService.locationData positions).
Proof.
  revert c. induction positions as [|p positions IH]; intros c Hr.
  - exists c. split; reflexivity.
  - destruct (late_position_appends nav c p Hr) as [c1 [Hs [Hh [_ [_ Hr1]]]]].
    destruct (IH c1 Hr1) as [c' [Hrun Hh']].
    exists c'. split.
    + cbn [map LocationTracker.run]. rewrite Hs. cbn [bind]. exact Hrun.
    + rewrite Hh', Hh. reflexivity.
Qed.

(** C2.  Whatever the buffer holds initially, appending a sequence of at
    least 100 samples (100 + k of them) one by one keeps the length at most
    100 after every append (and before the first one when the initial buffer
    respects the capacity), and leaves exactly the last 100 appended samples,
    in the order in which they were appended, repeated samples included. *)
Theorem history_sliding_window (A : Type) (init samples : list A) :
  (100 <= length samples)%nat ->
  (forall m, (m <= length samples)%nat ->
     (0 < m)%nat \/ (length init <= 100)%nat ->
     (length (Window.append_all init (firstn m samples)) <= 100)%nat)
  /\ Window.append_all init samples = Window.last_n 100 samples.
Proof.
  intros Hlen. split.
  - intros m Hm Hpos.
    destruct m as [|m]; [simpl; lia|].
    rewrite WindowFacts.append_all_length.
    + lia.
    + intro E. apply (f_equal (@length A)) in E.
      rewrite length_firstn in E. cbn [length] in E. lia.
  - destruct (WindowFacts.append_all_skipn samples init) as [k Hk].
    assert (Hl : length (Window.append_all init samples) = 100%nat).
    { rewrite WindowFacts.append_all_length; [lia|].
      intro E; subst; simpl in Hlen; lia. }
    rewrite Hk in *. rewrite WindowFacts.last_n_skipn.
    rewrite length_skipn, length_app in Hl.
    replace k with ((length samples - 100) + length init)%nat by lia.
    rewrite <- skipn_skipn. f_equal.
    rewrite skipn_app, Nat.sub_diag, skipn_all. reflexivity.
Qed.

(** Two old entries, then 103 appends numbered 0..102: the buffer ends as
    3..102. *)
Lemma history_sliding_window_witness :
  (100 <= length (seq 0 103))%nat
  /\ Window.append_all [7%nat; 8%nat] (seq 0 103) = seq 3 100.
Proof.
  assert (H : (100 <= length (seq 0 103))%nat)
    by (rewrite length_seq; repeat constructor).
  split; [exact H|].
  rewrite (proj2 (history_sliding_window nat [7%nat; 8%nat] (seq 0 103) H)).
  reflexivity.
Defined.

(** ** C3: what [stopWatching] stops *)

Lemma serves_clearWatch (nav : Navigator.t) (id : Z) :
  Navigator.serves (Navigator.clearWatch nav id) id = false.
Proof.
  unfold Navigator.serves, Navigator.clearWatch. simpl.
  induction (Navigator.watches nav) as [|w ws IH]; simpl; [reflexivity|].
  destruct (Z.eqb_spec w id) as [E|N]; simpl; [exact IH|].
  apply Z.eqb_neq in N. rewrite N. exact IH.
Qed.




(** ** C4: what survives a reload *)

Lemma serialize_representable (x : number) :
  representable x = true -> Js.serialize_number x = Js.Num x.
Proof.
  unfold representable, is_finite, Js.serialize_number.
  intros H. apply andb_prop in H. destruct H as [Hf Hz].
  apply negb_true_iff in Hf, Hz. rewrite Hf.
  destruct (is_zero x) eqn:Z; [|reflexivity].
  now rewrite (DoubleFacts.zero_not_neg x Z Hz).
Qed.

Lemma sample_roundtrip (l : LocationData number) :
  representable_sample l = true ->
  exists j, Js.serialize (Js.ofLocationData l) = Some j
            /\ Js.asLocationData j = Some l.
Proof.
  destruct l as [la lo ac ts al he sp]. unfold representable_sample. simpl.
  intros H. do 6 (apply andb_prop in H; destruct H as [H ?]).
  eexists. split; [reflexivity|].
  rewrite !serialize_representable by assumption.
  destruct al as [al|], he as [he|], sp as [sp|]; simpl in *;
    rewrite ?serialize_representable by assumption; reflexivity.
Qed.

Lemma serialize_number_twice (x : number) :
  Js.serialize (Js.serialize_number x) = Some (Js.serialize_number x).
Proof.
  unfold Js.serialize_number.
  destruct (is_nan x || is_infinity x) eqn:E; [reflexivity|].
  destruct (is_zero x) eqn:Z; cbn [Js.serialize]; unfold Js.serialize_number.
  - reflexivity.
  - rewrite E, Z. reflexivity.
Qed.

Lemma properties_twice (props : list (string * Js.value)) :
  Forall (fun kv => scalar (snd kv)) props ->
  properties (properties props) = properties props.
Proof.
  induction 1 as [|[k v] props Hv _ IH]; [reflexivity|].
  cbn [properties fold_right fst snd] in *. fold (properties props).
  destruct v; cbn [scalar snd] in Hv; try contradiction;
    cbn [Js.serialize fold_right fst snd]; fold (properties (properties props));
    rewrite ?serialize_number_twice, IH; reflexivity.
Qed.

Lemma element_twice (l : LocationData number) :
  element (element (Js.ofLocationData l)) = element (Js.ofLocationData l).
Proof.
  unfold element, Js.ofLocationData. cbn [Js.serialize].
  fold (properties
          [("latitude"%string, Js.Num (latitude l));
           ("longitude"%string, Js.Num (longitude l));
           ("accuracy"%string, Js.Num (accuracy l));
           ("timestamp"%string, Js.Num (timestamp l));
           ("altitude"%string, Js.optional (altitude l));
           ("heading"%string, Js.optional (heading l));
           ("speed"%string, Js.optional (speed l))]).
  cbn [Js.serialize].
  match goal with
  | |- Js.Obj (fold_right _ [] (properties ?p)) = _ =>
      change (Js.Obj (properties (properties p)) = Js.Obj (properties p));
      rewrite (properties_twice p); [reflexivity|]
  end.
  repeat constructor; cbn [snd scalar]; auto;
    match goal with |- scalar (Js.optional ?o) => destruct o; exact I end.
Qed.

Lemma map_slice {X Y : Type} (f : X -> Y) (start : Z) (l : list X) :
  map f (JsArray.slice start l) = JsArray.slice start (map f l).
Proof.
  unfold JsArray.slice. rewrite length_map. symmetry. apply skipn_map.
Qed.

Lemma persisted_eq (S : list (LocationData number)) :
  persisted S
  = Some (Js.JsonText (Js.Arr (map element (map Js.ofLocationData S)))).
Proof. reflexivity. Qed.

(** Each run of the history effect leaves in the slot exactly the persisted
    form of the buffer it has just built. *)
Lemma effect_keeps_in_step (c : LocationTracker.t) (l : LocationData number) :
  in_step c ->
  exists c',
    LocationTracker.locationEffect c l = Normal c'
    /\ LocationTracker.locationHistory c'
       = History.append (LocationTracker.locationHistory c) l
    /\ LocationTracker.localStorage c'
       = persisted (LocationTracker.locationHistory c').
Proof.
  intros H.
  assert (E : LocationTracker.persist (LocationTracker.localStorage c) l
              = Normal (persisted (History.append
                                     (LocationTracker.locationHistory c) l))).
  { destruct H as [H|[H H']]; rewrite H.
    - rewrite !persisted_eq. unfold LocationTracker.persist.
      cbn [LocationTracker.saved_or_empty Js.truthy Js.JSON_parse bind Js.spread].
      unfold Js.JSON_stringify. cbn [Js.serialize option_map LocationTracker.setItem].
      do 4 f_equal. fold element.
      unfold History.append, JsArray.spread_push, History.capacity.
      rewrite !map_slice.
      change (- (100)) with (-100). f_equal.
      rewrite !map_app. cbn [map]. f_equal.
      rewrite !map_map. apply map_ext. intros p. apply element_twice.
    - rewrite H'. reflexivity. }
  unfold LocationTracker.locationEffect. rewrite E. cbn [bind].
  eexists. split; [reflexivity|]. split; reflexivity.
Qed.

(** C4, as the program has it.  For every buffer [S] within the capacity
    whose samples carry only numbers that JSON can write (finite, not the
    negative zero), the mount effect run on what [JSON.stringify(S)] left in
    the slot calls [setLocationHistory] with a value that is [S] again,
    sample for sample and field for field.  And that text is what the slot
    holds: each run of the history effect, on a component whose slot and
    buffer agree, stores the persisted form of the buffer it has just
    built.  (The capacity bound is what makes [S] a possible content of the
    slot; the round trip itself does not depend on it.) *)
Theorem hydrate_persisted (S : list (LocationData number)) :
  (length S <= 100)%nat ->
  forallb representable_sample S = true ->
  (exists v, LocationTracker.hydrate (persisted S) = Some v
             /\ Js.asHistory v = Some S)
  /\ (forall (c : LocationTracker.t) (l : LocationData number),
        LocationTracker.locationHistory c = S -> in_step c ->
        exists c',
          LocationTracker.locationEffect c l = Normal c'
          /\ LocationTracker.locationHistory c' = History.append S l
          /\ LocationTracker.localStorage c' = persisted (History.append S l)).
Proof.
  intros _ H. split.
  - unfold persisted, Js.JSON_stringify, Js.ofHistory. simpl.
    eexists. split; [reflexivity|]. simpl.
    induction S as [|l S IH]; [reflexivity|].
    simpl in H. apply andb_prop in H. destruct H as [Hl HS].
    destruct (sample_roundtrip l Hl) as [j [Hj Hback]].
    cbn [map Js.asLocations]. rewrite Hj, Hback, (IH HS). reflexivity.
  - intros c l <- Hc.
    destruct (effect_keeps_in_step c l Hc) as [c' [E [Hh Hs]]].
    exists c'. rewrite <- Hh. auto.
Qed.

Lemma hydrate_persisted_witness :
  let S := [sample 37.5%float (-122.5)%float 5%float 1000%float;
            sample 0%float 180%float 12.5%float 2000%float] in
  (length S <= 100)%nat
  /\ forallb representable_sample S = true
  /\ exists v, LocationTracker.hydrate (persisted S) = Some v
               /\ Js.asHistory v = Some S.
Proof.
  intros S.
  assert (H1 : (length S <= 100)%nat) by (simpl; repeat constructor).
  assert (H2 : forallb representable_sample S = true) by reflexivity.
  split; [exact H1|]. split; [exact H2|].
  exact (proj1 (hydrate_persisted S H1 H2)).
Defined.

(** A buffer of one sample whose latitude is [NaN] is written with
    [latitude: null]; what the mount effect loads is not that buffer (it is
    not even a [LocationData[]]).  A latitude of [-0], which passes
    [isValidCoordinate], comes back as [0]. *)
Lemma nan_sample_not_restored :
  let S := [sample nan 10%float 5%float 1000%float] in
  let S' := [sample neg_zero 10%float 5%float 1000%float] in
  (length S <= 100)%nat
  /\ (exists v, LocationTracker.hydrate (persisted S) = Some v
                /\ Js.asHistory v <> Some S)
  /\ MapUtils.isValidCoordinate neg_zero 10%float = true
  /\ (exists v, LocationTracker.hydrate (persisted S') = Some v
                /\ Js.asHistory v = Some [sample 0%float 10%float 5%float 1000%float]
                /\ Js.asHistory v <> Some S').
Proof.
  intros S S'. split; [simpl; repeat constructor|]. split.
  - eexists. split; [reflexivity|]. vm_compute. discriminate.
  - split; [reflexivity|].
    eexists. split; [reflexivity|]. split; [reflexivity|].
    intros E.
    apply (f_equal (fun o => match o with
                             | Some (l :: _) => Leibniz.eqb (latitude l) neg_zero
                             | _ => false
                             end)) in E.
    vm_compute in E. discriminate E.
Qed.

(** The same through the component: a reading with latitude [NaN] is
    delivered, stored and persisted; mounting again on that slot does not
    yield a buffer of samples. *)
Example reload_after_nan_sample :
  let reading := Scenario.position nan 10%float 5%float 1000%float in
  exists nav c,
    LocationTracker.run (Scenario.browser, Scenario.mounted)
      [LocationTracker.StartWatching; LocationTracker.HostPosition 0 reading]
    = Normal (nav, c)
    /\ LocationTracker.locationHistory c
       = [sample nan 10%float 5%float 1000%float]
    /\ LocationTracker.localStorage c
       = persisted (LocationTracker.locationHistory c)
    /\ LocationTracker.mount Scenario.browser (LocationTracker.localStorage c)
       = None.
Proof.
  intros reading. do 2 eexists.
  split; [reflexivity|]. split; [reflexivity|]. split; reflexivity.
Qed.

(** ** C5: failures of a single request end up in the error field *)

(** C5.  Whatever error code the host answers a [getCurrentPosition] request
    with, the call returns normally (nothing is thrown to the caller), the
    promise resolves with [null], and afterwards the error field holds the
    failure: the host's code with its message when the request reached the
    host, the "not supported" error otherwise.  [loading] is off and the
    current location is untouched. *)
Theorem getCurrentPosition_failure_is_stored
        (h : UseGeolocation.t) (nav : Navigator.t) (c : Z) :
  exists h' e,
    UseGeolocation.getCurrentPosition h nav (Navigator.Failure c)
    = Normal (h', None)
    /\ UseGeolocation.error (UseGeolocation.state h') = Some e
    /\ UseGeolocation.location (UseGeolocation.state h')
       = UseGeolocation.location (UseGeolocation.state h)
    /\ e = (if UseGeolocation.isSupported (UseGeolocation.state h) then
              if Navigator.has_geolocation nav then
                mkError (Some c) (GeolocationService.getErrorMessage c)
              else mkError None GeolocationService.unsupported_message
            else mkError (Some 0) GeolocationService.unsupported_message)
    /\ (UseGeolocation.isSupported (UseGeolocation.state h) = true ->
        UseGeolocation.loading (UseGeolocation.state h') = false).
Proof.
  unfold UseGeolocation.getCurrentPosition,
    GeolocationService.getCurrentPosition,
    GeolocationService.isGeolocationSupported.
  destruct (UseGeolocation.isSupported (UseGeolocation.state h)) eqn:Hs; simpl.
  - destruct (Navigator.has_geolocation nav); simpl;
      do 2 eexists; repeat split; reflexivity.
  - do 2 eexists. repeat split; try reflexivity. discriminate.
Qed.

(** ** C6: coordinate validation *)

Lemma rankf_90 : Double.rankf 90%float = Some (90 * 2 ^ 1074).
Proof. vm_compute. reflexivity. Qed.

Lemma rankf_m90 : Double.rankf (-90)%float = Some (-90 * 2 ^ 1074).
Proof. vm_compute. reflexivity. Qed.

Lemma rankf_180 : Double.rankf 180%float = Some (180 * 2 ^ 1074).
Proof. vm_compute. reflexivity. Qed.

Lemma rankf_m180 : Double.rankf (-180)%float = Some (-180 * 2 ^ 1074).
Proof. vm_compute. reflexivity. Qed.

(** A double lies between two whole numbers [lo <= hi] of at most 180 in
    magnitude exactly when it is finite and its exact value does. *)
Lemma between_exact (x lo hi : float) (l h : Z) :
  Double.rankf lo = Some (l * 2 ^ 1074) ->
  Double.rankf hi = Some (h * 2 ^ 1074) ->
  -180 <= l -> h <= 180 ->
  (negb (MapUtils.isNaN x) && MapUtils.geb x lo && (x <=? hi)%float = true
   <-> exists q, Double.exact x = Some q
                 /\ (inject_Z l <= q)%Q /\ (q <= inject_Z h)%Q).
Proof.
  intros Hlo Hhi Hl Hh.
  unfold MapUtils.isNaN, MapUtils.geb.
  rewrite DoubleFacts.is_nan_rank, !DoubleFacts.leb_rank, Hlo, Hhi.
  assert (Hbig : 180 * 2 ^ 1074 < 2 ^ 2100) by reflexivity.
  assert (Hpos : 0 < 2 ^ 1074) by reflexivity.
  split.
  - destruct (Double.rankf x) as [a|] eqn:Ra; [|discriminate].
    simpl negb. rewrite andb_true_l. intros H.
    apply andb_prop in H. destruct H as [H1 H2].
    apply Z.leb_le in H1, H2.
    exists (Qmake a Double.unit_den). split.
    + apply DoubleFacts.exact_of_rank; [exact Ra|].
      generalize dependent (2 ^ 1074). generalize (2 ^ 2100). intros. nia.
    + split; [apply DoubleFacts.Qle_unit_l|apply DoubleFacts.Qle_unit_r]; assumption.
  - intros [q [Hq [H1 H2]]].
    destruct (DoubleFacts.rank_of_exact x q Hq) as [a [Ra [-> _]]].
    rewrite Ra. simpl negb. rewrite andb_true_l.
    apply (proj1 (DoubleFacts.Qle_unit_l l a)) in H1.
    apply (proj1 (DoubleFacts.Qle_unit_r h a)) in H2.
    apply andb_true_intro. split; apply Z.leb_le; assumption.
Qed.

(** C6.  [isValidCoordinate] accepts a pair of numbers exactly when both
    are finite (so neither [NaN] nor infinite) and their exact values lie in
    [-90, 90] and [-180, 180]; the four boundary values are accepted and
    [NaN] in either position is rejected. *)
Theorem isValidCoordinate_iff (latitude longitude : number) :
  (MapUtils.isValidCoordinate latitude longitude = true
   <-> exists a b,
         Double.exact latitude = Some a /\ Double.exact longitude = Some b
         /\ (-90 <= a)%Q /\ (a <= 90)%Q /\ (-180 <= b)%Q /\ (b <= 180)%Q)
  /\ MapUtils.isValidCoordinate 90%float 180%float = true
  /\ MapUtils.isValidCoordinate (-90)%float (-180)%float = true
  /\ MapUtils.isValidCoordinate nan longitude = false
  /\ MapUtils.isValidCoordinate latitude nan = false.
Proof.
  split; [|split; [reflexivity|split; [reflexivity|split]]].
  - pose proof (between_exact latitude (-90) 90 (-90) 90 rankf_m90 rankf_90
                  ltac:(lia) ltac:(lia)) as Hlat.
    pose proof (between_exact longitude (-180) 180 (-180) 180 rankf_m180 rankf_180
                  ltac:(lia) ltac:(lia)) as Hlng.
    assert (E : MapUtils.isValidCoordinate latitude longitude
                = (negb (MapUtils.isNaN latitude)
                   && MapUtils.geb latitude (-90)%float
                   && (latitude <=? 90)%float)
                  && (negb (MapUtils.isNaN longitude)
                      && MapUtils.geb longitude (-180)%float
                      && (longitude <=? 180)%float)).
    { unfold MapUtils.isValidCoordinate.
      destruct (negb (MapUtils.isNaN latitude)),
               (negb (MapUtils.isNaN longitude)),
               (MapUtils.geb latitude (-90)%float), (latitude <=? 90)%float,
               (MapUtils.geb longitude (-180)%float); reflexivity. }
    rewrite E, andb_true_iff, Hlat, Hlng.
    split.
    + intros [[a [Ha [A1 A2]]] [b [Hb [B1 B2]]]]. exists a, b. auto 10.
    + intros [a [b [Ha [Hb [A1 [A2 [B1 B2]]]]]]].
      split; [exists a|exists b]; auto.
  - unfold MapUtils.isValidCoordinate. reflexivity.
  - unfold MapUtils.isValidCoordinate.
    change (MapUtils.isNaN nan) with true.
    rewrite andb_false_r. reflexivity.
Qed.

(** ** C7: the bounding box *)

Lemma calculateBounds_cons (p : LocationData number)
      (rest : list (LocationData number)) :
  MapUtils.calculateBounds (p :: rest)
  = let lats := map latitude (p :: rest) in
    let lngs := map longitude (p :: rest) in
    MapUtils.mkBounds
      (MinMax.greatest lats, MinMax.greatest lngs)
      (MinMax.least lats, MinMax.least lngs)
      ((MinMax.least lats + MinMax.greatest lats) / 2,
       (MinMax.least lngs + MinMax.greatest lngs) / 2)%float.
Proof.
  unfold MapUtils.calculateBounds. rewrite MinMaxFacts.fold_widen.
  cbn [map fold_left MinMax.least MinMax.greatest].
  rewrite !MinMaxFacts.Math_min_idem, !MinMaxFacts.Math_max_idem. reflexivity.
Qed.

(** A valid coordinate is far below [2^1023]. *)
Lemma valid_coordinate_small (latitude longitude : number) :
  MapUtils.isValidCoordinate latitude longitude = true ->
  (abs latitude <? 0x1p+1023)%float = true
  /\ (abs longitude <? 0x1p+1023)%float = true.
Proof.
  intros H. unfold MapUtils.isValidCoordinate, MapUtils.geb, MapUtils.isNaN in H.
  repeat (apply andb_prop in H; destruct H as [H ?]).
  apply negb_true_iff in H.
  match goal with N : negb _ = true |- _ => apply negb_true_iff in N end.
  destruct (MinMaxFacts.not_nan_rank latitude) as [a Ha]; [assumption|].
  destruct (MinMaxFacts.not_nan_rank longitude) as [b Hb]; [assumption|].
  repeat match goal with
         | L : (_ <=? _)%float = true |- _ =>
             rewrite DoubleFacts.leb_rank, ?Ha, ?Hb, ?rankf_90, ?rankf_m90,
               ?rankf_180, ?rankf_m180 in L; apply Z.leb_le in L
         end.
  assert (Habs : forall x r, Double.rankf x = Some r ->
                             Double.rankf (abs x) = Some (Z.abs r)).
  { intros x r. unfold Double.rankf. rewrite abs_spec.
    destruct (Prim2SF x) as [s|s| |s m e]; try discriminate;
      intros E; apply DoubleFacts.Some_inj in E; subst r;
      cbn [SFabs Double.rank cond_Zopp]; f_equal; destruct s;
      unfold cond_Zopp; lia. }
  rewrite !DoubleFacts.ltb_rank, (Habs _ _ Ha), (Habs _ _ Hb).
  change (Double.rankf 0x1p+1023) with (Some (2 ^ 2097)).
  assert (Hbig : 180 * 2 ^ 1074 < 2 ^ 2097) by reflexivity.
  split; apply Z.ltb_lt; generalize dependent (2 ^ 1074);
    generalize (2 ^ 2097); intros; lia.
Qed.

(** C7.  On the empty list the box is all zeros.
    On a non-empty list, south-west and north-east are the least and the
    greatest latitude and longitude, each axis on its own, and the centre is
    [(min + max) / 2] per axis in double arithmetic; when no coordinate is
    [NaN], the least and greatest are members of the list that bound every
    member.  On a singleton [[p]] both corners are [p], and so is the centre
    as long as the coordinates are below [2^1023] in magnitude, which every
    coordinate that passes [isValidCoordinate] is. *)
Theorem calculateBounds_spec :
  MapUtils.calculateBounds []
  = MapUtils.mkBounds (0, 0)%float (0, 0)%float (0, 0)%float
  /\ (forall l : list (LocationData number), l <> [] ->
      let b := MapUtils.calculateBounds l in
      MapUtils.southWest b
      = (MinMax.least (map latitude l), MinMax.least (map longitude l))
      /\ MapUtils.northEast b
         = (MinMax.greatest (map latitude l), MinMax.greatest (map longitude l))
      /\ MapUtils.center b
         = ((fst (MapUtils.southWest b) + fst (MapUtils.northEast b)) / 2,
            (snd (MapUtils.southWest b) + snd (MapUtils.northEast b)) / 2)%float)
  /\ (forall xs : list number, xs <> [] ->
      (forall x, In x xs -> is_nan x = false) ->
      In (MinMax.least xs) xs /\ In (MinMax.greatest xs) xs
      /\ forall x, In x xs ->
           MinMax.le (MinMax.least xs) x /\ MinMax.le x (MinMax.greatest xs))
  /\ (forall p : LocationData number,
      let b := MapUtils.calculateBounds [p] in
      MapUtils.northEast b = (latitude p, longitude p)
      /\ MapUtils.southWest b = (latitude p, longitude p)
      /\ ((abs (latitude p) <? 0x1p+1023)%float = true ->
          (abs (longitude p) <? 0x1p+1023)%float = true ->
          MapUtils.center b = (latitude p, longitude p))
      /\ (MapUtils.isValidCoordinate (latitude p) (longitude p) = true ->
          MapUtils.center b = (latitude p, longitude p))).
Proof.
  split; [reflexivity|]. split; [|split].
  - intros [|p rest] Hne; [congruence|].
    rewrite calculateBounds_cons. cbv zeta. cbn [MapUtils.southWest
      MapUtils.northEast MapUtils.center fst snd]. auto.
  - intros [|x rest] Hne Hnan; [congruence|].
    destruct (MinMaxFacts.fold_min_spec rest x Hnan) as [_ [Hin Hle]].
    destruct (MinMaxFacts.fold_max_spec rest x Hnan) as [_ [Hin' Hge]].
    cbn [MinMax.least MinMax.greatest]. auto.
  - intros p. rewrite calculateBounds_cons. cbv zeta.
    cbn [map MinMax.least MinMax.greatest fold_left MapUtils.southWest
         MapUtils.northEast MapUtils.center].
    split; [reflexivity|]. split; [reflexivity|].
    assert (Hsmall : (abs (latitude p) <? 0x1p+1023)%float = true ->
                     (abs (longitude p) <? 0x1p+1023)%float = true ->
                     (((latitude p + latitude p) / 2)%float,
                      ((longitude p + longitude p) / 2)%float)
                     = (latitude p, longitude p)).
    { intros Hlat Hlng.
      rewrite (MinMaxFacts.double_half _ Hlat), (MinMaxFacts.double_half _ Hlng).
      reflexivity. }
    split; [exact Hsmall|].
    intros Hv. destruct (valid_coordinate_small _ _ Hv) as [Hlat Hlng].
    exact (Hsmall Hlat Hlng).
Qed.

(** Three readings: the corners are attained extremes, and the singleton
    box of a valid reading collapses onto it. *)
Lemma calculateBounds_spec_witness :
  let p := sample 37.5%float (-122.5)%float 5%float 1000%float in
  let xs := [10%float; (-3.5)%float; 7.25%float] in
  (abs (latitude p) <? 0x1p+1023)%float = true
  /\ (abs (longitude p) <? 0x1p+1023)%float = true
  /\ MapUtils.center (MapUtils.calculateBounds [p]) = (latitude p, longitude p)
  /\ MinMax.le (MinMax.least xs) 7.25%float.
Proof.
  intros p xs.
  destruct calculateBounds_spec as [_ [_ [Hext Hone]]].
  assert (H1 : (abs (latitude p) <? 0x1p+1023)%float = true) by reflexivity.
  assert (H2 : (abs (longitude p) <? 0x1p+1023)%float = true) by reflexivity.
  split; [exact H1|]. split; [exact H2|]. split.
  - exact (proj1 (proj2 (proj2 (Hone p))) H1 H2).
  - assert (Hne : xs <> []) by discriminate.
    assert (Hnan : forall x, In x xs -> is_nan x = false).
    { intros x [<-|[<-|[<-|[]]]]; reflexivity. }
    apply (proj2 (proj2 (Hext xs Hne Hnan))). simpl. auto.
Defined.

(** Far outside the range of coordinates, a number of magnitude [2^1023]:
    the sum of minimum and maximum overflows, and the centre of the
    singleton box is [(Infinity, 0)]. *)
Lemma huge_singleton_center :
  let p := sample 0x1p+1023%float 0%float 5%float 1000%float in
  MapUtils.center (MapUtils.calculateBounds [p]) = (infinity, 0%float)
  /\ MapUtils.center (MapUtils.calculateBounds [p]) <> (latitude p, longitude p).
Proof.
  intros p. split; [reflexivity|].
  intros E.
  apply (f_equal (fun c => is_infinity (fst c))) in E.
  vm_compute in E. discriminate E.
Qed.

(** ** C8: the great-circle distance *)

(** *** In exact arithmetic *)

Section HaversineFacts.

Local Open Scope R_scope.

Lemma hav_bounds (theta : R) : 0 <= Sphere.hav theta <= 1.
Proof.
  unfold Sphere.hav. rewrite Rsqr_def.
  pose proof (SIN_bound (theta / 2)). nra.
Qed.

Lemma hav_cos (theta : R) : Sphere.hav theta = (1 - cos theta) / 2.
Proof.
  unfold Sphere.hav. rewrite Rsqr_def.
  replace theta with (2 * (theta / 2)) at 3 by field.
  rewrite cos_2a_sin. field.
Qed.

(** The sum is the haversine of the central angle, hence in [[0, 1]]. *)
Lemma hav_sum_bounds (phi1 lambda1 phi2 lambda2 : R) :
  0 <= Sphere.hav_sum phi1 lambda1 phi2 lambda2 <= 1.
Proof.
  unfold Sphere.hav_sum. rewrite (hav_cos (phi2 - phi1)), cos_minus.
  pose proof (hav_bounds (lambda2 - lambda1)) as Ht.
  set (t := Sphere.hav (lambda2 - lambda1)) in *.
  pose proof (COS_bound (phi2 - phi1)) as Hm. rewrite cos_minus in Hm.
  pose proof (COS_bound (phi2 + phi1)) as Hp. rewrite cos_plus in Hp.
  set (c1 := cos phi1) in *. set (c2 := cos phi2) in *.
  set (s1 := sin phi1) in *. set (s2 := sin phi2) in *.
  assert (H1 : 0 <= (1 - t) * (1 - (c2 * c1 + s2 * s1)))
    by (apply Rmult_le_pos; lra).
  assert (H2 : 0 <= t * (1 + (c2 * c1 - s2 * s1)))
    by (apply Rmult_le_pos; lra).
  assert (H3 : 0 <= (1 - t) * (1 + (c2 * c1 + s2 * s1)))
    by (apply Rmult_le_pos; lra).
  assert (H4 : 0 <= t * (1 - (c2 * c1 - s2 * s1)))
    by (apply Rmult_le_pos; lra).
  split; nra.
Qed.

(** For [0 <= h <= 1], [atan2 (sqrt h) (sqrt (1 - h))] is [asin (sqrt h)]. *)
Lemma atan2_asin (h : R) :
  0 <= h <= 1 ->
  RealMath.atan2 (R_sqrt.sqrt h) (R_sqrt.sqrt (1 - h))
  = asin (R_sqrt.sqrt h).
Proof.
  intros [H0 H1]. unfold RealMath.atan2.
  destruct (Req_dec h 1) as [->|Hne].
  - replace (1 - 1) with 0 by ring. rewrite sqrt_0, sqrt_1, asin_1.
    destruct (total_order_T 0 0) as [[L|_]|G]; try lra.
    destruct (total_order_T 1 0) as [[L|E]|G]; lra.
  - assert (Hpos : 0 < R_sqrt.sqrt (1 - h)) by (apply sqrt_lt_R0; lra).
    assert (Hlt : R_sqrt.sqrt h < 1).
    { rewrite <- sqrt_1. apply sqrt_lt_1; lra. }
    pose proof (sqrt_pos h) as Hge.
    destruct (total_order_T (R_sqrt.sqrt (1 - h)) 0) as [[L|E]|G]; try lra.
    rewrite asin_atan by lra. rewrite Rsqr_sqrt by lra. reflexivity.
Qed.

(** The program text, read on real numbers, is the haversine formula on a
    sphere of radius 6371 with the coordinates converted from degrees to
    radians. *)
Lemma calculateDistance_haversine (lat1 lon1 lat2 lon2 : R) :
  Distance.calculateDistance lat1 lon1 lat2 lon2
  = Sphere.haversine 6371
      (Sphere.radians lat1) (Sphere.radians lon1)
      (Sphere.radians lat2) (Sphere.radians lon2).
Proof.
  unfold Distance.calculateDistance, Distance.toRadians, Sphere.haversine.
  cbn [plus minus times over exact_arithmetic
       literal Math_PI Math_sin Math_cos Math_sqrt Math_atan2
       exact_trigonometry].
  cbv zeta.
  assert (E : sin ((lat2 - lat1) * (PI / 180) / 2)
              * sin ((lat2 - lat1) * (PI / 180) / 2)
              + cos (lat1 * (PI / 180)) * cos (lat2 * (PI / 180))
                * sin ((lon2 - lon1) * (PI / 180) / 2)
                * sin ((lon2 - lon1) * (PI / 180) / 2)
              = Sphere.hav_sum (Sphere.radians lat1) (Sphere.radians lon1)
                  (Sphere.radians lat2) (Sphere.radians lon2)).
  { unfold Sphere.hav_sum, Sphere.hav, Sphere.radians.
    rewrite !Rsqr_def.
    replace (lat2 * PI / 180 - lat1 * PI / 180)
      with ((lat2 - lat1) * (PI / 180)) by field.
    replace (lon2 * PI / 180 - lon1 * PI / 180)
      with ((lon2 - lon1) * (PI / 180)) by field.
    replace (lat1 * PI / 180) with (lat1 * (PI / 180)) by field.
    replace (lat2 * PI / 180) with (lat2 * (PI / 180)) by field.
    ring. }
  rewrite E, atan2_asin by apply hav_sum_bounds.
  fold (Sphere.hav_sum (Sphere.radians lat1) (Sphere.radians lon1)
          (Sphere.radians lat2) (Sphere.radians lon2)).
  ring.
Qed.

End HaversineFacts.

(** *** On doubles *)

Section DistanceOnDoubles.

Local Open Scope float_scope.

Variable M : Math.t.

(** [calculateDistance] in terms of the constant [a]. *)
Lemma calculateDistance_of_sum (lat1 lon1 lat2 lon2 : number) :
  calculateDistance M lat1 lon1 lat2 lon2
  = 6371 * (2 * Math.atan2 M (Math.sqrt (haversine_sum M lat1 lon1 lat2 lon2))
                             (Math.sqrt (1 - haversine_sum M lat1 lon1 lat2 lon2))).
Proof. reflexivity. Qed.

Lemma half_angle_sine_opp (d : number) :
  odd_sine M -> half_angle_sine M (- d) = - half_angle_sine M d.
Proof.
  intros Hodd. unfold half_angle_sine.
  rewrite DoubleFacts.mul_opp_l, DoubleFacts.div_opp_l. apply Hodd.
Qed.

(** Swapping the two points negates the sine of each half difference, or
    leaves it as it is when the difference is zero. *)
Lemma half_angle_sine_flip (x y : number) :
  odd_sine M ->
  half_angle_sine M (y - x) = - half_angle_sine M (x - y)
  \/ half_angle_sine M (y - x) = half_angle_sine M (x - y).
Proof.
  intros Hodd. destruct (DoubleFacts.sub_flip x y) as [E|[E1 E2]].
  - left. rewrite E. apply half_angle_sine_opp. exact Hodd.
  - right. rewrite E1, E2. reflexivity.
Qed.

Lemma mul_self_opp (s : number) : - s * - s = s * s.
Proof.
  rewrite DoubleFacts.mul_opp_l, DoubleFacts.mul_opp_r,
    DoubleFacts.opp_involutive.
  reflexivity.
Qed.

Lemma mul_mul_opp (p s : number) : p * - s * - s = p * s * s.
Proof.
  rewrite !DoubleFacts.mul_opp_r, DoubleFacts.mul_opp_l,
    DoubleFacts.opp_involutive.
  reflexivity.
Qed.

Lemma haversine_sum_sym (lat1 lon1 lat2 lon2 : number) :
  odd_sine M ->
  haversine_sum M lat1 lon1 lat2 lon2 = haversine_sum M lat2 lon2 lat1 lon1.
Proof.
  intros Hodd. unfold haversine_sum.
  rewrite (DoubleFacts.mul_comm (Math.cos M (lat2 * (Math.PI / 180)))
                                (Math.cos M (lat1 * (Math.PI / 180)))).
  f_equal.
  - destruct (half_angle_sine_flip lat2 lat1 Hodd) as [E|E]; rewrite E;
      [symmetry; apply mul_self_opp|reflexivity].
  - destruct (half_angle_sine_flip lon2 lon1 Hodd) as [E|E]; rewrite E;
      [symmetry; apply mul_mul_opp|reflexivity].
Qed.

Lemma haversine_sum_diag (lat lon : number) :
  standard_sin M -> bounded_cosine M ->
  is_finite lat = true -> is_finite lon = true ->
  haversine_sum M lat lon lat lon = 0.
Proof.
  intros [Hsin _] Hcos Hlat Hlon. unfold haversine_sum, half_angle_sine.
  rewrite (DoubleFacts.sub_diag lat Hlat), (DoubleFacts.sub_diag lon Hlon).
  change (0 * (Math.PI / 180) / 2) with 0.
  rewrite Hsin.
  assert (Hf : is_finite (lat * (Math.PI / 180)) = true).
  { apply (DoubleFacts.mul_small_finite lat (Math.PI / 180)
             false 5030569068109113 (-58)); [reflexivity|lia|exact Hlat]. }
  rewrite (DoubleFacts.square_times_zero _ (Hcos _ Hf)).
  reflexivity.
Qed.

End DistanceOnDoubles.

Section CrudeMath.

Local Open Scope float_scope.

Lemma abs_opp (x : float) : abs (- x) = abs x.
Proof.
  apply Prim2SF_inj. rewrite !abs_spec, opp_spec.
  destruct (Prim2SF x); reflexivity.
Qed.

Lemma crude_math_conforms :
  standard_sin Scenario.crude_math /\ standard_atan2 Scenario.crude_math
  /\ odd_sine Scenario.crude_math /\ bounded_cosine Scenario.crude_math.
Proof.
  split; [repeat split; reflexivity|]. split; [split|split].
  - intros y x H. cbn [Scenario.crude_math Math.atan2]. rewrite H. reflexivity.
  - intros x Hx. cbn [Scenario.crude_math Math.atan2].
    replace (is_nan x) with false; [reflexivity|].
    rewrite DoubleFacts.is_nan_spec. rewrite ltb_spec in Hx.
    change (Prim2SF 0) with (S754_zero false) in Hx.
    destruct (Prim2SF x); try reflexivity. discriminate Hx.
  - intros x. cbn [Scenario.crude_math Math.sin]. rewrite abs_opp.
    destruct (abs x <=? 1); [reflexivity|apply DoubleFacts.div_opp_l].
  - intros x H. cbn [Scenario.crude_math Math.cos]. rewrite H. reflexivity.
Qed.

End CrudeMath.



(** ** C9: the polygon area is half the absolute shoelace sum *)

Section AreaFacts.
Context {T : Type} {A : Arithmetic T}.

Lemma snoc_nth (rest : list (LocationData T)) (first : LocationData T) (i : nat) :
  (i < S (length rest))%nat ->
  nth i (rest ++ [first]) Area.origin
  = nth ((i + 1) mod S (length rest)) (first :: rest) Area.origin.
Proof.
  intros Hi. destruct (Nat.eq_dec i (length rest)) as [->|Hne].
  - rewrite app_nth2, Nat.sub_diag by lia.
    replace (length rest + 1)%nat with (S (length rest)) by lia.
    rewrite Nat.Div0.mod_same. reflexivity.
  - rewrite app_nth1 by lia.
    rewrite Nat.mod_small by lia.
    replace (i + 1)%nat with (S i) by lia. reflexivity.
Qed.

Lemma nth_map_seq {B : Type} (f : nat -> B) (n i : nat) (d : B) :
  (i < n)%nat -> nth i (map f (seq 0 n)) d = f i.
Proof.
  intros Hi.
  rewrite (nth_indep _ d (f 0%nat)) by (rewrite length_map, length_seq; lia).
  rewrite map_nth, seq_nth by lia. reflexivity.
Qed.

(** The index loop visits exactly the edges of the closed polygon, in
    order. *)
Lemma edges_by_index (locations : list (LocationData T)) :
  map (fun i => (Area.at_index locations i,
                 Area.at_index locations ((i + 1) mod length locations)))
      (seq 0 (length locations))
  = Shoelace.edges locations.
Proof.
  destruct locations as [|first rest]; [reflexivity|].
  unfold Shoelace.edges.
  apply (nth_ext _ _ (Area.origin, Area.origin) (Area.origin, Area.origin)).
  - rewrite length_map, length_seq, length_combine, length_app.
    cbn [length]. lia.
  - intros i Hi. rewrite length_map, length_seq in Hi.
    rewrite combine_nth by (rewrite length_app; cbn [length]; lia).
    rewrite nth_map_seq by exact Hi. unfold Area.at_index. f_equal.
    symmetry. apply snoc_nth. exact Hi.
Qed.

Lemma loop_as_edges (locations : list (LocationData T)) (indices : list nat) (acc : T) :
  fold_left (Area.loop_body locations (length locations)) indices acc
  = fold_left Shoelace.add_edge
      (map (fun i => (Area.at_index locations i,
                      Area.at_index locations ((i + 1) mod length locations)))
           indices) acc.
Proof.
  revert acc. induction indices as [|i indices IH]; intros acc; [reflexivity|].
  cbn [fold_left map]. rewrite <- IH. reflexivity.
Qed.

Lemma calculateArea_shoelace (locations : list (LocationData T)) :
  Area.calculateAreaFromLocations locations
  = if (length locations <? 3)%nat then lit0
    else over (absolute (Shoelace.shoelace locations)) lit2.
Proof.
  unfold Area.calculateAreaFromLocations, Shoelace.shoelace.
  destruct (length locations <? 3)%nat; [reflexivity|].
  cbv zeta. rewrite loop_as_edges, edges_by_index. reflexivity.
Qed.

Lemma rotate1_length (points : list (LocationData T)) :
  length (Shoelace.rotate1 points) = length points.
Proof.
  destruct points as [|p rest]; [reflexivity|].
  cbn [Shoelace.rotate1]. rewrite length_app. cbn [length]. lia.
Qed.

Lemma combine_snoc {X Y : Type} (a : list X) (b : list Y) (u : X) (v : Y) :
  length a = length b ->
  combine (a ++ [u]) (b ++ [v]) = combine a b ++ [(u, v)].
Proof.
  revert b. induction a as [|x a IH]; intros [|y b] H; try discriminate.
  - reflexivity.
  - cbn [app combine]. f_equal. apply IH. now injection H.
Qed.

(** Rotating the points rotates the edges. *)
Lemma edges_rotate1 (points : list (LocationData T)) :
  Shoelace.edges (Shoelace.rotate1 points)
  = match Shoelace.edges points with
    | [] => []
    | e :: es => es ++ [e]
    end.
Proof.
  destruct points as [|x [|y r]]; [reflexivity|reflexivity|].
  change (combine ((y :: r) ++ [x]) ((r ++ [x]) ++ [y])
          = combine (y :: r) (r ++ [x]) ++ [(x, y)]).
  apply combine_snoc. rewrite length_app. cbn [length]. lia.
Qed.

End AreaFacts.

Lemma total_app (xs ys : list R) :
  total (xs ++ ys) = (total xs + total ys)%R.
Proof.
  induction xs as [|x xs IH]; cbn [app total]; [lra|rewrite IH; lra].
Qed.

Lemma fold_add_edge (es : list (LocationData R * LocationData R)) (acc : R) :
  fold_left Shoelace.add_edge es acc = (acc + total (map cross es))%R.
Proof.
  revert acc. induction es as [|e es IH]; intros acc; cbn [fold_left map total].
  - lra.
  - rewrite IH. unfold Shoelace.add_edge, cross. cbn [plus minus times exact_arithmetic].
    lra.
Qed.

(** In exact arithmetic the loop computes the textbook sum
    [sum (x_i * y_(i+1) - x_(i+1) * y_i)]. *)
Lemma shoelace_total (points : list (LocationData R)) :
  Shoelace.shoelace points = total (map cross (Shoelace.edges points)).
Proof.
  unfold Shoelace.shoelace. rewrite fold_add_edge.
  cbn [lit0 exact_arithmetic]. lra.
Qed.

(** C9.  [calculateAreaFromLocations] returns [0] on fewer than three
    points and otherwise half the absolute value of the shoelace sum of the
    closed polygon, latitude and longitude entering the sum as plain planar
    coordinates: no projection, no Earth radius, so the unit is square
    degrees.  This holds for the program on doubles and for its reading in
    exact arithmetic alike; in exact arithmetic the sum is the textbook
    [sum (x_i * y_(i+1) - x_(i+1) * y_i)] over the edges. *)
Theorem polygonArea_is_half_shoelace :
  (forall locations : list (LocationData number),
     Area.calculateAreaFromLocations locations
     = if (length locations <? 3)%nat then 0%float
       else (abs (Shoelace.shoelace locations) / 2)%float)
  /\ (forall locations : list (LocationData R),
        Area.calculateAreaFromLocations locations
        = (if (length locations <? 3)%nat then 0%R
           else (Rabs (Shoelace.shoelace locations) / 2)%R)
        /\ Shoelace.shoelace locations
           = total (map cross (Shoelace.edges locations))).
Proof.
  split; intros locations.
  - exact (calculateArea_shoelace (A := double_arithmetic) locations).
  - split.
    + exact (calculateArea_shoelace (A := exact_arithmetic) locations).
    + apply shoelace_total.
Qed.

(** ** C10: sign and rotation of the polygon area *)

(** *** In exact arithmetic *)

Lemma shoelace_rotate1 (points : list (LocationData R)) :
  Shoelace.shoelace (Shoelace.rotate1 points) = Shoelace.shoelace points.
Proof.
  rewrite !shoelace_total, edges_rotate1.
  destruct (Shoelace.edges points) as [|e es]; [reflexivity|].
  rewrite map_app, total_app. cbn [map total]. lra.
Qed.

Lemma area_rotate1 (points : list (LocationData R)) :
  Area.calculateAreaFromLocations (Shoelace.rotate1 points)
  = Area.calculateAreaFromLocations points.
Proof.
  rewrite !calculateArea_shoelace, rotate1_length, shoelace_rotate1.
  reflexivity.
Qed.

Lemma area_nonneg (points : list (LocationData R)) :
  (0 <= Area.calculateAreaFromLocations points)%R.
Proof.
  rewrite calculateArea_shoelace.
  destruct (length points <? 3)%nat; cbn [lit0 lit2 over absolute exact_arithmetic].
  - lra.
  - pose proof (Rabs_pos (Shoelace.shoelace points)). lra.
Qed.

(** *** On doubles *)

Lemma binary_round_aux_sign (m e : Z) (l : location) :
  Double.sign_clear (binary_round_aux prec emax false m e l).
Proof.
  unfold binary_round_aux.
  destruct (shr_fexp prec emax m e l) as [mrs e'].
  destruct (shr_fexp prec emax _ e' loc_Exact) as [mrs' e''].
  destruct (shr_m mrs') as [|p|p]; cbn [Double.sign_clear]; auto.
  destruct (e'' <=? emax - prec); reflexivity.
Qed.

Lemma half_abs_sign (x : spec_float) :
  Double.sign_clear (SF64div (SFabs x) (S754_finite false Double.two_m (-51))).
Proof.
  unfold SF64div, SFdiv.
  destruct x as [s|s| |s m e]; cbn [SFabs Double.sign_clear xorb]; auto.
  destruct (SFdiv_core_binary prec emax (Z.pos m) e (Z.pos Double.two_m) (-51))
    as [[mz ez] lz].
  apply binary_round_aux_sign.
Qed.

Lemma half_abs_not_negative (x : number) :
  (abs x / 2 <? 0)%float = false
  /\ ((0 <=? abs x / 2)%float = true \/ is_nan (abs x / 2)%float = true).
Proof.
  pose proof (half_abs_sign (Prim2SF x)) as H.
  pose proof (Prim2SF_valid (abs x / 2)%float) as V.
  rewrite DoubleFacts.ltb_rank, DoubleFacts.leb_rank, DoubleFacts.is_nan_rank.
  change (Double.rankf 0%float) with (Some 0).
  unfold Double.rankf. rewrite div_spec, abs_spec in *.
  change (Prim2SF 2) with (S754_finite false Double.two_m (-51)) in *.
  destruct (SF64div _ _) as [s|s| |s m e]; cbn [Double.sign_clear] in H;
    try subst s; cbn [Double.rank cond_Zopp].
  - split; [reflexivity|left; reflexivity].
  - split; [reflexivity|left; reflexivity].
  - split; [reflexivity|right; reflexivity].
  - cbn [valid_binary] in V.
    pose proof (DoubleFacts.rank_finite_bounds m e V) as B.
    split; [apply Z.ltb_ge; lia|left; apply Z.leb_le; lia].
Qed.

(** C10, as the program has it.  On doubles the result is never negative:
    it is at least [0], or [NaN] when the sum is.  The sum runs over the
    closed polygon, wrap-around edge included, so in exact arithmetic the
    result does not change when the list is rotated, and it is at least [0];
    on doubles a rotation changes the order of the additions and with it the
    rounding, so only this exact reading is invariant. *)
Theorem polygonArea_sign_and_rotation :
  (forall locations : list (LocationData number),
     let r := Area.calculateAreaFromLocations locations in
     (r <? 0)%float = false
     /\ ((0 <=? r)%float = true \/ is_nan r = true))
  /\ (forall (locations : list (LocationData R)) (k : nat),
        Area.calculateAreaFromLocations (Shoelace.rotate k locations)
        = Area.calculateAreaFromLocations locations
        /\ (0 <= Area.calculateAreaFromLocations locations)%R).
Proof.
  split.
  - intros locations r. subst r.
    rewrite (calculateArea_shoelace (A := double_arithmetic) locations).
    destruct (length locations <? 3)%nat.
    + split; [reflexivity|left; reflexivity].
    + apply half_abs_not_negative.
  - intros locations k. split; [|apply area_nonneg].
    induction k as [|k IH]; [reflexivity|].
    change (Shoelace.rotate (S k) locations)
      with (Shoelace.rotate1 (Shoelace.rotate k locations)).
    rewrite area_rotate1. exact IH.
Qed.

#[local] Set Warnings "-inexact-float".

(** Three valid coordinates, [(1, 2)], [(3.5, 7.25)] and [(0.1, 0.2)]: the
    program returns [0.11249999999999999] for them in this order and
    [0.11249999999999982] after one rotation. *)
Lemma rotation_changes_area_on_doubles :
  let triangle := [point 1 2; point 3.5 7.25; point 0.1 0.2]%float in
  Shoelace.rotate 1 triangle = [point 3.5 7.25; point 0.1 0.2; point 1 2]%float
  /\ forallb (fun p => MapUtils.isValidCoordinate (latitude p) (longitude p))
       triangle = true
  /\ Area.calculateAreaFromLocations triangle = 0.11249999999999999%float
  /\ Area.calculateAreaFromLocations (Shoelace.rotate 1 triangle)
     = 0.11249999999999982%float
  /\ Area.calculateAreaFromLocations (Shoelace.rotate 1 triangle)
     <> Area.calculateAreaFromLocations triangle.
Proof.
  intros triangle.
  split; [reflexivity|]. split; [reflexivity|].
  split; [reflexivity|]. split; [reflexivity|].
  intros E.
  apply (f_equal (fun x => Leibniz.eqb x 0.11249999999999999%float)) in E.
  vm_compute in E. discriminate E.
Qed.

#[local] Set Warnings "+inexact-float".

(** * Part V: further properties of the program *)

(** ** Optional readings *)

(** [x || undefined] keeps a reading exactly when it is a number other
    than [0], [-0] and [NaN]. *)
Lemma or_undefined_keeps (x : option number) (v : number) :
  GeolocationService.or_undefined x = Some v
  <-> x = Some v /\ v <> 0%float /\ v <> neg_zero /\ v <> nan.
Proof.
  unfold GeolocationService.or_undefined. split.
  - destruct x as [u|]; [|discriminate].
    destruct ((u =? 0)%float || is_nan u) eqn:E; [discriminate|].
    intros H. apply DoubleFacts.Some_inj in H. subst u.
    apply orb_false_elim in E. destruct E as [Ez En].
    split; [reflexivity|].
    repeat split; intros ->; vm_compute in Ez, En; discriminate.
  - intros [-> [H0 [Hn0 Hnan]]].
    destruct (is_nan v) eqn:En.
    { apply MinMaxFacts.nan_eq in En. contradiction. }
    change (v =? 0)%float with (is_zero v).
    rewrite DoubleFacts.is_zero_spec.
    destruct (Prim2SF v) as [s|s| |s m e] eqn:E; try reflexivity.
    apply DoubleFacts.SF_zero_inv in E. destruct s; contradiction.
Qed.

(** X1.  The sample built from a host position copies the four required
    readings as they are, and keeps an optional reading exactly when it is a
    number other than [0], [-0] and [NaN]: an altitude at sea level, a heading
    due north and the speed of a device at rest are stored as [undefined]. *)
Theorem locationData_drops_zero_readings
        (position : Navigator.GeolocationPosition) (v : number) :
  let c := Navigator.coords position in
  let l := GeolocationService.locationData position in
  (latitude l, longitude l, accuracy l, timestamp l)
  = (Navigator.c_latitude c, Navigator.c_longitude c, Navigator.c_accuracy c,
     Navigator.p_timestamp position)
  /\ (altitude l = Some v
      <-> Navigator.c_altitude c = Some v
          /\ v <> 0%float /\ v <> neg_zero /\ v <> nan)
  /\ (heading l = Some v
      <-> Navigator.c_heading c = Some v
          /\ v <> 0%float /\ v <> neg_zero /\ v <> nan)
  /\ (speed l = Some v
      <-> Navigator.c_speed c = Some v
          /\ v <> 0%float /\ v <> neg_zero /\ v <> nan).
Proof.
  intros c l. split; [reflexivity|].
  unfold l, GeolocationService.locationData. cbn [altitude heading speed].
  fold c. split; [|split]; apply or_undefined_keeps.
Qed.

(** ** The permission check *)

(** What [checkPermission] does to the hook. *)
Lemma checkPermission_state (h : UseGeolocation.t)
      (permissions : option (completion thrown PermissionState)) :
  exists p,
    UseGeolocation.state (fst (UseGeolocation.checkPermission h permissions))
    = UseGeolocation.mkState
        (UseGeolocation.location (UseGeolocation.state h))
        (UseGeolocation.error (UseGeolocation.state h))
        (UseGeolocation.loading (UseGeolocation.state h))
        (Some p)
        (UseGeolocation.isSupported (UseGeolocation.state h))
    /\ UseGeolocation.isWatching (fst (UseGeolocation.checkPermission h permissions))
       = UseGeolocation.isWatching h
    /\ UseGeolocation.geolocationService
         (fst (UseGeolocation.checkPermission h permissions))
       = UseGeolocation.geolocationService h.
Proof.
  unfold UseGeolocation.checkPermission.
  destruct permissions as [[p|e]|]; cbn;
    eexists; repeat split; reflexivity.
Qed.

(** X2.  [checkPermission] never rejects, neither in the service nor in the
    hook.  The service answers with the state the host reports, and with
    [prompt] on a host without [navigator.permissions] and when the query
    fails.  The hook stores that answer in [permission], returns it, and
    touches nothing else; its own fallback (the [denied] state with the
    error "Failed to check location permission") is never taken, so [denied]
    is stored only when the host says [denied]. *)
Theorem checkPermission_never_fails
        (h : UseGeolocation.t)
        (permissions : option (completion thrown PermissionState)) :
  let answer := match permissions with
                | Some (Normal state) => state
                | Some (Throw _) => prompt
                | None => prompt
                end in
  GeolocationService.checkPermission permissions = Normal answer
  /\ snd (UseGeolocation.checkPermission h permissions) = answer
  /\ UseGeolocation.state (fst (UseGeolocation.checkPermission h permissions))
     = UseGeolocation.mkState
         (UseGeolocation.location (UseGeolocation.state h))
         (UseGeolocation.error (UseGeolocation.state h))
         (UseGeolocation.loading (UseGeolocation.state h))
         (Some answer)
         (UseGeolocation.isSupported (UseGeolocation.state h))
  /\ UseGeolocation.isWatching (fst (UseGeolocation.checkPermission h permissions))
     = UseGeolocation.isWatching h
  /\ UseGeolocation.geolocationService
       (fst (UseGeolocation.checkPermission h permissions))
     = UseGeolocation.geolocationService h
  /\ (answer = denied <-> permissions = Some (Normal denied)).
Proof.
  unfold UseGeolocation.checkPermission.
  destruct permissions as [[p|e]|]; cbn.
  - repeat split; try reflexivity; congruence.
  - repeat split; try reflexivity; discriminate.
  - repeat split; try reflexivity; discriminate.
Qed.

(** ** Accuracy ratings *)

Section AccuracyFacts.

Import GeolocationService.

(** Below a threshold is below every number that is. *)
Lemma threshold_le (a b t : number) :
  (a <=? b)%float = true -> (b <=? t)%float = true -> (a <=? t)%float = true.
Proof. apply MinMaxFacts.le_trans. Qed.

Lemma getAccuracyLevel_cases (a : number) :
  In (getAccuracyLevel a) ["excellent"; "good"; "fair"; "poor"]%string.
Proof.
  unfold getAccuracyLevel.
  destruct (a <=? 10)%float; [simpl; auto|].
  destruct (a <=? 50)%float; [simpl; auto|].
  destruct (a <=? 100)%float; simpl; auto.
Qed.

End AccuracyFacts.

(** X3.  The rating never improves as the accuracy radius grows, every
    number is given one of the four levels, and [NaN] is rated [poor]. *)
Theorem getAccuracyLevel_monotone (a b : number) :
  ((a <=? b)%float = true ->
   (severity (GeolocationService.getAccuracyLevel a)
    <= severity (GeolocationService.getAccuracyLevel b))%nat)
  /\ In (GeolocationService.getAccuracyLevel a)
        ["excellent"; "good"; "fair"; "poor"]%string
  /\ (is_nan a = true -> GeolocationService.getAccuracyLevel a = "poor"%string).
Proof.
  unfold GeolocationService.getAccuracyLevel.
  split; [|split].
  - intros Hab.
    pose proof (threshold_le a b 10%float Hab) as H10.
    pose proof (threshold_le a b 50%float Hab) as H50.
    pose proof (threshold_le a b 100%float Hab) as H100.
    destruct (b <=? 10)%float.
    { rewrite (H10 eq_refl). apply Nat.le_refl. }
    destruct (b <=? 50)%float.
    { rewrite (H50 eq_refl). destruct (a <=? 10)%float; cbv; lia. }
    destruct (b <=? 100)%float.
    { rewrite (H100 eq_refl).
      destruct (a <=? 10)%float; [cbv; lia|].
      destruct (a <=? 50)%float; cbv; lia. }
    destruct (a <=? 10)%float; [cbv; lia|].
    destruct (a <=? 50)%float; [cbv; lia|].
    destruct (a <=? 100)%float; cbv; lia.
  - apply getAccuracyLevel_cases.
  - intros Hn. rewrite !DoubleFacts.leb_rank.
    rewrite DoubleFacts.is_nan_rank in Hn.
    destruct (Double.rankf a); [discriminate|reflexivity].
Qed.

Lemma getAccuracyLevel_monotone_witness :
  (5 <=? 75)%float = true
  /\ (severity (GeolocationService.getAccuracyLevel 5%float)
      <= severity (GeolocationService.getAccuracyLevel 75%float))%nat
  /\ is_nan nan = true
  /\ GeolocationService.getAccuracyLevel nan = "poor"%string.
Proof.
  assert (H : (5 <=? 75)%float = true) by reflexivity.
  assert (N : is_nan nan = true) by reflexivity.
  split; [exact H|]. split.
  - exact (proj1 (getAccuracyLevel_monotone 5%float 75%float) H).
  - split; [exact N|].
    exact (proj2 (proj2 (getAccuracyLevel_monotone nan nan)) N).
Defined.

(** ** Colours of the accuracy rating *)

(** X4.  Both colour tables cover the four levels: the service's [switch]
    never falls through to [undefined], the component's never reaches its
    [default], and two accuracies get the same colour exactly when they get
    the same level. *)
Theorem accuracy_colours_cover_levels (a b : number) :
  (exists colour, GeolocationService.getAccuracyColor a = Some colour)
  /\ LocationTracker.getAccuracyBadgeColor a <> "bg-gray-100 text-gray-800"%string
  /\ (GeolocationService.getAccuracyColor a = GeolocationService.getAccuracyColor b
      <-> GeolocationService.getAccuracyLevel a
          = GeolocationService.getAccuracyLevel b)
  /\ (LocationTracker.getAccuracyBadgeColor a
      = LocationTracker.getAccuracyBadgeColor b
      <-> GeolocationService.getAccuracyLevel a
          = GeolocationService.getAccuracyLevel b).
Proof.
  unfold GeolocationService.getAccuracyColor, LocationTracker.getAccuracyBadgeColor.
  pose proof (getAccuracyLevel_cases a) as Ha.
  pose proof (getAccuracyLevel_cases b) as Hb.
  cbn [In] in Ha, Hb.
  repeat match goal with
         | D : _ \/ _ |- _ => destruct D as [D|D]
         | D : False |- _ => destruct D
         end;
    rewrite <- Ha, <- Hb; cbn;
    (split; [eexists; reflexivity|]);
    (split; [discriminate|]);
    split; split; intros E; try reflexivity; try discriminate E.
Qed.

(** ** The zoom level follows the accuracy rating *)

(** Two doubles that [=?] tells apart are different. *)
Lemma float_neq (x y : number) : (x =? y)%float = false -> is_nan x = false -> x <> y.
Proof.
  intros H N E. subst y. unfold is_nan in N.
  rewrite H in N. discriminate N.
Qed.

(** X5.  [getOptimalZoom] cuts the accuracy at the thresholds of
    [getAccuracyLevel] and one more: the zoom is 18, 16 or 15 exactly for the
    levels [excellent], [good] and [fair], and 14 or 13 for [poor]; and a
    larger accuracy radius never gives a closer zoom. *)
Theorem getOptimalZoom_follows_level (a b : number) :
  (GeolocationService.getAccuracyLevel a = "excellent"%string
   <-> MapUtils.getOptimalZoom a = 18%float)
  /\ (GeolocationService.getAccuracyLevel a = "good"%string
      <-> MapUtils.getOptimalZoom a = 16%float)
  /\ (GeolocationService.getAccuracyLevel a = "fair"%string
      <-> MapUtils.getOptimalZoom a = 15%float)
  /\ (GeolocationService.getAccuracyLevel a = "poor"%string
      <-> MapUtils.getOptimalZoom a = 14%float
          \/ MapUtils.getOptimalZoom a = 13%float)
  /\ ((a <=? b)%float = true ->
      (MapUtils.getOptimalZoom b <=? MapUtils.getOptimalZoom a)%float = true).
Proof.
  assert (Hne : forall x y : number,
             (x =? y)%float = false -> is_nan x = false -> x = y -> False)
    by (intros x y H N; exact (float_neq x y H N)).
  unfold GeolocationService.getAccuracyLevel, MapUtils.getOptimalZoom.
  split; [|split; [|split; [|split]]].
  1-4: destruct (a <=? 10)%float, (a <=? 50)%float, (a <=? 100)%float,
         (a <=? 500)%float;
       (split; [intros E; try discriminate E; auto
               |intros E; try reflexivity;
                repeat match goal with
                       | D : _ \/ _ |- _ => destruct D
                       end;
                exfalso;
                match goal with
                | D : _ = _ |- _ => revert D; apply Hne; reflexivity
                end]).
  intros Hab.
  pose proof (threshold_le a b 10%float Hab) as H10.
  pose proof (threshold_le a b 50%float Hab) as H50.
  pose proof (threshold_le a b 100%float Hab) as H100.
  pose proof (threshold_le a b 500%float Hab) as H500.
  destruct (b <=? 10)%float.
  { rewrite (H10 eq_refl). reflexivity. }
  destruct (b <=? 50)%float.
  { rewrite (H50 eq_refl). destruct (a <=? 10)%float; reflexivity. }
  destruct (b <=? 100)%float.
  { rewrite (H100 eq_refl).
    destruct (a <=? 10)%float, (a <=? 50)%float; reflexivity. }
  destruct (b <=? 500)%float.
  { rewrite (H500 eq_refl).
    destruct (a <=? 10)%float, (a <=? 50)%float, (a <=? 100)%float;
      reflexivity. }
  destruct (a <=? 10)%float, (a <=? 50)%float, (a <=? 100)%float,
    (a <=? 500)%float; reflexivity.
Qed.

Lemma getOptimalZoom_follows_level_witness :
  (30 <=? 250)%float = true
  /\ (MapUtils.getOptimalZoom 250 <=? MapUtils.getOptimalZoom 30)%float = true.
Proof.
  assert (H : (30 <=? 250)%float = true) by reflexivity.
  split; [exact H|].
  exact (proj2 (proj2 (proj2 (proj2
           (getOptimalZoom_follows_level 30%float 250%float)))) H).
Defined.

(** ** When the distance is not a number *)

Section DistanceNaN.

Local Open Scope float_scope.

Variable M : Math.t.

Lemma half_angle_sine_not_finite (d : number) :
  standard_sin M -> is_finite d = false -> half_angle_sine M d = nan.
Proof.
  intros [_ [Hnan [Hinf Hninf]]] H. unfold half_angle_sine.
  assert (N : is_finite (d * (Math.PI / 180) / 2) = false).
  { apply (DoubleFacts.div_not_finite _ 2 false 4503599627370496 (-51));
      [reflexivity|].
    apply (DoubleFacts.mul_not_finite _ _ false 5030569068109113 (-58));
      [reflexivity|].
    exact H. }
  destruct (DoubleFacts.not_finite_cases _ N) as [E|[E|E]]; rewrite E;
    assumption.
Qed.

Lemma haversine_sum_not_finite (lat1 lon1 lat2 lon2 : number) :
  standard_sin M ->
  is_finite lat1 && is_finite lon1 && is_finite lat2 && is_finite lon2 = false ->
  haversine_sum M lat1 lon1 lat2 lon2 = nan.
Proof.
  intros Hs H. unfold haversine_sum.
  assert (C : is_finite lat1 && is_finite lat2 = false
              \/ is_finite lon1 && is_finite lon2 = false).
  { destruct (is_finite lat1), (is_finite lat2), (is_finite lon1),
      (is_finite lon2); cbn in *; auto; discriminate. }
  destruct C as [C|C].
  - rewrite (half_angle_sine_not_finite _ Hs (DoubleFacts.sub_not_finite _ _ C)).
    apply DoubleFacts.add_nan_l.
  - rewrite (half_angle_sine_not_finite _ Hs (DoubleFacts.sub_not_finite _ _ C)).
    rewrite !DoubleFacts.mul_nan_r. apply DoubleFacts.add_nan_r.
Qed.

Lemma calculateDistance_nan_root (lat1 lon1 lat2 lon2 : number) :
  standard_atan2 M ->
  is_nan (Math.sqrt (haversine_sum M lat1 lon1 lat2 lon2))
  || is_nan (Math.sqrt (1 - haversine_sum M lat1 lon1 lat2 lon2)) = true ->
  calculateDistance M lat1 lon1 lat2 lon2 = nan.
Proof.
  intros [Hatan _] H. rewrite calculateDistance_of_sum, (Hatan _ _ H).
  reflexivity.
Qed.

End DistanceNaN.

(** X6.  On a host whose [Math.sin] and [Math.atan2] have the values that
    the standard prescribes, [calculateDistance] returns [NaN] as soon as one
    of the four coordinates is [NaN] or infinite.  It has no guard on the
    constant [a] either: whenever [a] comes out above [1], or below [0], a
    square root is [NaN] and so is the distance. *)
Theorem calculateDistance_not_a_number
        (M : Math.t) (lat1 lon1 lat2 lon2 : number) :
  standard_sin M -> standard_atan2 M ->
  (is_finite lat1 && is_finite lon1 && is_finite lat2 && is_finite lon2 = false ->
   calculateDistance M lat1 lon1 lat2 lon2 = nan)
  /\ ((1 <? haversine_sum M lat1 lon1 lat2 lon2)%float = true ->
      calculateDistance M lat1 lon1 lat2 lon2 = nan)
  /\ ((haversine_sum M lat1 lon1 lat2 lon2 <? 0)%float = true ->
      calculateDistance M lat1 lon1 lat2 lon2 = nan).
Proof.
  intros Hs Ha. split; [|split]; intros H; apply calculateDistance_nan_root;
    try exact Ha.
  - rewrite (haversine_sum_not_finite M _ _ _ _ Hs H). reflexivity.
  - unfold Math.sqrt at 2.
    rewrite (DoubleFacts.sqrt_negative _ (DoubleFacts.one_minus_above _ H)).
    apply orb_true_r.
  - unfold Math.sqrt at 1.
    rewrite (DoubleFacts.sqrt_negative _ (DoubleFacts.below_zero _ H)).
    reflexivity.
Qed.

(** A first point whose latitude is [NaN]. *)
Lemma calculateDistance_not_a_number_witness :
  let M := Scenario.crude_math in
  (standard_sin M /\ standard_atan2 M)
  /\ calculateDistance M nan 10%float 37.5%float (-122.5)%float = nan.
Proof.
  intros M.
  pose proof crude_math_conforms as [Hsin [Hatan _]].
  split; [auto|].
  exact (proj1 (calculateDistance_not_a_number M nan 10%float 37.5%float
                  (-122.5)%float Hsin Hatan) eq_refl).
Defined.

(** ** A single request, in one piece and in two halves *)

(** [getCurrentPosition] is its first half followed, when a request went
    out, by its second half. *)
Lemma getCurrentPosition_split (h : UseGeolocation.t) (nav : Navigator.t)
      (answer : Navigator.outcome) :
  UseGeolocation.getCurrentPosition h nav answer
  = let (h1, sent) := UseGeolocation.requestSent h in
    if sent then Normal (UseGeolocation.requestSettled h1 nav answer)
    else Normal (h1, None).
Proof.
  unfold UseGeolocation.getCurrentPosition, UseGeolocation.requestSent,
    UseGeolocation.requestSettled.
  destruct (negb (UseGeolocation.isSupported (UseGeolocation.state h)));
    [reflexivity|].
  destruct (GeolocationService.getCurrentPosition nav answer); reflexivity.
Qed.

(** ** The component over its life: what every event preserves *)

Section LifecycleFacts.

Import Navigator.

Lemma append_ends_with {A : Type} (prev : list A) (x : A) :
  exists older, History.append prev x = older ++ [x].
Proof.
  rewrite WindowFacts.append_skipn.
  exists (skipn (length prev + 1 - 100) prev).
  apply JsArrayFacts.skipn_app_le. lia.
Qed.

(** A step of the hook that leaves the two refs and [isSupported] alone
    does not disturb the watch. *)
Lemma watch_agrees_refs (nav0 nav : Navigator.t) (h h' : UseGeolocation.t) :
  watch_agrees nav0 nav h ->
  UseGeolocation.isSupported (UseGeolocation.state h')
  = UseGeolocation.isSupported (UseGeolocation.state h) ->
  GeolocationService.watchId (UseGeolocation.geolocationService h')
  = GeolocationService.watchId (UseGeolocation.geolocationService h) ->
  UseGeolocation.isWatching h' = UseGeolocation.isWatching h ->
  watch_agrees nav0 nav h'.
Proof.
  unfold watch_agrees. intros [H1 [H2 [H3 H4]]] Es Ew Ei.
  rewrite Es, Ew, Ei. auto.
Qed.

(** Clearing a watch that was handed out after the start leaves the
    watches of the start in place. *)
Lemma clear_later_watch (nav0 : Navigator.t) (id : Z) :
  fresh_ids nav0 = true -> next_watch nav0 <= id ->
  filter (fun w => negb (w =? id)) (watches nav0) = watches nav0.
Proof.
  unfold fresh_ids. intros Hf Hid.
  induction (watches nav0) as [|w ws IH]; [reflexivity|].
  cbn [forallb] in Hf. apply andb_prop in Hf. destruct Hf as [Hw Hws].
  apply Z.ltb_lt in Hw. cbn [filter].
  destruct (Z.eqb_spec w id) as [E|N]; [lia|].
  cbn [negb]. f_equal. exact (IH Hws).
Qed.

Lemma startWatching_agrees (nav0 nav : Navigator.t) (h : UseGeolocation.t) :
  watch_agrees nav0 nav h ->
  watch_agrees nav0 (snd (UseGeolocation.startWatching h nav))
               (fst (UseGeolocation.startWatching h nav)).
Proof.
  intros H. pose proof H as [H1 [H2 [H3 H4]]].
  unfold UseGeolocation.startWatching.
  destruct (UseGeolocation.isSupported (UseGeolocation.state h)) eqn:Es;
    cbn [negb orb]; [|exact H].
  destruct (UseGeolocation.isWatching h) eqn:Ew; [exact H|].
  unfold GeolocationService.startWatching,
    GeolocationService.isGeolocationSupported.
  rewrite H1, <- H2. cbn [negb watchPosition fst snd].
  destruct (GeolocationService.watchId (UseGeolocation.geolocationService h))
    as [id|] eqn:Eid; [destruct H4 as [H4 _]; discriminate H4|].
  destruct H4 as [_ H4].
  unfold watch_agrees.
  cbn [has_geolocation next_watch watches UseGeolocation.state
       UseGeolocation.geolocationService UseGeolocation.isWatching
       GeolocationService.watchId UseGeolocation.updateState
       UseGeolocation.isSupported UseGeolocation.merge
       UseGeolocation.u_isSupported].
  rewrite H4, Es. repeat split; auto; lia.
Qed.

Lemma stopWatching_agrees (nav0 nav : Navigator.t) (h : UseGeolocation.t) :
  fresh_ids nav0 = true ->
  watch_agrees nav0 nav h ->
  watch_agrees nav0 (snd (UseGeolocation.stopWatching h nav))
               (fst (UseGeolocation.stopWatching h nav))
  /\ UseGeolocation.isWatching (fst (UseGeolocation.stopWatching h nav)) = false.
Proof.
  intros Hf H. pose proof H as [H1 [H2 [H3 H4]]].
  unfold UseGeolocation.stopWatching.
  destruct (UseGeolocation.isWatching h) eqn:Ew; [|split; [exact H|exact Ew]].
  unfold GeolocationService.stopWatching.
  destruct (GeolocationService.watchId (UseGeolocation.geolocationService h))
    as [id|] eqn:Eid; [|destruct H4 as [H4 _]; discriminate H4].
  destruct H4 as [_ [H4 H5]].
  cbn [fst snd]. split; [|reflexivity].
  unfold watch_agrees, clearWatch.
  cbn [has_geolocation next_watch watches UseGeolocation.state
       UseGeolocation.geolocationService UseGeolocation.isWatching
       GeolocationService.watchId UseGeolocation.updateState
       UseGeolocation.isSupported UseGeolocation.merge
       UseGeolocation.u_isSupported].
  rewrite H4. cbn [filter]. rewrite Z.eqb_refl. cbn [negb].
  rewrite (clear_later_watch nav0 id Hf) by lia.
  repeat split; auto.
Qed.

Lemma deliver_kept (nav0 nav : Navigator.t) (loaded : list (LocationData number))
      (c c' : LocationTracker.t) (h : UseGeolocation.t) (l : LocationData number) :
  watch_agrees nav0 nav h ->
  (forall e, UseGeolocation.error (UseGeolocation.state h) = Some e ->
             worded_by_service e) ->
  UseGeolocation.location (UseGeolocation.state h) = Some l ->
  LocationTracker.deliver c h = Normal c' ->
  well_kept nav0 loaded (nav, c').
Proof.
  intros Hw He Hl. unfold LocationTracker.deliver. rewrite Hl.
  unfold LocationTracker.locationEffect.
  destruct (LocationTracker.persist _ l) as [slot|]; cbn [bind];
    [|discriminate].
  intros E. injection E as <-.
  unfold well_kept, location_is_newest.
  cbn [fst snd LocationTracker.hook LocationTracker.with_hook
       LocationTracker.locationHistory].
  rewrite Hl. split; [exact Hw|]. split; [exact He|].
  apply append_ends_with.
Qed.

(** Replacing the hook by one that agrees with the host, has the same
    location and recorded position, and errors worded by the service. *)
Lemma hook_replaced (nav0 nav nav' : Navigator.t)
      (loaded : list (LocationData number))
      (c : LocationTracker.t) (h' : UseGeolocation.t) :
  well_kept nav0 loaded (nav, c) ->
  watch_agrees nav0 nav' h' ->
  UseGeolocation.location (UseGeolocation.state h')
  = UseGeolocation.location (UseGeolocation.state (LocationTracker.hook c)) ->
  UseGeolocation.getLastKnownPosition h'
  = UseGeolocation.getLastKnownPosition (LocationTracker.hook c) ->
  (forall e, UseGeolocation.error (UseGeolocation.state h') = Some e ->
             worded_by_service e) ->
  well_kept nav0 loaded (nav', LocationTracker.with_hook c h').
Proof.
  intros [Hw [He Hn]] Hw' El Ek He'.
  unfold well_kept, location_is_newest in *.
  cbn [fst snd LocationTracker.hook LocationTracker.with_hook
       LocationTracker.locationHistory] in *.
  rewrite El, Ek. auto.
Qed.

Lemma with_hook_kept (nav0 nav : Navigator.t) (loaded : list (LocationData number))
      (c : LocationTracker.t) (h' : UseGeolocation.t) :
  well_kept nav0 loaded (nav, c) ->
  UseGeolocation.isSupported (UseGeolocation.state h')
  = UseGeolocation.isSupported (UseGeolocation.state (LocationTracker.hook c)) ->
  GeolocationService.watchId (UseGeolocation.geolocationService h')
  = GeolocationService.watchId
      (UseGeolocation.geolocationService (LocationTracker.hook c)) ->
  UseGeolocation.isWatching h' = UseGeolocation.isWatching (LocationTracker.hook c) ->
  UseGeolocation.location (UseGeolocation.state h')
  = UseGeolocation.location (UseGeolocation.state (LocationTracker.hook c)) ->
  UseGeolocation.getLastKnownPosition h'
  = UseGeolocation.getLastKnownPosition (LocationTracker.hook c) ->
  (forall e, UseGeolocation.error (UseGeolocation.state h') = Some e ->
             worded_by_service e) ->
  well_kept nav0 loaded (nav, LocationTracker.with_hook c h').
Proof.
  intros Hk Es Ew Ei El Ek He'.
  apply (hook_replaced nav0 nav nav loaded c h' Hk); auto.
  destruct Hk as [Hw _].
  now apply (watch_agrees_refs nav0 nav (LocationTracker.hook c)).
Qed.

Lemma worded_code (k : Z) :
  worded_by_service (mkError (Some k) (GeolocationService.getErrorMessage k)).
Proof. exists k. cbn. auto. Qed.

Lemma worded_unsupported :
  worded_by_service (mkError (Some 0) GeolocationService.unsupported_message).
Proof. exists 0. cbn. auto. Qed.

(** What [startWatching] and [stopWatching] leave alone. *)
Lemma startWatching_rest (h : UseGeolocation.t) (nav : Navigator.t) :
  let h' := fst (UseGeolocation.startWatching h nav) in
  UseGeolocation.location (UseGeolocation.state h')
  = UseGeolocation.location (UseGeolocation.state h)
  /\ UseGeolocation.getLastKnownPosition h' = UseGeolocation.getLastKnownPosition h
  /\ UseGeolocation.permission (UseGeolocation.state h')
     = UseGeolocation.permission (UseGeolocation.state h)
  /\ (forall e, UseGeolocation.error (UseGeolocation.state h') = Some e ->
                UseGeolocation.error (UseGeolocation.state h) = Some e
                \/ e = mkError (Some 0) GeolocationService.unsupported_message).
Proof.
  unfold UseGeolocation.startWatching.
  destruct (negb (UseGeolocation.isSupported (UseGeolocation.state h))
            || UseGeolocation.isWatching h); cbn [fst]; [auto|].
  unfold GeolocationService.startWatching.
  destruct (negb (GeolocationService.isGeolocationSupported nav));
    cbn; repeat split; intros e E; [|discriminate E].
  injection E as <-. auto.
Qed.

Lemma stopWatching_rest (h : UseGeolocation.t) (nav : Navigator.t) :
  let h' := fst (UseGeolocation.stopWatching h nav) in
  UseGeolocation.location (UseGeolocation.state h')
  = UseGeolocation.location (UseGeolocation.state h)
  /\ UseGeolocation.getLastKnownPosition h' = UseGeolocation.getLastKnownPosition h
  /\ UseGeolocation.permission (UseGeolocation.state h')
     = UseGeolocation.permission (UseGeolocation.state h)
  /\ UseGeolocation.error (UseGeolocation.state h')
     = UseGeolocation.error (UseGeolocation.state h).
Proof.
  unfold UseGeolocation.stopWatching, GeolocationService.stopWatching.
  destruct (UseGeolocation.isWatching h); cbn [fst]; [|auto].
  destruct (GeolocationService.watchId (UseGeolocation.geolocationService h));
    cbn; auto.
Qed.

Lemma startWatching_kept (nav0 nav : Navigator.t)
      (loaded : list (LocationData number)) (c : LocationTracker.t) :
  well_kept nav0 loaded (nav, c) ->
  well_kept nav0 loaded
    (Lifecycle.on_hook UseGeolocation.startWatching (nav, c)).
Proof.
  intros Hk. pose proof Hk as [Hw [He _]]. cbn [fst snd] in Hw, He.
  unfold Lifecycle.on_hook.
  pose proof (startWatching_agrees nav0 nav _ Hw) as Hw'.
  pose proof (startWatching_rest (LocationTracker.hook c) nav) as [El [Ek [_ Ee]]].
  destruct (UseGeolocation.startWatching (LocationTracker.hook c) nav)
    as [h' nav'].
  cbn [fst snd] in *.
  apply (hook_replaced nav0 nav nav' loaded c h' Hk); auto.
  intros e E. destruct (Ee e E) as [E'| ->];
    [now apply He|apply worded_unsupported].
Qed.

Lemma stopWatching_kept (nav0 nav : Navigator.t)
      (loaded : list (LocationData number)) (c : LocationTracker.t) :
  fresh_ids nav0 = true ->
  well_kept nav0 loaded (nav, c) ->
  well_kept nav0 loaded
    (Lifecycle.on_hook UseGeolocation.stopWatching (nav, c)).
Proof.
  intros Hf Hk. pose proof Hk as [Hw [He _]]. cbn [fst snd] in Hw, He.
  unfold Lifecycle.on_hook.
  pose proof (stopWatching_agrees nav0 nav _ Hf Hw) as [Hw' _].
  pose proof (stopWatching_rest (LocationTracker.hook c) nav) as [El [Ek [_ Ee]]].
  destruct (UseGeolocation.stopWatching (LocationTracker.hook c) nav)
    as [h' nav'].
  cbn [fst snd] in *.
  apply (hook_replaced nav0 nav nav' loaded c h' Hk); auto.
  rewrite Ee. exact He.
Qed.

Lemma component_step_kept (nav0 : Navigator.t) (loaded : list (LocationData number))
      (w w' : Navigator.t * LocationTracker.t) (e : LocationTracker.event) :
  fresh_ids nav0 = true ->
  well_kept nav0 loaded w ->
  LocationTracker.step w e = Normal w' ->
  well_kept nav0 loaded w'.
Proof.
  intros Hf Hk. destruct w as [nav c].
  pose proof Hk as [Hw [He Hn]]. cbn [fst snd] in Hw, He.
  pose proof Hw as [H1 [H2 _]].
  destruct e as [answer| | | |id position|id k|position];
    cbn [LocationTracker.step].
  - (* getCurrentPosition *)
    unfold UseGeolocation.getCurrentPosition,
      GeolocationService.getCurrentPosition,
      GeolocationService.isGeolocationSupported.
    rewrite H1, <- H2.
    destruct (UseGeolocation.isSupported
                (UseGeolocation.state (LocationTracker.hook c))) eqn:Es;
      cbn [negb].
    + destruct answer as [position|k].
      * destruct (LocationTracker.deliver c _) as [c'|] eqn:Ed; cbn [bind];
          [|discriminate].
        intros E. injection E as <-.
        eapply deliver_kept; [| | |exact Ed].
        -- eapply watch_agrees_refs; [exact Hw|..]; cbn; auto.
        -- cbn. intros e E. discriminate E.
        -- reflexivity.
      * intros E. injection E as <-.
        apply with_hook_kept; auto.
        cbn. intros e E. injection E as <-. apply worded_code.
    + intros E. injection E as <-.
      apply with_hook_kept; auto.
      cbn. intros e E. injection E as <-. apply worded_unsupported.
  - (* startWatching *)
    pose proof (startWatching_kept nav0 nav loaded c Hk) as Hk'.
    unfold Lifecycle.on_hook in Hk'.
    destruct (UseGeolocation.startWatching (LocationTracker.hook c) nav)
      as [h' nav'].
    intros E. injection E as <-. exact Hk'.
  - (* stopWatching *)
    pose proof (stopWatching_kept nav0 nav loaded c Hf Hk) as Hk'.
    unfold Lifecycle.on_hook in Hk'.
    destruct (UseGeolocation.stopWatching (LocationTracker.hook c) nav)
      as [h' nav'].
    intros E. injection E as <-. exact Hk'.
  - (* clearError *)
    intros E. injection E as <-.
    apply with_hook_kept; auto.
    cbn. intros e E. discriminate E.
  - (* a position from the host *)
    destruct (serves nav id); [|intros E; injection E as <-; exact Hk].
    destruct (LocationTracker.deliver c _) as [c'|] eqn:Ed; cbn [bind];
      [|discriminate].
    intros E. injection E as <-.
    eapply deliver_kept; [| | |exact Ed].
    + eapply watch_agrees_refs; [exact Hw|..]; cbn; auto.
    + cbn. exact He.
    + reflexivity.
  - (* an error from the host *)
    destruct (serves nav id); [|intros E; injection E as <-; exact Hk].
    intros E. injection E as <-.
    apply with_hook_kept; auto.
    cbn. intros e E. injection E as <-. apply worded_code.
  - (* a late position *)
    destruct (LocationTracker.deliver c _) as [c'|] eqn:Ed; cbn [bind];
      [|discriminate].
    intros E. injection E as <-.
    eapply deliver_kept; [| | |exact Ed].
    + eapply watch_agrees_refs; [exact Hw|..]; cbn; auto.
    + cbn. exact He.
    + reflexivity.
Qed.

Lemma lifecycle_step_kept (autoStart : bool) (nav0 : Navigator.t)
      (loaded : list (LocationData number))
      (w w' : Navigator.t * LocationTracker.t) (e : Lifecycle.event) :
  fresh_ids nav0 = true ->
  well_kept nav0 loaded w ->
  Lifecycle.step autoStart w e = Normal w' ->
  well_kept nav0 loaded w'.
Proof.
  intros Hf Hk. destruct e as [e|permissions| | |answer]; cbn [Lifecycle.step].
  - now apply component_step_kept.
  - intros E. injection E as <-. destruct w as [nav c].
    unfold Lifecycle.on_hook. cbn [fst snd].
    destruct (checkPermission_state (LocationTracker.hook c) permissions)
      as [p [Es [Ei Eg]]].
    apply with_hook_kept; auto.
    + rewrite Es. reflexivity.
    + rewrite Eg. reflexivity.
    + rewrite Es. reflexivity.
    + unfold UseGeolocation.getLastKnownPosition. rewrite Eg. reflexivity.
    + rewrite Es. cbn. apply Hk.
  - intros E. injection E as <-. destruct w as [nav c].
    unfold Lifecycle.rerun, UseGeolocation.autoStartCleanup,
      UseGeolocation.autoStartEffect.
    assert (Hk1 : well_kept nav0 loaded
                    (Lifecycle.on_hook
                       (fun h nav =>
                          if UseGeolocation.isWatching h
                          then UseGeolocation.stopWatching h nav
                          else (h, nav)) (nav, c))).
    { pose proof (stopWatching_kept nav0 nav loaded c Hf Hk) as Hs.
      unfold Lifecycle.on_hook in *.
      destruct (UseGeolocation.isWatching (LocationTracker.hook c));
        [exact Hs|].
      destruct c; exact Hk. }
    destruct (Lifecycle.on_hook _ (nav, c)) as [nav1 c1].
    pose proof (startWatching_kept nav0 nav1 loaded c1 Hk1) as Hs.
    unfold Lifecycle.on_hook in *.
    destruct (autoStart && _); [exact Hs|].
    destruct c1; exact Hk1.
  - intros E. injection E as <-. destruct w as [nav c].
    unfold Lifecycle.on_hook, UseGeolocation.requestSent. cbn [fst snd].
    destruct (negb (UseGeolocation.isSupported
                      (UseGeolocation.state (LocationTracker.hook c))));
      cbn [fst]; apply with_hook_kept; auto; cbn; intros e E.
    + injection E as <-. apply worded_unsupported.
    + discriminate E.
  - destruct w as [nav c].
    pose proof Hk as [Hw [He Hn]]. cbn [fst snd] in Hw, He.
    pose proof Hw as [H1 [H2 _]].
    destruct (UseGeolocation.isSupported
                (UseGeolocation.state (LocationTracker.hook c))) eqn:Es;
      [|intros E; injection E as <-; exact Hk].
    unfold UseGeolocation.requestSettled, GeolocationService.getCurrentPosition,
      GeolocationService.isGeolocationSupported.
    rewrite H1, <- H2. cbn [negb].
    destruct answer as [position|k].
    + destruct (LocationTracker.deliver c _) as [c'|] eqn:Ed; cbn [bind];
        [|discriminate].
      intros E. injection E as <-.
      eapply deliver_kept; [| | |exact Ed].
      * eapply watch_agrees_refs; [exact Hw|..]; cbn; auto.
      * cbn. exact He.
      * reflexivity.
    + intros E. injection E as <-.
      apply with_hook_kept; auto.
      cbn. intros e E. injection E as <-. apply worded_code.
Qed.

Lemma lifecycle_run_kept (autoStart : bool) (nav0 : Navigator.t)
      (loaded : list (LocationData number)) (es : list Lifecycle.event)
      (w w' : Navigator.t * LocationTracker.t) :
  fresh_ids nav0 = true ->
  well_kept nav0 loaded w ->
  Lifecycle.run autoStart w es = Normal w' ->
  well_kept nav0 loaded w'.
Proof.
  intros Hf. revert w. induction es as [|e es IH]; intros w Hk.
  - cbn. intros E. injection E as <-. exact Hk.
  - cbn [Lifecycle.run].
    destruct (Lifecycle.step autoStart w e) as [w1|] eqn:Es; cbn [bind];
      [|discriminate].
    apply IH. eapply lifecycle_step_kept; eauto.
Qed.

Lemma mount_kept (nav0 : Navigator.t) (slot : option Js.text)
      (c0 : LocationTracker.t) :
  LocationTracker.mount nav0 slot = Some c0 ->
  well_kept nav0 (LocationTracker.locationHistory c0) (nav0, c0).
Proof.
  unfold LocationTracker.mount.
  assert (H : forall loaded,
             well_kept nav0 loaded
               (nav0, LocationTracker.mk (UseGeolocation.init nav0) loaded slot)).
  { intros loaded. unfold well_kept, watch_agrees, location_is_newest.
    cbn. repeat split; auto; try lia. intros e E. discriminate E. }
  destruct (LocationTracker.hydrate slot) as [v|].
  - destruct (Js.asHistory v) as [h|]; [|discriminate].
    intros E. injection E as <-. apply H.
  - intros E. injection E as <-. apply H.
Qed.

Lemma fresh_not_in (nav0 : Navigator.t) (id : Z) :
  fresh_ids nav0 = true -> next_watch nav0 <= id -> ~ In id (watches nav0).
Proof.
  unfold fresh_ids. intros Hf Hid Hin.
  rewrite forallb_forall in Hf. apply Hf in Hin.
  apply Z.ltb_lt in Hin. lia.
Qed.

End LifecycleFacts.

(** X8.  Whatever happens to a mounted component (its handlers and the
    host's callbacks in any order, a single request answered at once or
    after other events, the permission check settling, the auto-start effect
    re-running, with [autoStart] on or off), the host serves, on top of the
    watches it served at mount, exactly one watch when the hook says it is
    watching, the one whose id the service holds, and none when it says it
    is not.  No watch is registered twice and none is left behind. *)
Theorem hook_holds_at_most_one_watch
        (autoStart : bool) (nav0 nav : Navigator.t) (slot : option Js.text)
        (c0 c : LocationTracker.t) (es : list Lifecycle.event) :
  fresh_ids nav0 = true ->
  LocationTracker.mount nav0 slot = Some c0 ->
  Lifecycle.run autoStart (nav0, c0) es = Normal (nav, c) ->
  (UseGeolocation.isWatching (LocationTracker.hook c) = true ->
   exists id,
     GeolocationService.watchId
       (UseGeolocation.geolocationService (LocationTracker.hook c)) = Some id
     /\ Navigator.watches nav = id :: Navigator.watches nav0
     /\ ~ In id (Navigator.watches nav0))
  /\ (UseGeolocation.isWatching (LocationTracker.hook c) = false ->
      GeolocationService.watchId
        (UseGeolocation.geolocationService (LocationTracker.hook c)) = None
      /\ Navigator.watches nav = Navigator.watches nav0).
Proof.
  intros Hf Hm Hr.
  pose proof (lifecycle_run_kept autoStart nav0 _ es _ _ Hf
                (mount_kept nav0 slot c0 Hm) Hr) as [[_ [_ [_ Hw]]] _].
  cbn [fst snd] in Hw.
  destruct (GeolocationService.watchId
              (UseGeolocation.geolocationService (LocationTracker.hook c)))
    as [id|].
  - destruct Hw as [Hi [Hws Hid]]. split.
    + intros _. exists id. split; [reflexivity|]. split; [exact Hws|].
      apply fresh_not_in; [exact Hf|lia].
    + intros E. rewrite Hi in E. discriminate E.
  - destruct Hw as [Hi Hws]. split.
    + intros E. rewrite Hi in E. discriminate E.
    + intros _. auto.
Qed.

(** Start, a sample, a re-run of the effect, start again: one watch. *)
Lemma hook_holds_at_most_one_watch_witness :
  let es := [Lifecycle.Handle LocationTracker.StartWatching;
             Lifecycle.Handle (LocationTracker.HostPosition 0 Scenario.p1);
             Lifecycle.EffectRerun;
             Lifecycle.Handle LocationTracker.StartWatching;
             Lifecycle.Handle LocationTracker.StartWatching] in
  exists nav c,
    Lifecycle.run false (Scenario.browser, Scenario.mounted) es = Normal (nav, c)
    /\ UseGeolocation.isWatching (LocationTracker.hook c) = true
    /\ Navigator.watches nav = [1].
Proof.
  intros es. eexists. eexists.
  split; [reflexivity|]. split; [reflexivity|].
  destruct (proj1 (hook_holds_at_most_one_watch false Scenario.browser _ None
                     Scenario.mounted _ es eq_refl eq_refl eq_refl) eq_refl)
    as [id [Hid [Hws _]]].
  injection Hid as <-. exact Hws.
Defined.

(** X9.  Unmounting a component, in whatever state its life has left it,
    leaves the host serving exactly the watches it served before the
    component was mounted. *)
Theorem unmount_releases_the_watch
        (autoStart : bool) (nav0 nav : Navigator.t) (slot : option Js.text)
        (c0 c : LocationTracker.t) (es : list Lifecycle.event) :
  fresh_ids nav0 = true ->
  LocationTracker.mount nav0 slot = Some c0 ->
  Lifecycle.run autoStart (nav0, c0) es = Normal (nav, c) ->
  Navigator.watches (fst (Lifecycle.unmount (nav, c))) = Navigator.watches nav0.
Proof.
  intros Hf Hm Hr.
  pose proof (lifecycle_run_kept autoStart nav0 _ es _ _ Hf
                (mount_kept nav0 slot c0 Hm) Hr) as [Hw _].
  cbn [fst snd] in Hw.
  unfold Lifecycle.unmount, Lifecycle.on_hook,
    UseGeolocation.autoStartCleanup, UseGeolocation.unmountCleanup.
  destruct (UseGeolocation.isWatching (LocationTracker.hook c)) eqn:Ei.
  - destruct (stopWatching_agrees nav0 nav _ Hf Hw) as [Hw' Hi'].
    destruct (UseGeolocation.stopWatching (LocationTracker.hook c) nav)
      as [h' nav'].
    cbn [fst snd LocationTracker.hook LocationTracker.with_hook] in *.
    rewrite Hi'. cbn [fst].
    destruct Hw' as [_ [_ [_ Hw']]].
    destruct (GeolocationService.watchId (UseGeolocation.geolocationService h'));
      [destruct Hw' as [E _]; rewrite Hi' in E; discriminate E|].
    apply Hw'.
  - cbn [LocationTracker.hook LocationTracker.with_hook]. rewrite Ei.
    cbn [fst].
    destruct Hw as [_ [_ [_ Hw]]].
    destruct (GeolocationService.watchId
                (UseGeolocation.geolocationService (LocationTracker.hook c)));
      [destruct Hw as [E _]; rewrite Ei in E; discriminate E|].
    apply Hw.
Qed.

Lemma unmount_releases_the_watch_witness :
  let es := [Lifecycle.PermissionChecked (Some (Normal granted));
             Lifecycle.EffectRerun;
             Lifecycle.Handle (LocationTracker.HostPosition 0 Scenario.p1)] in
  exists nav c,
    Lifecycle.run true (Scenario.browser, Scenario.mounted) es = Normal (nav, c)
    /\ Navigator.watches nav = [0]
    /\ Navigator.watches (fst (Lifecycle.unmount (nav, c))) = [].
Proof.
  intros es. eexists. eexists.
  split; [reflexivity|]. split; [reflexivity|].
  exact (unmount_releases_the_watch true Scenario.browser _ None
           Scenario.mounted _ es eq_refl eq_refl eq_refl).
Defined.

(** X10.  Every error a mounted component ever shows was worded by the
    service: it carries a code, and its message is the service's message for
    that code or, under code [0], the "not supported" message.  The [Error]
    without a code that the service rejects with on an unsupported host never
    reaches the state, and neither does the hook's "Failed to check location
    permission". *)
Theorem stored_error_is_worded_by_service
        (autoStart : bool) (nav0 nav : Navigator.t) (slot : option Js.text)
        (c0 c : LocationTracker.t) (es : list Lifecycle.event)
        (e : GeolocationError) :
  fresh_ids nav0 = true ->
  LocationTracker.mount nav0 slot = Some c0 ->
  Lifecycle.run autoStart (nav0, c0) es = Normal (nav, c) ->
  UseGeolocation.error (UseGeolocation.state (LocationTracker.hook c)) = Some e ->
  (exists k,
     code e = Some k
     /\ (message e = GeolocationService.getErrorMessage k
         \/ (k = 0 /\ message e = GeolocationService.unsupported_message)))
  /\ message e <> "Failed to check location permission"%string.
Proof.
  intros Hf Hm Hr He.
  pose proof (lifecycle_run_kept autoStart nav0 _ es _ _ Hf
                (mount_kept nav0 slot c0 Hm) Hr) as [_ [Hw _]].
  cbn [fst snd] in Hw. specialize (Hw e He).
  split; [exact Hw|].
  destruct Hw as [k [_ [Hmsg|[_ Hmsg]]]]; rewrite Hmsg.
  - unfold GeolocationService.getErrorMessage.
    destruct k as [|[[]|[]|]|]; discriminate.
  - discriminate.
Qed.

Lemma stored_error_is_worded_by_service_witness :
  let es := [Lifecycle.PermissionChecked (Some (Throw TypeError));
             Lifecycle.Handle (LocationTracker.GetCurrentPosition
                                 (Navigator.Failure 3))] in
  exists nav c e,
    Lifecycle.run false (Scenario.browser, Scenario.mounted) es = Normal (nav, c)
    /\ UseGeolocation.error (UseGeolocation.state (LocationTracker.hook c)) = Some e
    /\ code e = Some 3
    /\ message e <> "Failed to check location permission"%string.
Proof.
  intros es. eexists. eexists. eexists.
  split; [reflexivity|]. split; [reflexivity|]. split; [reflexivity|].
  exact (proj2 (stored_error_is_worded_by_service false Scenario.browser _ None
                  Scenario.mounted _ es _ eq_refl eq_refl eq_refl eq_refl)).
Defined.

(** X11.  The location the hook reports is always the newest entry of the
    history buffer; and as long as it reports none, the buffer is exactly
    what the mount effect loaded and [getLastKnownPosition] returns
    [null]. *)
Theorem current_location_is_newest_entry
        (autoStart : bool) (nav0 nav : Navigator.t) (slot : option Js.text)
        (c0 c : LocationTracker.t) (es : list Lifecycle.event) :
  fresh_ids nav0 = true ->
  LocationTracker.mount nav0 slot = Some c0 ->
  Lifecycle.run autoStart (nav0, c0) es = Normal (nav, c) ->
  (forall l,
     UseGeolocation.location (UseGeolocation.state (LocationTracker.hook c))
     = Some l ->
     exists older, LocationTracker.locationHistory c = older ++ [l])
  /\ (UseGeolocation.hasLocation (LocationTracker.hook c) = false ->
      LocationTracker.locationHistory c = LocationTracker.locationHistory c0
      /\ UseGeolocation.getLastKnownPosition (LocationTracker.hook c) = None).
Proof.
  intros Hf Hm Hr.
  pose proof (lifecycle_run_kept autoStart nav0 _ es _ _ Hf
                (mount_kept nav0 slot c0 Hm) Hr) as [_ [_ Hn]].
  unfold location_is_newest, UseGeolocation.hasLocation in *. cbn [snd] in Hn.
  destruct (UseGeolocation.location
              (UseGeolocation.state (LocationTracker.hook c))) as [l|].
  - split; [|discriminate].
    intros l' E. injection E as <-. exact Hn.
  - split; [discriminate|]. intros _. exact Hn.
Qed.

Lemma current_location_is_newest_entry_witness :
  let es := [Lifecycle.Handle LocationTracker.StartWatching;
             Lifecycle.Handle (LocationTracker.HostPosition 0 Scenario.p1);
             Lifecycle.Handle (LocationTracker.GetCurrentPosition
                                 (Navigator.Success Scenario.p2))] in
  exists nav c,
    Lifecycle.run false (Scenario.browser, Scenario.mounted) es = Normal (nav, c)
    /\ exists older,
         LocationTracker.locationHistory c
         = older ++ [GeolocationService.locationData Scenario.p2].
Proof.
  intros es. eexists. eexists. split; [reflexivity|].
  exact (proj1 (current_location_is_newest_entry false Scenario.browser _ None
                  Scenario.mounted _ es eq_refl eq_refl eq_refl) _ eq_refl).
Defined.

(** ** Re-runs of the auto-start effect *)

(** X12.  When the auto-start effect re-runs (the cleanup of its previous
    run, then its body): with [watchPosition] off the hook is never watching
    afterwards, for a watch that was started by hand is stopped, at the host
    and in the hook, and not started again; with [watchPosition] on and the
    permission granted, the hook ends up watching under an id the host had
    not handed out before, so no re-run leaves the host as it found it. *)
Theorem auto_start_effect_rerun (nav : Navigator.t) (c : LocationTracker.t) :
  UseGeolocation.isWatching
    (LocationTracker.hook (snd (Lifecycle.rerun false (nav, c)))) = false
  /\ (UseGeolocation.isWatching (LocationTracker.hook c) = true ->
      Lifecycle.rerun false (nav, c)
      = Lifecycle.on_hook UseGeolocation.stopWatching (nav, c)
      /\ forall id,
           GeolocationService.watchId
             (UseGeolocation.geolocationService (LocationTracker.hook c))
           = Some id ->
           Navigator.serves (fst (Lifecycle.rerun false (nav, c))) id = false)
  /\ (UseGeolocation.isSupported (UseGeolocation.state (LocationTracker.hook c))
      = true ->
      Navigator.has_geolocation nav = true ->
      UseGeolocation.permission (UseGeolocation.state (LocationTracker.hook c))
      = Some granted ->
      let w' := Lifecycle.rerun true (nav, c) in
      UseGeolocation.isWatching (LocationTracker.hook (snd w')) = true
      /\ GeolocationService.watchId
           (UseGeolocation.geolocationService (LocationTracker.hook (snd w')))
         = Some (Navigator.next_watch nav)
      /\ Navigator.serves (fst w') (Navigator.next_watch nav) = true
      /\ Navigator.next_watch (fst w') = Navigator.next_watch nav + 1).
Proof.
  destruct c as [[[loc err ld perm sup] [wid last] watching] hist slot].
  cbn [LocationTracker.hook UseGeolocation.isWatching UseGeolocation.state
       UseGeolocation.geolocationService GeolocationService.watchId
       UseGeolocation.isSupported UseGeolocation.permission].
  split; [|split].
  - unfold Lifecycle.rerun, Lifecycle.on_hook, UseGeolocation.autoStartCleanup,
      UseGeolocation.autoStartEffect, UseGeolocation.stopWatching,
      GeolocationService.stopWatching.
    cbn [LocationTracker.hook UseGeolocation.isWatching UseGeolocation.state
         UseGeolocation.geolocationService GeolocationService.watchId andb].
    destruct watching, wid as [id|]; reflexivity.
  - intros ->.
    unfold Lifecycle.rerun, Lifecycle.on_hook, UseGeolocation.autoStartCleanup,
      UseGeolocation.autoStartEffect, UseGeolocation.stopWatching,
      GeolocationService.stopWatching.
    cbn [LocationTracker.hook UseGeolocation.isWatching UseGeolocation.state
         UseGeolocation.geolocationService GeolocationService.watchId andb].
    destruct wid as [id|]; cbn; (split; [reflexivity|]);
      intros id' E; [|discriminate E].
    injection E as <-. apply serves_clearWatch.
  - intros -> Hg ->.
    unfold Lifecycle.rerun, Lifecycle.on_hook, UseGeolocation.autoStartCleanup,
      UseGeolocation.autoStartEffect, UseGeolocation.stopWatching,
      UseGeolocation.startWatching, GeolocationService.stopWatching,
      GeolocationService.startWatching,
      GeolocationService.isGeolocationSupported.
    cbn [LocationTracker.hook UseGeolocation.isWatching UseGeolocation.state
         UseGeolocation.geolocationService GeolocationService.watchId].
    destruct watching, wid as [id|];
      cbn [LocationTracker.hook LocationTracker.with_hook
           UseGeolocation.isWatching UseGeolocation.state
           UseGeolocation.geolocationService GeolocationService.watchId
           UseGeolocation.updateState UseGeolocation.merge
           UseGeolocation.permission UseGeolocation.isSupported
           UseGeolocation.u_permission UseGeolocation.u_isSupported
           Navigator.clearWatch Navigator.has_geolocation andb negb orb
           fst snd];
      rewrite ?Hg;
      cbn [negb Navigator.watchPosition Navigator.next_watch fst snd
           LocationTracker.hook LocationTracker.with_hook
           UseGeolocation.isWatching UseGeolocation.geolocationService
           GeolocationService.watchId Navigator.serves Navigator.watches
           existsb];
      rewrite Z.eqb_refl; auto.
Qed.

(** Right after a click on "Start Tracking" the hook is watching: the
    re-run of the effect that follows the render stops it. *)
Lemma auto_start_effect_rerun_witness :
  let w := Scenario.tracking_started in
  UseGeolocation.isWatching (LocationTracker.hook (snd w)) = true
  /\ UseGeolocation.isWatching
       (LocationTracker.hook (snd (Lifecycle.rerun false (fst w, snd w))))
     = false
  /\ Navigator.watches (fst (Lifecycle.rerun false (fst w, snd w))) = [].
Proof.
  intros w.
  assert (H : UseGeolocation.isWatching (LocationTracker.hook (snd w)) = true)
    by reflexivity.
  split; [exact H|]. split; [|reflexivity].
  exact (proj1 (auto_start_effect_rerun (fst w) (snd w))).
Defined.

(** ** The permission state *)

Section PermissionFacts.

Lemma deliver_permission (c c' : LocationTracker.t) (h : UseGeolocation.t) :
  LocationTracker.deliver c h = Normal c' ->
  UseGeolocation.permission (UseGeolocation.state (LocationTracker.hook c'))
  = UseGeolocation.permission (UseGeolocation.state h).
Proof.
  unfold LocationTracker.deliver, LocationTracker.locationEffect.
  destruct (UseGeolocation.location (UseGeolocation.state h)) as [l|].
  - destruct (LocationTracker.persist _ l) as [slot|]; cbn [bind];
      [|discriminate].
    intros E. injection E as <-. reflexivity.
  - intros E. injection E as <-. reflexivity.
Qed.

Lemma getCurrentPosition_permission (h h' : UseGeolocation.t)
      (nav : Navigator.t) (answer : Navigator.outcome)
      (r : option (LocationData number)) :
  UseGeolocation.getCurrentPosition h nav answer = Normal (h', r) ->
  UseGeolocation.permission (UseGeolocation.state h')
  = UseGeolocation.permission (UseGeolocation.state h).
Proof.
  unfold UseGeolocation.getCurrentPosition.
  destruct (negb (UseGeolocation.isSupported (UseGeolocation.state h))).
  - intros E. injection E as <- _. reflexivity.
  - destruct (GeolocationService.getCurrentPosition nav answer);
      intros E; injection E as <- _; reflexivity.
Qed.

Lemma component_step_permission (w w' : Navigator.t * LocationTracker.t)
      (e : LocationTracker.event) :
  LocationTracker.step w e = Normal w' ->
  UseGeolocation.permission
    (UseGeolocation.state (LocationTracker.hook (snd w')))
  = UseGeolocation.permission
      (UseGeolocation.state (LocationTracker.hook (snd w))).
Proof.
  destruct w as [nav c].
  destruct e as [answer| | | |id position|id k|position];
    cbn [LocationTracker.step snd].
  - destruct (UseGeolocation.getCurrentPosition _ nav answer)
      as [[h [l|]]|err] eqn:Eg.
    + destruct (LocationTracker.deliver c h) as [c'|] eqn:Ed; cbn [bind];
        [|discriminate].
      intros E. injection E as <-. cbn [snd].
      rewrite (deliver_permission _ _ _ Ed).
      exact (getCurrentPosition_permission _ _ _ _ _ Eg).
    + intros E. injection E as <-. cbn [snd LocationTracker.with_hook
        LocationTracker.hook].
      exact (getCurrentPosition_permission _ _ _ _ _ Eg).
    + intros E. injection E as <-. reflexivity.
  - pose proof (startWatching_rest (LocationTracker.hook c) nav)
      as [_ [_ [Hp _]]].
    destruct (UseGeolocation.startWatching _ nav) as [h nav'].
    intros E. injection E as <-. exact Hp.
  - pose proof (stopWatching_rest (LocationTracker.hook c) nav)
      as [_ [_ [Hp _]]].
    destruct (UseGeolocation.stopWatching _ nav) as [h nav'].
    intros E. injection E as <-. exact Hp.
  - intros E. injection E as <-. reflexivity.
  - destruct (Navigator.serves nav id);
      [|intros E; injection E as <-; reflexivity].
    destruct (LocationTracker.deliver c _) as [c'|] eqn:Ed; cbn [bind];
      [|discriminate].
    intros E. injection E as <-. cbn [snd].
    rewrite (deliver_permission _ _ _ Ed). reflexivity.
  - destruct (Navigator.serves nav id); intros E; injection E as <-;
      reflexivity.
  - destruct (LocationTracker.deliver c _) as [c'|] eqn:Ed; cbn [bind];
      [|discriminate].
    intros E. injection E as <-. cbn [snd].
    rewrite (deliver_permission _ _ _ Ed). reflexivity.
Qed.

Lemma on_hook_permission
      (f : UseGeolocation.t -> Navigator.t -> UseGeolocation.t * Navigator.t)
      (w : Navigator.t * LocationTracker.t) :
  (forall h nav,
     UseGeolocation.permission (UseGeolocation.state (fst (f h nav)))
     = UseGeolocation.permission (UseGeolocation.state h)) ->
  UseGeolocation.permission
    (UseGeolocation.state (LocationTracker.hook (snd (Lifecycle.on_hook f w))))
  = UseGeolocation.permission
      (UseGeolocation.state (LocationTracker.hook (snd w))).
Proof.
  intros H. destruct w as [nav c]. unfold Lifecycle.on_hook.
  specialize (H (LocationTracker.hook c) nav).
  destruct (f (LocationTracker.hook c) nav) as [h nav']. exact H.
Qed.

Lemma lifecycle_step_permission (autoStart : bool)
      (w w' : Navigator.t * LocationTracker.t) (e : Lifecycle.event) :
  (forall permissions, e <> Lifecycle.PermissionChecked permissions) ->
  Lifecycle.step autoStart w e = Normal w' ->
  UseGeolocation.permission
    (UseGeolocation.state (LocationTracker.hook (snd w')))
  = UseGeolocation.permission
      (UseGeolocation.state (LocationTracker.hook (snd w))).
Proof.
  intros Hne.
  destruct e as [e|permissions| | |answer]; cbn [Lifecycle.step].
  - apply component_step_permission.
  - exfalso. exact (Hne permissions eq_refl).
  - intros E. injection E as <-. unfold Lifecycle.rerun.
    rewrite on_hook_permission, on_hook_permission; [reflexivity|..].
    + intros h nav. unfold UseGeolocation.autoStartCleanup.
      destruct (UseGeolocation.isWatching h); [|reflexivity].
      apply stopWatching_rest.
    + intros h nav. unfold UseGeolocation.autoStartEffect.
      destruct (autoStart && _); [|reflexivity].
      apply startWatching_rest.
  - intros E. injection E as <-. apply on_hook_permission.
    intros h nav. unfold UseGeolocation.requestSent.
    destruct (negb _); reflexivity.
  - destruct w as [nav c]. cbn [snd].
    destruct (UseGeolocation.isSupported _);
      [|intros E; injection E as <-; reflexivity].
    unfold UseGeolocation.requestSettled.
    destruct (GeolocationService.getCurrentPosition nav answer) as [l|err].
    + destruct (LocationTracker.deliver c _) as [c'|] eqn:Ed; cbn [bind];
        [|discriminate].
      intros E. injection E as <-. cbn [snd].
      rewrite (deliver_permission _ _ _ Ed). reflexivity.
    + intros E. injection E as <-. reflexivity.
Qed.

End PermissionFacts.

(** X13.  Only the permission check writes the [permission] field.  Whatever
    else happens (requests that succeed or fail with "permission denied",
    watches, re-runs of the effect), the field keeps the value it had; and
    [requestPermission], which never rejects, is among the things that leave
    it alone: a [denied] that the check at mount has stored survives a
    request the user has since allowed. *)
Theorem permission_changes_only_by_check
        (autoStart : bool) (w w' : Navigator.t * LocationTracker.t)
        (es : list Lifecycle.event) :
  (forall permissions, ~ In (Lifecycle.PermissionChecked permissions) es) ->
  Lifecycle.run autoStart w es = Normal w' ->
  UseGeolocation.permission
    (UseGeolocation.state (LocationTracker.hook (snd w')))
  = UseGeolocation.permission
      (UseGeolocation.state (LocationTracker.hook (snd w)))
  /\ forall nav answer,
       exists h',
         UseGeolocation.requestPermission (LocationTracker.hook (snd w')) nav answer
         = Normal h'
         /\ UseGeolocation.permission (UseGeolocation.state h')
            = UseGeolocation.permission
                (UseGeolocation.state (LocationTracker.hook (snd w))).
Proof.
  revert w. induction es as [|e es IH]; intros w Hne.
  - cbn. intros E. injection E as <-. split; [reflexivity|].
    intros nav answer. unfold UseGeolocation.requestPermission.
    destruct (UseGeolocation.getCurrentPosition _ nav answer)
      as [[h r]|err] eqn:Eg.
    + exists h. split; [reflexivity|].
      exact (getCurrentPosition_permission _ _ _ _ _ Eg).
    + exfalso. revert Eg. unfold UseGeolocation.getCurrentPosition.
      destruct (negb _); [discriminate|].
      destruct (GeolocationService.getCurrentPosition nav answer);
        discriminate.
  - cbn [Lifecycle.run].
    destruct (Lifecycle.step autoStart w e) as [w1|] eqn:Es; cbn [bind];
      [|discriminate].
    intros Hr.
    assert (Hp : UseGeolocation.permission
                   (UseGeolocation.state (LocationTracker.hook (snd w1)))
                 = UseGeolocation.permission
                     (UseGeolocation.state (LocationTracker.hook (snd w)))).
    { eapply lifecycle_step_permission; [|exact Es].
      intros permissions ->. apply (Hne permissions). left. reflexivity. }
    rewrite <- Hp. apply IH; [|exact Hr].
    intros permissions Hin. apply (Hne permissions). right. exact Hin.
Qed.

(** The check at mount says [denied]; a request then succeeds;
    [permission] is still [denied]. *)
Lemma permission_changes_only_by_check_witness :
  let w := match Lifecycle.run false (Scenario.browser, Scenario.mounted)
                   [Lifecycle.PermissionChecked (Some (Normal denied))] with
           | Normal w => w
           | Throw _ => (Scenario.browser, Scenario.mounted)
           end in
  let es := [Lifecycle.RequestSent;
             Lifecycle.RequestSettled (Navigator.Success Scenario.p1)] in
  exists w',
    Lifecycle.run false w es = Normal w'
    /\ UseGeolocation.hasLocation (LocationTracker.hook (snd w')) = true
    /\ UseGeolocation.permission
         (UseGeolocation.state (LocationTracker.hook (snd w'))) = Some denied.
Proof.
  intros w es. eexists. split; [reflexivity|]. split; [reflexivity|].
  refine (proj1 (permission_changes_only_by_check false w _ es _ eq_refl)).
  intros permissions [E|[E|[]]]; discriminate E.
Defined.

(** ** The buttons *)

(** X14.  On a host whose support for geolocation is what the hook recorded,
    and with a readable slot, no button handler throws.  "Get Current Location"
    and "Start Tracking" clear the error first, so an older error never
    survives them: after the first the error field is set exactly when this
    request failed, after the second it is empty and the hook is watching if
    geolocation is supported.  "Stop Tracking" leaves the hook not watching
    and the error as it was.  None of the three touches the history, except
    for the sample a successful request appends. *)
Theorem button_handlers
        (nav : Navigator.t) (c : LocationTracker.t) (answer : Navigator.outcome) :
  readable (LocationTracker.localStorage c) = true ->
  UseGeolocation.isSupported (UseGeolocation.state (LocationTracker.hook c))
  = Navigator.has_geolocation nav ->
  (exists c',
     LocationTracker.handleGetLocation (nav, c) answer = Normal (nav, c')
     /\ (UseGeolocation.error (UseGeolocation.state (LocationTracker.hook c'))
         = None
         <-> Navigator.has_geolocation nav = true
             /\ exists position, answer = Navigator.Success position)
     /\ LocationTracker.locationHistory c'
        = match answer with
          | Navigator.Success position =>
              if Navigator.has_geolocation nav
              then History.append (LocationTracker.locationHistory c)
                     (GeolocationService.locationData position)
              else LocationTracker.locationHistory c
          | Navigator.Failure _ => LocationTracker.locationHistory c
          end)
  /\ (exists nav' c',
        LocationTracker.handleStartTracking (nav, c) = Normal (nav', c')
        /\ UseGeolocation.error (UseGeolocation.state (LocationTracker.hook c'))
           = None
        /\ UseGeolocation.isWatching (LocationTracker.hook c')
           = Navigator.has_geolocation nav
             || UseGeolocation.isWatching (LocationTracker.hook c)
        /\ LocationTracker.locationHistory c' = LocationTracker.locationHistory c)
  /\ (exists nav' c',
        LocationTracker.handleStopTracking (nav, c) = Normal (nav', c')
        /\ UseGeolocation.isWatching (LocationTracker.hook c') = false
        /\ UseGeolocation.error (UseGeolocation.state (LocationTracker.hook c'))
           = UseGeolocation.error (UseGeolocation.state (LocationTracker.hook c))
        /\ LocationTracker.locationHistory c' = LocationTracker.locationHistory c).
Proof.
  intros Hr Hs.
  destruct c as [[[loc err ld perm sup] [wid last] watching] hist slot].
  cbn [LocationTracker.hook LocationTracker.localStorage
       LocationTracker.locationHistory UseGeolocation.state
       UseGeolocation.isSupported UseGeolocation.isWatching
       UseGeolocation.error] in *.
  subst sup. split; [|split].
  - unfold LocationTracker.handleGetLocation.
    cbn [LocationTracker.run LocationTracker.step bind].
    unfold UseGeolocation.getCurrentPosition, UseGeolocation.clearError,
      GeolocationService.getCurrentPosition,
      GeolocationService.isGeolocationSupported.
    cbn [LocationTracker.hook LocationTracker.with_hook UseGeolocation.state
         UseGeolocation.isSupported UseGeolocation.updateState
         UseGeolocation.merge UseGeolocation.u_isSupported].
    destruct (Navigator.has_geolocation nav); cbn [negb].
    + destruct answer as [position|k].
      * destruct (persist_readable slot
                    (GeolocationService.locationData position) Hr)
          as [slot' [Hp _]].
        unfold LocationTracker.deliver, LocationTracker.locationEffect.
        cbn. rewrite Hp. cbn.
        eexists. split; [reflexivity|]. cbn. split; [|reflexivity].
        split; [eauto|reflexivity].
      * cbn. eexists. split; [reflexivity|]. cbn. split; [|reflexivity].
        split; [discriminate|]. intros [_ [position E]]. discriminate E.
    + cbn. eexists. split; [reflexivity|]. cbn.
      split; [|destruct answer; reflexivity].
      split; [discriminate|]. intros [E _]. discriminate E.
  - unfold LocationTracker.handleStartTracking.
    cbn [LocationTracker.run LocationTracker.step bind].
    unfold UseGeolocation.startWatching, UseGeolocation.clearError,
      GeolocationService.startWatching,
      GeolocationService.isGeolocationSupported.
    cbn [LocationTracker.hook LocationTracker.with_hook UseGeolocation.state
         UseGeolocation.isSupported UseGeolocation.isWatching
         UseGeolocation.updateState UseGeolocation.merge
         UseGeolocation.u_isSupported].
    destruct (Navigator.has_geolocation nav), watching; cbn;
      do 2 eexists; (split; [reflexivity|]); cbn; auto.
  - unfold LocationTracker.handleStopTracking.
    cbn [LocationTracker.step].
    unfold UseGeolocation.stopWatching, GeolocationService.stopWatching.
    cbn [LocationTracker.hook UseGeolocation.isWatching
         UseGeolocation.geolocationService GeolocationService.watchId].
    destruct watching, wid as [id|]; cbn;
      do 2 eexists; (split; [reflexivity|]); cbn; auto.
Qed.

(** A component with an error on display, left by a request that timed
    out: a successful request removes it. *)
Lemma button_handlers_witness :
  let w := Scenario.after
             (Scenario.settled
              ++ [Lifecycle.Handle LocationTracker.ClearError;
                  Lifecycle.RequestSent;
                  Lifecycle.EffectRerun;
                  Lifecycle.RequestSettled (Navigator.Failure 3);
                  Lifecycle.EffectRerun]) in
  UseGeolocation.error (UseGeolocation.state (LocationTracker.hook (snd w)))
  = Some (mkError (Some 3) (GeolocationService.getErrorMessage 3))
  /\ readable (LocationTracker.localStorage (snd w)) = true
  /\ exists c',
       LocationTracker.handleGetLocation (fst w, snd w)
         (Navigator.Success Scenario.p1) = Normal (fst w, c')
       /\ UseGeolocation.error (UseGeolocation.state (LocationTracker.hook c'))
          = None.
Proof.
  intros w. split; [reflexivity|].
  assert (Hr : readable (LocationTracker.localStorage (snd w)) = true)
    by reflexivity.
  split; [exact Hr|].
  destruct (proj1 (button_handlers (fst w) (snd w)
                     (Navigator.Success Scenario.p1) Hr eq_refl))
    as [c' [E [He _]]].
  exists c'. split; [exact E|].
  apply He. split; [reflexivity|]. eauto.
Defined.

(** ** Storage over the life of the component *)

Section StorageFacts.

Lemma in_step_with_hook (c : LocationTracker.t) (h : UseGeolocation.t) :
  in_step c -> in_step (LocationTracker.with_hook c h).
Proof. unfold in_step. cbn. auto. Qed.

Lemma deliver_in_step (c : LocationTracker.t) (h : UseGeolocation.t) :
  in_step c ->
  exists c', LocationTracker.deliver c h = Normal c' /\ in_step c'.
Proof.
  intros H. unfold LocationTracker.deliver.
  destruct (UseGeolocation.location (UseGeolocation.state h)) as [l|].
  - destruct (effect_keeps_in_step _ l (in_step_with_hook c h H))
      as [c' [E [_ Hs]]].
    exists c'. split; [exact E|]. left. exact Hs.
  - eexists. split; [reflexivity|]. now apply in_step_with_hook.
Qed.

Lemma component_step_in_step (nav : Navigator.t) (c : LocationTracker.t)
      (e : LocationTracker.event) :
  in_step c ->
  exists nav' c',
    LocationTracker.step (nav, c) e = Normal (nav', c') /\ in_step c'.
Proof.
  intros H.
  destruct e as [answer| | | |id position|id k|position];
    cbn [LocationTracker.step].
  - destruct (UseGeolocation.getCurrentPosition _ nav answer)
      as [[h [l|]]|err].
    + destruct (deliver_in_step c h H) as [c' [E Hs]].
      rewrite E. cbn [bind]. eauto.
    + do 2 eexists. split; [reflexivity|]. now apply in_step_with_hook.
    + eauto.
  - destruct (UseGeolocation.startWatching _ nav) as [h nav'].
    do 2 eexists. split; [reflexivity|]. now apply in_step_with_hook.
  - destruct (UseGeolocation.stopWatching _ nav) as [h nav'].
    do 2 eexists. split; [reflexivity|]. now apply in_step_with_hook.
  - do 2 eexists. split; [reflexivity|]. now apply in_step_with_hook.
  - destruct (Navigator.serves nav id); [|eauto].
    destruct (deliver_in_step c (UseGeolocation.watchSuccess
                                   (LocationTracker.hook c) position) H)
      as [c' [E Hs]].
    rewrite E. cbn [bind]. eauto.
  - destruct (Navigator.serves nav id); [|eauto].
    do 2 eexists. split; [reflexivity|]. now apply in_step_with_hook.
  - destruct (deliver_in_step c (UseGeolocation.watchSuccess
                                   (LocationTracker.hook c) position) H)
      as [c' [E Hs]].
    rewrite E. cbn [bind]. eauto.
Qed.

Lemma on_hook_in_step
      (f : UseGeolocation.t -> Navigator.t -> UseGeolocation.t * Navigator.t)
      (w : Navigator.t * LocationTracker.t) :
  in_step (snd w) -> in_step (snd (Lifecycle.on_hook f w)).
Proof.
  destruct w as [nav c]. unfold Lifecycle.on_hook. cbn [snd].
  destruct (f (LocationTracker.hook c) nav) as [h nav'].
  intros H. now apply in_step_with_hook.
Qed.

Lemma lifecycle_step_in_step (autoStart : bool)
      (w : Navigator.t * LocationTracker.t) (e : Lifecycle.event) :
  in_step (snd w) ->
  exists w', Lifecycle.step autoStart w e = Normal w' /\ in_step (snd w').
Proof.
  intros H. destruct e as [e|permissions| | |answer]; cbn [Lifecycle.step].
  - destruct w as [nav c].
    destruct (component_step_in_step nav c e H) as [nav' [c' [E Hs]]].
    exists (nav', c'). auto.
  - eexists. split; [reflexivity|]. now apply on_hook_in_step.
  - eexists. split; [reflexivity|].
    unfold Lifecycle.rerun. now do 2 apply on_hook_in_step.
  - eexists. split; [reflexivity|]. now apply on_hook_in_step.
  - destruct w as [nav c]. cbn [snd] in H.
    destruct (UseGeolocation.isSupported _); [|eauto].
    destruct (UseGeolocation.requestSettled _ nav answer) as [h [l|]].
    + destruct (deliver_in_step c h H) as [c' [E Hs]].
      rewrite E. cbn [bind]. eauto.
    + eexists. split; [reflexivity|]. now apply in_step_with_hook.
Qed.

End StorageFacts.

(** X15.  On a component whose slot and buffer agree (as they do right after
    a mount on an empty [localStorage]), no sequence of events makes the
    history effect throw, and after every sequence the slot holds
    [JSON.stringify] of the buffer, or both are still empty. *)
Theorem storage_follows_buffer
        (autoStart : bool) (nav0 : Navigator.t) (c0 : LocationTracker.t)
        (es : list Lifecycle.event) :
  in_step c0 ->
  exists nav c,
    Lifecycle.run autoStart (nav0, c0) es = Normal (nav, c)
    /\ (LocationTracker.localStorage c
        = persisted (LocationTracker.locationHistory c)
        \/ (LocationTracker.localStorage c = None
            /\ LocationTracker.locationHistory c = [])).
Proof.
  revert nav0 c0. induction es as [|e es IH]; intros nav0 c0 H.
  - exists nav0, c0. split; [reflexivity|exact H].
  - destruct (lifecycle_step_in_step autoStart (nav0, c0) e H)
      as [[nav1 c1] [E H1]].
    destruct (IH nav1 c1 H1) as [nav [c [Er Hs]]].
    exists nav, c. split; [|exact Hs].
    cbn [Lifecycle.run]. rewrite E. exact Er.
Qed.

Lemma storage_follows_buffer_witness :
  in_step Scenario.mounted
  /\ exists nav c,
       Lifecycle.run false (Scenario.browser, Scenario.mounted)
         [Lifecycle.Handle LocationTracker.StartWatching;
          Lifecycle.Handle (LocationTracker.HostPosition 0 Scenario.p1);
          Lifecycle.EffectRerun;
          Lifecycle.Handle (LocationTracker.LatePosition Scenario.p2)]
       = Normal (nav, c)
       /\ (LocationTracker.localStorage c
           = persisted (LocationTracker.locationHistory c)
           \/ (LocationTracker.localStorage c = None
               /\ LocationTracker.locationHistory c = [])).
Proof.
  assert (H : in_step Scenario.mounted) by (right; split; reflexivity).
  split; [exact H|].
  exact (storage_follows_buffer false Scenario.browser Scenario.mounted _ H).
Defined.

(** ** What an unreadable slot does *)

(** X16.  The history effect completes exactly when what the slot holds can
    be parsed and spread.  A slot holding text that is not JSON is survived
    by the mount effect, which loads nothing, but makes every later run of
    the history effect throw a [SyntaxError]; a slot holding a JSON object
    makes it throw a [TypeError]. *)
Theorem history_effect_throws_on_unreadable_slot
        (c : LocationTracker.t) (l : LocationData number) :
  ((exists c', LocationTracker.locationEffect c l = Normal c')
   <-> readable (LocationTracker.localStorage c) = true)
  /\ (forall s, s <> ""%string ->
        LocationTracker.localStorage c = Some (Js.OtherText s) ->
        LocationTracker.hydrate (LocationTracker.localStorage c) = None
        /\ LocationTracker.locationEffect c l = Throw SyntaxError)
  /\ (forall props,
        LocationTracker.localStorage c = Some (Js.JsonText (Js.Obj props)) ->
        LocationTracker.locationEffect c l = Throw TypeError).
Proof.
  unfold LocationTracker.locationEffect, LocationTracker.persist, readable.
  split; [|split].
  - destruct (Js.JSON_parse (LocationTracker.saved_or_empty
                               (LocationTracker.localStorage c))) as [v|];
      cbn [bind].
    + destruct (Js.spread v) as [items|]; cbn [bind]; split;
        try (intros [c' E]; discriminate E); try discriminate; eauto.
    + split; [intros [c' E]; discriminate E|discriminate].
  - intros s Hs ->. destruct s as [|a s]; [contradiction|].
    split; reflexivity.
  - intros props ->. reflexivity.
Qed.

Lemma history_effect_throws_on_unreadable_slot_witness :
  let c := LocationTracker.mk (UseGeolocation.init Scenario.browser) []
             (Some (Js.OtherText "[{")) in
  LocationTracker.mount Scenario.browser (Some (Js.OtherText "[{")) = Some c
  /\ LocationTracker.locationEffect c
       (sample 1%float 2%float 3%float 4%float) = Throw SyntaxError.
Proof.
  intros c. split; [reflexivity|].
  apply (proj1 (proj2 (history_effect_throws_on_unreadable_slot c
                         (sample 1%float 2%float 3%float 4%float))) "[{"%string);
    [discriminate|reflexivity].
Defined.

(** ** What a write to the slot keeps *)

(** The entries that [slice(-100)] keeps when one entry is appended: the
    newest 99 of those that were there, and the new one. *)
Lemma append_keeps_newest {A : Type} (prev : list A) (x : A) :
  History.append prev x = Window.last_n 99 prev ++ [x].
Proof.
  rewrite WindowFacts.append_skipn, WindowFacts.last_n_skipn.
  replace (length prev + 1 - 100)%nat with (length prev - 99)%nat by lia.
  apply JsArrayFacts.skipn_app_le. lia.
Qed.

(** X17.  Whatever readable content the slot has, the write of the history
    effect leaves in it the array made of the newest 99 entries that were
    stored, in their order and as [JSON.stringify] writes them again,
    followed by the new sample: at most 100 entries, so that a slot that
    held more than the buffer can is cut back to its newest entries by the
    first write. *)
Theorem persist_keeps_newest_100
        (slot : option Js.text) (l : LocationData number) :
  readable slot = true ->
  exists items,
    (v <- Js.JSON_parse (LocationTracker.saved_or_empty slot) ;; Js.spread v)
    = Normal items
    /\ LocationTracker.persist slot l
       = Normal (Some (Js.JsonText
                         (Js.Arr (Window.last_n 99 (map element items)
                                  ++ [element (Js.ofLocationData l)]))))
    /\ length (Window.last_n 99 (map element items)
               ++ [element (Js.ofLocationData l)])
       = Nat.min 100 (length items + 1).
Proof.
  unfold readable, LocationTracker.persist.
  destruct (Js.JSON_parse (LocationTracker.saved_or_empty slot)) as [v|];
    cbn [bind]; [|discriminate].
  destruct (Js.spread v) as [items|]; cbn [bind]; [|discriminate].
  intros _. exists items. split; [reflexivity|].
  unfold Js.JSON_stringify. cbn [Js.serialize option_map LocationTracker.setItem].
  fold element.
  rewrite <- !append_keeps_newest. split.
  - do 4 f_equal. rewrite map_slice, map_app. reflexivity.
  - rewrite WindowFacts.append_length_eq, length_map. reflexivity.
Qed.

(** A slot with the numbers 0 to 149: after one write it holds the numbers
    51 to 149 and the new sample. *)
Lemma persist_keeps_newest_100_witness :
  let numbers := fun from count =>
    map (fun n => Js.Num (PrimFloat.of_uint63 (Uint63.of_Z (Z.of_nat n))))
        (seq from count) in
  let slot := Some (Js.JsonText (Js.Arr (numbers 0%nat 150%nat))) in
  let l := sample 1%float 2%float 3%float 4%float in
  readable slot = true
  /\ LocationTracker.persist slot l
     = Normal (Some (Js.JsonText
                       (Js.Arr (numbers 51%nat 99%nat
                                ++ [element (Js.ofLocationData l)])))).
Proof.
  intros numbers slot l.
  assert (H : readable slot = true) by reflexivity.
  split; [exact H|].
  destruct (persist_keeps_newest_100 slot l H) as [items [Hi [Hp _]]].
  cbv [slot] in Hi. cbn [LocationTracker.saved_or_empty Js.truthy
    Js.JSON_parse bind Js.spread] in Hi.
  injection Hi as <-. rewrite Hp. reflexivity.
Defined.

(** ** What the mount effect loads *)

Lemma hydrate_representable (S : list (LocationData number)) :
  forallb representable_sample S = true ->
  LocationTracker.hydrate (persisted S)
  = Some (Js.Arr (map element (map Js.ofLocationData S)))
  /\ Js.asHistory (Js.Arr (map element (map Js.ofLocationData S))) = Some S.
Proof.
  intros H. split; [reflexivity|].
  cbn [Js.asHistory].
  induction S as [|l S IH]; [reflexivity|].
  cbn [forallb] in H. apply andb_prop in H. destruct H as [Hl HS].
  destruct (sample_roundtrip l Hl) as [j [Hj Hback]].
  cbn [map Js.asLocations]. unfold element at 1.
  rewrite Hj, Hback, (IH HS). reflexivity.
Qed.

(** X18.  The mount effect applies no capacity: a stored array of samples is
    loaded whole, however long it is.  It is the first sample delivered
    afterwards that cuts the buffer, and the slot with it, to the newest
    100. *)
Theorem mount_loads_without_truncation
        (nav : Navigator.t) (S : list (LocationData number))
        (position : Navigator.GeolocationPosition) :
  forallb representable_sample S = true ->
  exists c,
    LocationTracker.mount nav (persisted S) = Some c
    /\ LocationTracker.locationHistory c = S
    /\ exists c',
         LocationTracker.step (nav, c) (LocationTracker.LatePosition position)
         = Normal (nav, c')
         /\ length (LocationTracker.locationHistory c')
            = Nat.min 100 (length S + 1)
         /\ LocationTracker.localStorage c'
            = persisted (LocationTracker.locationHistory c').
Proof.
  intros H. destruct (hydrate_representable S H) as [Hh Ha].
  exists (LocationTracker.mk (UseGeolocation.init nav) S (persisted S)).
  split; [|split; [reflexivity|]].
  - unfold LocationTracker.mount. rewrite Hh, Ha. reflexivity.
  - set (c := LocationTracker.mk (UseGeolocation.init nav) S (persisted S)).
    set (h := UseGeolocation.watchSuccess (LocationTracker.hook c) position).
    destruct (effect_keeps_in_step (LocationTracker.with_hook c h)
                (GeolocationService.locationData position))
      as [c' [E [Hh' Hs]]]; [left; reflexivity|].
    exists c'. split.
    + cbn [LocationTracker.step]. fold h.
      unfold LocationTracker.deliver.
      change (UseGeolocation.location (UseGeolocation.state h))
        with (Some (GeolocationService.locationData position)).
      cbv iota beta. rewrite E. reflexivity.
    + split; [|exact Hs].
      rewrite Hh'. apply WindowFacts.append_length_eq.
Qed.

(** 150 stored samples: all of them are loaded, and one delivery later the
    buffer holds 100. *)
Lemma mount_loads_without_truncation_witness :
  let S := repeat (sample 37.5%float (-122.5)%float 5%float 1000%float) 150 in
  forallb representable_sample S = true
  /\ exists c,
       LocationTracker.mount Scenario.browser (persisted S) = Some c
       /\ length (LocationTracker.locationHistory c) = 150%nat
       /\ exists c',
            LocationTracker.step (Scenario.browser, c)
              (LocationTracker.LatePosition Scenario.p1)
            = Normal (Scenario.browser, c')
            /\ length (LocationTracker.locationHistory c') = 100%nat.
Proof.
  intros S.
  assert (H : forallb representable_sample S = true) by reflexivity.
  split; [exact H|].
  destruct (mount_loads_without_truncation Scenario.browser S Scenario.p1 H)
    as [c [Hm [Hh [c' [Hs [Hl _]]]]]].
  exists c. split; [exact Hm|]. split; [rewrite Hh; reflexivity|].
  exists c'. split; [exact Hs|]. rewrite Hl. reflexivity.
Defined.

(** ** What a reload does to finite numbers *)

Section ReloadFacts.

Lemma serialize_finite (x : number) :
  is_finite x = true -> Js.serialize_number x = Js.Num (unsigned_zero x).
Proof.
  unfold is_finite, Js.serialize_number, unsigned_zero.
  intros H. apply negb_true_iff in H. rewrite H.
  destruct (is_zero x); reflexivity.
Qed.

Lemma finite_sample_reload (l : LocationData number) :
  finite_sample l = true ->
  Js.asLocationData (element (Js.ofLocationData l)) = Some (unsigned_zeros l).
Proof.
  destruct l as [la lo ac ts al he sp]. unfold finite_sample, unsigned_zeros.
  cbn [latitude longitude accuracy timestamp altitude heading speed].
  intros H. do 6 (apply andb_prop in H; destruct H as [H ?]).
  unfold element, Js.ofLocationData.
  cbn [Js.serialize fold_right fst snd latitude longitude accuracy timestamp
       altitude heading speed].
  rewrite !serialize_finite by assumption.
  destruct al as [al|], he as [he|], sp as [sp|];
    cbn [finite_opt Js.optional Js.serialize option_map] in *;
    rewrite ?serialize_finite by assumption; reflexivity.
Qed.

(** Comparisons do not see the sign of a zero. *)
Lemma rankf_unsigned_zero (x : number) :
  Double.rankf (unsigned_zero x) = Double.rankf x.
Proof.
  unfold unsigned_zero. destruct (is_zero x) eqn:Z; [|reflexivity].
  rewrite DoubleFacts.is_zero_spec in Z. unfold Double.rankf.
  destruct (Prim2SF x) as [s|s| |s m e]; try discriminate Z. reflexivity.
Qed.

Lemma isValidCoordinate_unsigned (latitude longitude : number) :
  MapUtils.isValidCoordinate (unsigned_zero latitude) (unsigned_zero longitude)
  = MapUtils.isValidCoordinate latitude longitude.
Proof.
  unfold MapUtils.isValidCoordinate, MapUtils.isNaN, MapUtils.geb.
  rewrite !DoubleFacts.is_nan_rank, !DoubleFacts.leb_rank,
    !rankf_unsigned_zero.
  reflexivity.
Qed.

End ReloadFacts.

(** X19.  For a history whose numbers are all finite, what the mount effect
    loads from the slot written by [JSON.stringify] is the same history with
    the sign of every zero dropped and nothing else changed: only [NaN] and
    the infinities do not survive a reload.  Whether a sample passes
    [isValidCoordinate] is not affected. *)
Theorem reload_drops_only_the_sign_of_zero (S : list (LocationData number)) :
  forallb finite_sample S = true ->
  LocationTracker.hydrate (persisted S)
  = Some (Js.Arr (map element (map Js.ofLocationData S)))
  /\ Js.asHistory (Js.Arr (map element (map Js.ofLocationData S)))
     = Some (map unsigned_zeros S)
  /\ forall l,
       MapUtils.isValidCoordinate (latitude (unsigned_zeros l))
                                  (longitude (unsigned_zeros l))
       = MapUtils.isValidCoordinate (latitude l) (longitude l).
Proof.
  intros H. split; [reflexivity|]. split.
  - cbn [Js.asHistory].
    induction S as [|l S IH]; [reflexivity|].
    cbn [forallb] in H. apply andb_prop in H. destruct H as [Hl HS].
    cbn [map Js.asLocations].
    rewrite (finite_sample_reload l Hl), (IH HS). reflexivity.
  - intros l. apply isValidCoordinate_unsigned.
Qed.

(** A reading on the equator, south of it by nothing: latitude [-0] comes
    back as [0], the rest as it was. *)
Lemma reload_drops_only_the_sign_of_zero_witness :
  let S := [sample neg_zero (-122.5)%float 5%float 1000%float] in
  forallb finite_sample S = true
  /\ Js.asHistory (Js.Arr (map element (map Js.ofLocationData S)))
     = Some [sample 0%float (-122.5)%float 5%float 1000%float].
Proof.
  intros S.
  assert (H : forallb finite_sample S = true) by reflexivity.
  split; [exact H|].
  exact (proj1 (proj2 (reload_drops_only_the_sign_of_zero S H))).
Defined.

(** ** The bounding box does not depend on the order of the samples *)

Section OrderFacts.

Import MapUtils.

Lemma get_sign_bit (x : number) :
  is_nan x = false -> get_sign x = sign_bit (Prim2SF x).
Proof.
  intros N. unfold get_sign.
  destruct (is_zero x) eqn:Z.
  - rewrite DoubleFacts.is_zero_spec in Z.
    destruct (Prim2SF x) as [s|s| |s m e] eqn:E; try discriminate Z.
    apply DoubleFacts.SF_zero_inv in E. subst x. destruct s; reflexivity.
  - rewrite DoubleFacts.ltb_rank. unfold Double.rankf.
    change (Double.rank (Prim2SF zero)) with (Some 0).
    rewrite DoubleFacts.is_zero_spec in Z.
    rewrite DoubleFacts.is_nan_spec in N.
    pose proof (Prim2SF_valid x) as V.
    destruct (Prim2SF x) as [s|s| |s m e]; try discriminate;
      cbn [Double.rank sign_bit].
    + destruct s; reflexivity.
    + pose proof (DoubleFacts.rank_finite_bounds m e V) as B.
      destruct s; cbn [cond_Zopp]; [apply Z.ltb_lt|apply Z.ltb_ge]; lia.
Qed.

Lemma key_none (x : number) : key x = None <-> is_nan x = true.
Proof.
  unfold key. rewrite DoubleFacts.is_nan_rank.
  destruct (Double.rankf x); cbn; split; congruence.
Qed.

Lemma key_rank (x : number) (k : Z) :
  key x = Some k ->
  exists r, Double.rankf x = Some r
            /\ k = 2 * r + (if sign_bit (Prim2SF x) then 0 else 1).
Proof.
  unfold key. destruct (Double.rankf x) as [r|]; cbn; [|discriminate].
  intros E. apply DoubleFacts.Some_inj in E. eauto.
Qed.

(** Two numbers with the same key are the same number. *)
Lemma key_inj (x y : number) (k : Z) :
  key x = Some k -> key y = Some k -> x = y.
Proof.
  intros Hx Hy.
  destruct (key_rank x k Hx) as [r [Rx Kx]].
  destruct (key_rank y k Hy) as [r' [Ry Ky]].
  assert (Hr : r = r' /\ sign_bit (Prim2SF x) = sign_bit (Prim2SF y)).
  { destruct (sign_bit (Prim2SF x)), (sign_bit (Prim2SF y)); split;
      solve [lia|reflexivity]. }
  destruct Hr as [<- Hs]. clear Kx Ky Hx Hy.
  apply Prim2SF_inj. unfold Double.rankf in Rx, Ry.
  pose proof (Prim2SF_valid x) as Vx. pose proof (Prim2SF_valid y) as Vy.
  assert (Hinf : 0 < 2 ^ 2100) by reflexivity.
  destruct (Prim2SF x) as [s|s| |s m e], (Prim2SF y) as [s'|s'| |s' m' e'];
    cbn [Double.rank sign_bit valid_binary] in *;
    try discriminate; subst s';
    apply DoubleFacts.Some_inj in Rx; apply DoubleFacts.Some_inj in Ry;
    try reflexivity;
    try pose proof (DoubleFacts.rank_finite_bounds m e Vx);
    try pose proof (DoubleFacts.rank_finite_bounds m' e' Vy);
    subst r; generalize dependent (2 ^ 2100); intros;
    try (exfalso; destruct s; cbn [cond_Zopp] in *; lia).
  assert (E : Z.pos m * 2 ^ (e + 1074) = Z.pos m' * 2 ^ (e' + 1074))
    by (destruct s; cbn [cond_Zopp] in *; lia).
  pose proof (DoubleFacts.rank_finite_compare m m' e e' Vx Vy) as C.
  rewrite E, Z.compare_refl in C.
  destruct (Z.compare_spec e e') as [Ee|_|_]; try discriminate C.
  subst e'. rewrite DoubleFacts.compare_cont_Eq in C.
  apply Z.compare_eq in C. congruence.
Qed.

Lemma Math_min_key (a b : number) (ka kb : Z) :
  key a = Some ka -> key b = Some kb ->
  Math_min a b = if ka <=? kb then a else b.
Proof.
  intros Ha Hb.
  assert (Na : is_nan a = false).
  { destruct (is_nan a) eqn:N; [|reflexivity].
    apply key_none in N. congruence. }
  assert (Nb : is_nan b = false).
  { destruct (is_nan b) eqn:N; [|reflexivity].
    apply key_none in N. congruence. }
  destruct (key_rank a ka Ha) as [ra [Ra Ka]].
  destruct (key_rank b kb Hb) as [rb [Rb Kb]].
  unfold Math_min. rewrite Na, Nb. cbn [orb].
  rewrite !DoubleFacts.ltb_rank, Ra, Rb, (get_sign_bit a Na).
  destruct (Z.ltb_spec ra rb) as [L|G].
  - destruct (Z.leb_spec ka kb) as [_|K]; [reflexivity|].
    destruct (sign_bit (Prim2SF a)), (sign_bit (Prim2SF b)); lia.
  - destruct (Z.ltb_spec rb ra) as [L'|G'].
    + destruct (Z.leb_spec ka kb) as [K|_]; [|reflexivity].
      destruct (sign_bit (Prim2SF a)), (sign_bit (Prim2SF b)); lia.
    + assert (ra = rb) by lia. subst rb.
      destruct (sign_bit (Prim2SF a)) eqn:Sa.
      * destruct (Z.leb_spec ka kb) as [_|K]; [reflexivity|].
        destruct (sign_bit (Prim2SF b)); lia.
      * destruct (Z.leb_spec ka kb) as [K|_]; [|reflexivity].
        destruct (sign_bit (Prim2SF b)) eqn:Sb; [lia|].
        apply (key_inj b a ka); congruence.
Qed.

Lemma Math_max_key (a b : number) (ka kb : Z) :
  key a = Some ka -> key b = Some kb ->
  Math_max a b = if ka <=? kb then b else a.
Proof.
  intros Ha Hb.
  assert (Na : is_nan a = false).
  { destruct (is_nan a) eqn:N; [|reflexivity].
    apply key_none in N. congruence. }
  assert (Nb : is_nan b = false).
  { destruct (is_nan b) eqn:N; [|reflexivity].
    apply key_none in N. congruence. }
  destruct (key_rank a ka Ha) as [ra [Ra Ka]].
  destruct (key_rank b kb Hb) as [rb [Rb Kb]].
  unfold Math_max. rewrite Na, Nb. cbn [orb].
  rewrite !DoubleFacts.ltb_rank, Ra, Rb, (get_sign_bit a Na).
  destruct (Z.ltb_spec ra rb) as [L|G].
  - destruct (Z.leb_spec ka kb) as [_|K]; [reflexivity|].
    destruct (sign_bit (Prim2SF a)), (sign_bit (Prim2SF b)); lia.
  - destruct (Z.ltb_spec rb ra) as [L'|G'].
    + destruct (Z.leb_spec ka kb) as [K|_]; [|reflexivity].
      destruct (sign_bit (Prim2SF a)), (sign_bit (Prim2SF b)); lia.
    + assert (ra = rb) by lia. subst rb.
      destruct (sign_bit (Prim2SF a)) eqn:Sa.
      * destruct (Z.leb_spec ka kb) as [_|K]; [reflexivity|].
        destruct (sign_bit (Prim2SF b)); lia.
      * destruct (Z.leb_spec ka kb) as [K|_]; [|reflexivity].
        destruct (sign_bit (Prim2SF b)) eqn:Sb; [lia|].
        apply (key_inj a b ka); congruence.
Qed.

Lemma key_some_not_nan (x : number) (k : Z) : key x = Some k -> is_nan x = false.
Proof.
  intros H. destruct (is_nan x) eqn:N; [|reflexivity].
  apply key_none in N. congruence.
Qed.

Lemma Math_min_nan (a b : number) :
  key a = None \/ key b = None -> Math_min a b = nan.
Proof.
  rewrite !key_none. unfold Math_min.
  intros [-> | ->]; [reflexivity|]. now rewrite orb_true_r.
Qed.

Lemma Math_max_nan (a b : number) :
  key a = None \/ key b = None -> Math_max a b = nan.
Proof.
  rewrite !key_none. unfold Math_max.
  intros [-> | ->]; [reflexivity|]. now rewrite orb_true_r.
Qed.

Lemma key_nan : key nan = None.
Proof. reflexivity. Qed.

Lemma key_Math_min (a b : number) :
  key (Math_min a b)
  = match key a, key b with
    | Some ka, Some kb => Some (Z.min ka kb)
    | _, _ => None
    end.
Proof.
  destruct (key a) as [ka|] eqn:Ha, (key b) as [kb|] eqn:Hb;
    try (rewrite Math_min_nan by (rewrite ?Ha, ?Hb; auto); reflexivity).
  rewrite (Math_min_key a b ka kb Ha Hb).
  destruct (Z.leb_spec ka kb); [rewrite Ha|rewrite Hb]; f_equal; lia.
Qed.

Lemma key_Math_max (a b : number) :
  key (Math_max a b)
  = match key a, key b with
    | Some ka, Some kb => Some (Z.max ka kb)
    | _, _ => None
    end.
Proof.
  destruct (key a) as [ka|] eqn:Ha, (key b) as [kb|] eqn:Hb;
    try (rewrite Math_max_nan by (rewrite ?Ha, ?Hb; auto); reflexivity).
  rewrite (Math_max_key a b ka kb Ha Hb).
  destruct (Z.leb_spec ka kb); [rewrite Hb|rewrite Ha]; f_equal; lia.
Qed.

(** Numbers with the same key, or both without one, are equal. *)
Lemma key_eq (x y : number) : key x = key y -> x = y.
Proof.
  destruct (key x) as [k|] eqn:Hx; intros Hy; symmetry in Hy.
  - exact (key_inj x y k Hx Hy).
  - apply key_none, MinMaxFacts.nan_eq in Hx.
    apply key_none, MinMaxFacts.nan_eq in Hy. congruence.
Qed.

Lemma Math_min_comm (a b : number) : Math_min a b = Math_min b a.
Proof.
  apply key_eq. rewrite !key_Math_min.
  destruct (key a), (key b); try reflexivity. f_equal. lia.
Qed.

Lemma Math_min_assoc (a b c : number) :
  Math_min (Math_min a b) c = Math_min a (Math_min b c).
Proof.
  apply key_eq. rewrite !key_Math_min.
  destruct (key a), (key b), (key c); try reflexivity. f_equal. lia.
Qed.

Lemma Math_max_comm (a b : number) : Math_max a b = Math_max b a.
Proof.
  apply key_eq. rewrite !key_Math_max.
  destruct (key a), (key b); try reflexivity. f_equal. lia.
Qed.

Lemma Math_max_assoc (a b c : number) :
  Math_max (Math_max a b) c = Math_max a (Math_max b c).
Proof.
  apply key_eq. rewrite !key_Math_max.
  destruct (key a), (key b), (key c); try reflexivity. f_equal. lia.
Qed.

(** *** Folding an operation that is associative, commutative and
    idempotent *)

Section Fold.

Variable f : number -> number -> number.
Hypothesis f_comm : forall a b, f a b = f b a.
Hypothesis f_assoc : forall a b c, f (f a b) c = f a (f b c).
Hypothesis f_idem : forall a, f a a = a.

Lemma fold_permutation (l l' : list number) (a : number) :
  Permutation l l' -> fold_left f l a = fold_left f l' a.
Proof.
  intros P. revert a.
  induction P as [|x l l' _ IH|x y l|l l' l'' _ IH1 _ IH2]; intros a;
    cbn [fold_left].
  - reflexivity.
  - apply IH.
  - f_equal. rewrite !f_assoc. f_equal. apply f_comm.
  - now rewrite IH1.
Qed.

(** A member of the list can be merged into the seed for free. *)
Lemma fold_absorb (l : list number) (a x : number) :
  In x l -> fold_left f l a = fold_left f l (f a x).
Proof.
  revert a. induction l as [|y l IH]; intros a; [intros []|].
  intros [->|Hin]; cbn [fold_left].
  - f_equal. now rewrite f_assoc, f_idem.
  - rewrite (IH (f a y) Hin). f_equal.
    rewrite !f_assoc. f_equal. apply f_comm.
Qed.

(** The fold of a non-empty list seeded with its head sees the list as a
    set. *)
Lemma fold_head_permutation (x y : number) (xs ys : list number) :
  Permutation (x :: xs) (y :: ys) ->
  fold_left f xs x = fold_left f ys y.
Proof.
  intros P.
  assert (Hx : In x (y :: ys))
    by (apply (Permutation_in x P); left; reflexivity).
  transitivity (fold_left f (x :: xs) x).
  { cbn [fold_left]. now rewrite f_idem. }
  rewrite (fold_permutation _ _ x P).
  rewrite (fold_absorb (y :: ys) x y) by (left; reflexivity).
  rewrite f_comm.
  rewrite <- (fold_absorb (y :: ys) y x Hx).
  cbn [fold_left]. now rewrite f_idem.
Qed.

Lemma fold_merge (l : list number) (a y : number) :
  f (fold_left f l a) y = fold_left f l (f a y).
Proof.
  revert a. induction l as [|x l IH]; intros a; cbn [fold_left];
    [reflexivity|].
  rewrite IH. f_equal. rewrite !f_assoc. f_equal. apply f_comm.
Qed.

(** Folding in again what has been folded in already changes nothing. *)
Lemma repeat_is_absorbed (xs : list number) (x : number) :
  fold_left f (x :: xs) (fold_left f xs x) = fold_left f xs x.
Proof.
  assert (H : forall l, incl l (x :: xs) ->
                        fold_left f l (fold_left f xs x) = fold_left f xs x).
  { induction l as [|y l IH]; intros Hincl; cbn [fold_left]; [reflexivity|].
    assert (Hy : In y (x :: xs)) by (apply Hincl; left; reflexivity).
    assert (E : f (fold_left f xs x) y = fold_left f xs x).
    { rewrite fold_merge. destruct Hy as [->|Hy].
      - now rewrite f_idem.
      - symmetry. now apply fold_absorb. }
    rewrite E. apply IH. intros z Hz. apply Hincl. now right. }
  apply H. apply incl_refl.
Qed.

(** The fold of two lists one after the other, from the folds of each. *)
Lemma fold_app_heads (x y : number) (xs ys : list number) :
  fold_left f (xs ++ y :: ys) x = f (fold_left f xs x) (fold_left f ys y).
Proof.
  rewrite fold_left_app. cbn [fold_left].
  rewrite (f_comm (fold_left f xs x) (fold_left f ys y)).
  rewrite (fold_merge ys y (fold_left f xs x)).
  f_equal. apply f_comm.
Qed.

End Fold.

Lemma least_permutation (xs ys : list number) :
  Permutation xs ys -> MinMax.least xs = MinMax.least ys.
Proof.
  intros P. destruct xs as [|x xs], ys as [|y ys].
  - reflexivity.
  - apply Permutation_nil in P. discriminate P.
  - apply Permutation_sym, Permutation_nil in P. discriminate P.
  - cbn [MinMax.least].
    exact (fold_head_permutation Math_min Math_min_comm Math_min_assoc
             MinMaxFacts.Math_min_idem x y xs ys P).
Qed.

Lemma least_app (xs ys : list number) :
  xs <> [] -> ys <> [] ->
  MinMax.least (xs ++ ys) = Math_min (MinMax.least xs) (MinMax.least ys).
Proof.
  destruct xs as [|x xs], ys as [|y ys]; try congruence. intros _ _.
  exact (fold_app_heads Math_min Math_min_comm Math_min_assoc x y xs ys).
Qed.

Lemma greatest_app (xs ys : list number) :
  xs <> [] -> ys <> [] ->
  MinMax.greatest (xs ++ ys)
  = Math_max (MinMax.greatest xs) (MinMax.greatest ys).
Proof.
  destruct xs as [|x xs], ys as [|y ys]; try congruence. intros _ _.
  exact (fold_app_heads Math_max Math_max_comm Math_max_assoc x y xs ys).
Qed.

Lemma greatest_permutation (xs ys : list number) :
  Permutation xs ys -> MinMax.greatest xs = MinMax.greatest ys.
Proof.
  intros P. destruct xs as [|x xs], ys as [|y ys].
  - reflexivity.
  - apply Permutation_nil in P. discriminate P.
  - apply Permutation_sym, Permutation_nil in P. discriminate P.
  - cbn [MinMax.greatest].
    exact (fold_head_permutation Math_max Math_max_comm Math_max_assoc
             MinMaxFacts.Math_max_idem x y xs ys P).
Qed.

End OrderFacts.

(** X20.  [calculateBounds] sees the samples as a set: reordering them
    changes nothing, down to the sign of a zero and to [NaN].  The corners of
    the box of two lists taken together are the [Math.min] and the [Math.max],
    coordinate by coordinate, of the corners of their two boxes; so repeating
    samples changes nothing either. *)
Theorem calculateBounds_ignores_order (l l' : list (LocationData number)) :
  (Permutation l l' ->
   MapUtils.calculateBounds l = MapUtils.calculateBounds l')
  /\ (l <> [] -> l' <> [] ->
      let b := MapUtils.calculateBounds l in
      let b' := MapUtils.calculateBounds l' in
      MapUtils.southWest (MapUtils.calculateBounds (l ++ l'))
      = (MapUtils.Math_min (fst (MapUtils.southWest b))
                           (fst (MapUtils.southWest b')),
         MapUtils.Math_min (snd (MapUtils.southWest b))
                           (snd (MapUtils.southWest b')))
      /\ MapUtils.northEast (MapUtils.calculateBounds (l ++ l'))
         = (MapUtils.Math_max (fst (MapUtils.northEast b))
                              (fst (MapUtils.northEast b')),
            MapUtils.Math_max (snd (MapUtils.northEast b))
                              (snd (MapUtils.northEast b'))))
  /\ MapUtils.calculateBounds (l ++ l) = MapUtils.calculateBounds l.
Proof.
  split; [|split].
  - intros P. destruct l as [|p l], l' as [|p' l'].
    + reflexivity.
    + apply Permutation_nil in P. discriminate P.
    + apply Permutation_sym, Permutation_nil in P. discriminate P.
    + rewrite !calculateBounds_cons. cbv zeta.
      rewrite (least_permutation _ _ (Permutation_map latitude P)),
        (least_permutation _ _ (Permutation_map longitude P)),
        (greatest_permutation _ _ (Permutation_map latitude P)),
        (greatest_permutation _ _ (Permutation_map longitude P)).
      reflexivity.
  - intros Hl Hl'. destruct l as [|p l], l' as [|p' l']; try congruence.
    change ((p :: l) ++ p' :: l') with (p :: (l ++ p' :: l')).
    rewrite !calculateBounds_cons. cbv zeta.
    cbn [MapUtils.southWest MapUtils.northEast fst snd].
    change (p :: (l ++ p' :: l')) with ((p :: l) ++ p' :: l').
    rewrite !map_app.
    rewrite !least_app, !greatest_app by discriminate.
    split; reflexivity.
  - destruct l as [|p l]; [reflexivity|].
    change ((p :: l) ++ p :: l) with (p :: (l ++ p :: l)).
    rewrite !calculateBounds_cons. cbv zeta.
    cbn [map MinMax.least MinMax.greatest]. rewrite !map_app.
    rewrite !fold_left_app.
    assert (Hmin : forall xs x,
               fold_left MapUtils.Math_min (x :: xs)
                         (fold_left MapUtils.Math_min xs x)
               = fold_left MapUtils.Math_min xs x).
    { intros xs x. apply repeat_is_absorbed;
        auto using Math_min_comm, Math_min_assoc, MinMaxFacts.Math_min_idem. }
    assert (Hmax : forall xs x,
               fold_left MapUtils.Math_max (x :: xs)
                         (fold_left MapUtils.Math_max xs x)
               = fold_left MapUtils.Math_max xs x).
    { intros xs x. apply repeat_is_absorbed;
        auto using Math_max_comm, Math_max_assoc, MinMaxFacts.Math_max_idem. }
    cbn [map]. rewrite !Hmin, !Hmax. reflexivity.
Qed.

(** Three readings, one of them at latitude [-0], in two orders. *)
Lemma calculateBounds_ignores_order_witness :
  let a := sample 0%float 10%float 5%float 1000%float in
  let b := sample neg_zero (-3.5)%float 5%float 2000%float in
  let c := sample 7.25%float 10%float 5%float 3000%float in
  Permutation [a; b; c] [c; b; a]
  /\ MapUtils.calculateBounds [a; b; c] = MapUtils.calculateBounds [c; b; a].
Proof.
  intros a b c.
  assert (P : Permutation [a; b; c] [c; b; a]).
  { apply perm_trans with [b; a; c]; [apply perm_swap|].
    apply perm_trans with [b; c; a]; [apply perm_skip, perm_swap|].
    apply perm_swap. }
  split; [exact P|].
  exact (proj1 (calculateBounds_ignores_order [a; b; c] [c; b; a]) P).
Defined.

(** ** A [NaN] coordinate poisons its axis of the bounding box *)

Section PoisonFacts.

Import MapUtils.

Lemma fold_min_poisoned (xs : list number) (x0 : number) :
  (exists x, In x (x0 :: xs) /\ is_nan x = true) ->
  fold_left Math_min xs x0 = nan.
Proof.
  revert x0. induction xs as [|y xs IH]; intros x0 [x [Hin Hn]].
  - destruct Hin as [->|[]]. now apply MinMaxFacts.nan_eq.
  - cbn [fold_left]. apply IH.
    destruct Hin as [->|[->|Hin]].
    + exists (Math_min x y). split; [left; reflexivity|].
      rewrite Math_min_nan; [reflexivity|left; now apply key_none].
    + exists (Math_min x0 x). split; [left; reflexivity|].
      rewrite Math_min_nan; [reflexivity|right; now apply key_none].
    + exists x. split; [right; exact Hin|exact Hn].
Qed.

Lemma fold_max_poisoned (xs : list number) (x0 : number) :
  (exists x, In x (x0 :: xs) /\ is_nan x = true) ->
  fold_left Math_max xs x0 = nan.
Proof.
  revert x0. induction xs as [|y xs IH]; intros x0 [x [Hin Hn]].
  - destruct Hin as [->|[]]. now apply MinMaxFacts.nan_eq.
  - cbn [fold_left]. apply IH.
    destruct Hin as [->|[->|Hin]].
    + exists (Math_max x y). split; [left; reflexivity|].
      rewrite Math_max_nan; [reflexivity|left; now apply key_none].
    + exists (Math_max x0 x). split; [left; reflexivity|].
      rewrite Math_max_nan; [reflexivity|right; now apply key_none].
    + exists x. split; [right; exact Hin|exact Hn].
Qed.

Lemma extremes_poisoned (xs : list number) (x : number) :
  In x xs -> is_nan x = true ->
  MinMax.least xs = nan /\ MinMax.greatest xs = nan.
Proof.
  intros Hin Hn. destruct xs as [|x0 xs]; [destruct Hin|].
  cbn [MinMax.least MinMax.greatest].
  split; [apply fold_min_poisoned|apply fold_max_poisoned]; eauto.
Qed.

End PoisonFacts.

(** X21.  One sample with a [NaN] latitude makes all three latitudes of the
    box [NaN] (south-west, north-east and centre), whatever the other samples
    are; likewise for the longitude. *)
Theorem calculateBounds_nan_poisons_axis
        (l : list (LocationData number)) (p : LocationData number) :
  In p l ->
  let b := MapUtils.calculateBounds l in
  (is_nan (latitude p) = true ->
   fst (MapUtils.southWest b) = nan /\ fst (MapUtils.northEast b) = nan
   /\ fst (MapUtils.center b) = nan)
  /\ (is_nan (longitude p) = true ->
      snd (MapUtils.southWest b) = nan /\ snd (MapUtils.northEast b) = nan
      /\ snd (MapUtils.center b) = nan).
Proof.
  intros Hin b. subst b.
  destruct l as [|q l]; [destruct Hin|].
  rewrite calculateBounds_cons. cbv zeta.
  cbn [MapUtils.southWest MapUtils.northEast MapUtils.center fst snd].
  split; intros Hn.
  - destruct (extremes_poisoned (map latitude (q :: l)) (latitude p)
                (in_map latitude _ _ Hin) Hn) as [-> ->].
    repeat split; reflexivity.
  - destruct (extremes_poisoned (map longitude (q :: l)) (longitude p)
                (in_map longitude _ _ Hin) Hn) as [-> ->].
    repeat split; reflexivity.
Qed.

(** Two readings, one with latitude [NaN]: the latitude of the centre is
    [NaN], its longitude is not. *)
Lemma calculateBounds_nan_poisons_axis_witness :
  let a := sample 0%float 10%float 5%float 1000%float in
  let b := sample nan (-3.5)%float 5%float 2000%float in
  In b [a; b]
  /\ is_nan (latitude b) = true
  /\ fst (MapUtils.center (MapUtils.calculateBounds [a; b])) = nan
  /\ snd (MapUtils.center (MapUtils.calculateBounds [a; b])) = 3.25%float.
Proof.
  intros a b.
  assert (Hin : In b [a; b]) by (right; left; reflexivity).
  assert (Hn : is_nan (latitude b) = true) by reflexivity.
  split; [exact Hin|]. split; [exact Hn|]. split; [|reflexivity].
  exact (proj2 (proj2 (proj1 (calculateBounds_nan_poisons_axis [a; b] b Hin) Hn))).
Defined.

(** ** The corners of the box of valid samples *)

Section CornerFacts.

Import MapUtils.

(** [isValidCoordinate] is a test of the latitude and a test of the
    longitude. *)
Lemma isValidCoordinate_split (latitude longitude : number) :
  isValidCoordinate latitude longitude
  = (negb (isNaN latitude) && geb latitude (-90)%float
     && (latitude <=? 90)%float)
    && (negb (isNaN longitude) && geb longitude (-180)%float
        && (longitude <=? 180)%float).
Proof.
  unfold isValidCoordinate.
  destruct (negb (isNaN latitude)), (negb (isNaN longitude)),
    (geb latitude (-90)%float), (latitude <=? 90)%float,
    (geb longitude (-180)%float); reflexivity.
Qed.

(** If every number of a non-empty list passes a test that [NaN] fails,
    so do the least and the greatest. *)
Lemma extremes_pass (test : number -> bool) (xs : list number) :
  xs <> [] ->
  (forall x, In x xs -> test x = true /\ is_nan x = false) ->
  test (MinMax.least xs) = true /\ test (MinMax.greatest xs) = true.
Proof.
  intros Hne H. destruct xs as [|x xs]; [congruence|].
  assert (Hn : forall y, In y (x :: xs) -> is_nan y = false)
    by (intros y Hy; apply H, Hy).
  destruct (MinMaxFacts.fold_min_spec xs x Hn) as [_ [Hmin _]].
  destruct (MinMaxFacts.fold_max_spec xs x Hn) as [_ [Hmax _]].
  cbn [MinMax.least MinMax.greatest]. split; now apply H.
Qed.

End CornerFacts.

(** X22.  When every sample of a non-empty list passes [isValidCoordinate],
    so do the south-west and the north-east corner of its bounding box. *)
Theorem calculateBounds_corners_valid (l : list (LocationData number)) :
  l <> [] ->
  (forall p, In p l ->
             MapUtils.isValidCoordinate (latitude p) (longitude p) = true) ->
  let b := MapUtils.calculateBounds l in
  MapUtils.isValidCoordinate (fst (MapUtils.southWest b))
                             (snd (MapUtils.southWest b)) = true
  /\ MapUtils.isValidCoordinate (fst (MapUtils.northEast b))
                                (snd (MapUtils.northEast b)) = true.
Proof.
  intros Hne Hv b. subst b.
  destruct l as [|q l]; [congruence|].
  rewrite calculateBounds_cons. cbv zeta.
  cbn [MapUtils.southWest MapUtils.northEast fst snd].
  rewrite !isValidCoordinate_split.
  assert (Hlat : forall x, In x (map latitude (q :: l)) ->
            negb (MapUtils.isNaN x) && MapUtils.geb x (-90)%float
            && (x <=? 90)%float = true /\ is_nan x = false).
  { intros x Hx. apply in_map_iff in Hx. destruct Hx as [p [<- Hp]].
    specialize (Hv p Hp). rewrite isValidCoordinate_split in Hv.
    apply andb_prop in Hv. destruct Hv as [Hv _]. split; [exact Hv|].
    do 2 (apply andb_prop in Hv; destruct Hv as [Hv _]).
    now apply negb_true_iff in Hv. }
  assert (Hlng : forall x, In x (map longitude (q :: l)) ->
            negb (MapUtils.isNaN x) && MapUtils.geb x (-180)%float
            && (x <=? 180)%float = true /\ is_nan x = false).
  { intros x Hx. apply in_map_iff in Hx. destruct Hx as [p [<- Hp]].
    specialize (Hv p Hp). rewrite isValidCoordinate_split in Hv.
    apply andb_prop in Hv. destruct Hv as [_ Hv]. split; [exact Hv|].
    do 2 (apply andb_prop in Hv; destruct Hv as [Hv _]).
    now apply negb_true_iff in Hv. }
  destruct (extremes_pass
              (fun x => negb (MapUtils.isNaN x) && MapUtils.geb x (-90)%float
                        && (x <=? 90)%float)
              (map latitude (q :: l)) ltac:(discriminate) Hlat) as [A1 A2].
  destruct (extremes_pass
              (fun x => negb (MapUtils.isNaN x) && MapUtils.geb x (-180)%float
                        && (x <=? 180)%float)
              (map longitude (q :: l)) ltac:(discriminate) Hlng) as [B1 B2].
  cbv beta in A1, A2, B1, B2.
  rewrite A1, A2, B1, B2. split; reflexivity.
Qed.

Lemma calculateBounds_corners_valid_witness :
  let l := [sample 37.5%float (-122.5)%float 5%float 1000%float;
            sample (-10)%float 180%float 5%float 2000%float] in
  l <> []
  /\ MapUtils.isValidCoordinate
       (fst (MapUtils.southWest (MapUtils.calculateBounds l)))
       (snd (MapUtils.southWest (MapUtils.calculateBounds l))) = true.
Proof.
  intros l.
  assert (Hne : l <> []) by discriminate.
  assert (Hv : forall p, In p l ->
             MapUtils.isValidCoordinate (latitude p) (longitude p) = true).
  { intros p [<-|[<-|[]]]; reflexivity. }
  split; [exact Hne|].
  exact (proj1 (calculateBounds_corners_valid l Hne Hv)).
Defined.
